(** * nest_utils: analysis helpers of [utils.py]

    A shallow embedding of the numeric routines of [utils.py]
    ([calculate_fr], [fr_window_step], [fitness_function],
    [calculate_threshold]) and the properties stated about them.

    Numbers.  Python and numpy floats are carried as exact rationals
    ([Q]); rounding error is not modelled.  Where the code can leave the
    finite numbers (a division by zero inside numpy, the mean of an empty
    array) the value is an [npfloat], which adds the IEEE special values
    [PInf], [NInf] and [NaN] (zero is unsigned).  Python exceptions are the
    [Raise] results of the [result] type. *)

From Stdlib Require Import String ZArith QArith Qround Qabs List FinFun Sorted Bool Lia Lqa.
Import ListNotations.

Local Open Scope Q_scope.

(** ** Exceptions and fallible computations *)

Inductive exn : Type :=
| KeyError
| IndexError
| ValueError
| ZeroDivisionError
| UnboundLocalError.

Inductive result (A : Type) : Type :=
| Ok (a : A)
| Raise (e : exn).

Arguments Ok {A} a.
Arguments Raise {A} e.

Definition bind {A B : Type} (m : result A) (k : A -> result B) : result B :=
  match m with
  | Ok a => k a
  | Raise e => Raise e
  end.

Notation "x <- m ;; k" := (bind m (fun x => k))
  (at level 61, m at next level, right associativity).
Notation "' p <- m ;; k" := (bind m (fun x => let p := x in k))
  (at level 61, p pattern, m at next level, right associativity).

(** A [for] loop whose body may raise: the state is threaded from left to
    right and the first exception ends the loop. *)
Fixpoint foldM {A S : Type} (body : S -> A -> result S) (xs : list A) (s : S)
  : result S :=
  match xs with
  | [] => Ok s
  | x :: xs' => s' <- body s x ;; foldM body xs' s'
  end.

(** The results of a loop that appends one value per element. *)
Fixpoint mapM {A B : Type} (f : A -> result B) (xs : list A) : result (list B) :=
  match xs with
  | [] => Ok []
  | x :: xs' => y <- f x ;; ys <- mapM f xs' ;; Ok (y :: ys)
  end.

(** ** Python and numpy primitives *)

(** [int(x)] on a float: truncation toward zero. *)
Definition py_int (x : Q) : Z := Z.quot (Qnum x) (Zpos (Qden x)).

(** [a / b] on Python floats. *)
Definition py_div (a b : Q) : result Q :=
  if Qeq_bool b 0 then Raise ZeroDivisionError else Ok (a / b).

(** [range(n)], as integers. *)
Definition py_range (n : Z) : list Z := map Z.of_nat (seq 0 (Z.to_nat n)).

(** numpy floats: a finite value or an IEEE special value. *)
Inductive npfloat : Type :=
| Fin (q : Q)
| PInf
| NInf
| NaN.

Definition Qsgn (q : Q) : Z := Z.sgn (Qnum q).

Definition inf_of_sign (s : Z) : npfloat :=
  match s with
  | Z0 => NaN
  | Zpos _ => PInf
  | Zneg _ => NInf
  end.

Definition fsign (x : npfloat) : option Z :=
  match x with
  | Fin q => Some (Qsgn q)
  | PInf => Some 1%Z
  | NInf => Some (-1)%Z
  | NaN => None
  end.

Definition fopp (x : npfloat) : npfloat :=
  match x with
  | Fin q => Fin (- q)
  | PInf => NInf
  | NInf => PInf
  | NaN => NaN
  end.

Definition fadd (x y : npfloat) : npfloat :=
  match x, y with
  | NaN, _ | _, NaN => NaN
  | Fin a, Fin b => Fin (a + b)
  | PInf, NInf | NInf, PInf => NaN
  | PInf, _ | _, PInf => PInf
  | NInf, _ | _, NInf => NInf
  end.

Definition fsub (x y : npfloat) : npfloat := fadd x (fopp y).

Definition fmul (x y : npfloat) : npfloat :=
  match x, y with
  | Fin a, Fin b => Fin (a * b)
  | _, _ =>
      match fsign x, fsign y with
      | Some s, Some t => inf_of_sign (s * t)
      | _, _ => NaN
      end
  end.

Definition fdiv (x y : npfloat) : npfloat :=
  match x, y with
  | NaN, _ | _, NaN => NaN
  | Fin a, Fin b =>
      if Qeq_bool b 0 then inf_of_sign (Qsgn a) else Fin (a / b)
  | Fin _, _ => Fin 0
  | _, Fin b => if Qeq_bool b 0 then x else inf_of_sign (Qsgn b * match x with PInf => 1 | _ => -1 end)
  | _, _ => NaN
  end.

(** [x < y]; every comparison with [NaN] is false. *)
Definition fltb (x y : npfloat) : bool :=
  match x, y with
  | NaN, _ | _, NaN => false
  | Fin a, Fin b => negb (Qle_bool b a)
  | NInf, NInf | PInf, _ => false
  | NInf, _ => true
  | Fin _, PInf => true
  | Fin _, NInf => false
  end.

(** Equality of numpy floats up to the representation of a rational. *)
Definition feq (x y : npfloat) : Prop :=
  match x, y with
  | Fin a, Fin b => a == b
  | PInf, PInf | NInf, NInf | NaN, NaN => True
  | _, _ => False
  end.

Definition fsum (xs : list npfloat) : npfloat := fold_left fadd xs (Fin 0).

(** [a.mean()]: the sum over the number of elements; [0/0] on an empty
    array, which numpy reports as [nan] with a warning. *)
Definition np_mean (xs : list npfloat) : npfloat :=
  fdiv (fsum xs) (Fin (inject_Z (Z.of_nat (length xs)))).

(** Index [i] into an axis of length [n]: negative indices count from the
    end, anything outside [-n, n) raises. *)
Definition np_index (n : nat) (i : Z) : result nat :=
  if ((0 <=? i) && (i <? Z.of_nat n))%Z then Ok (Z.to_nat i)
  else if ((- Z.of_nat n <=? i) && (i <? 0))%Z then Ok (Z.to_nat (i + Z.of_nat n))
  else Raise IndexError.

(** Apply [f] at position [n] of a list (no change out of range). *)
Fixpoint list_update {A : Type} (n : nat) (f : A -> A) (l : list A) : list A :=
  match l, n with
  | [], _ => []
  | x :: l', O => f x :: l'
  | x :: l', S n' => x :: list_update n' f l'
  end.

(** A two-dimensional numpy array: its shape and its rows. *)
Record ndarray2 (A : Type) : Type := mkArr2 {
  nrows : nat;
  ncols : nat;
  rows : list (list A)
}.

Arguments mkArr2 {A} nrows ncols rows.
Arguments nrows {A} _.
Arguments ncols {A} _.
Arguments rows {A} _.

(** The rows agree with the shape. *)
Definition shape_ok {A : Type} (m : ndarray2 A) : Prop :=
  length (rows m) = nrows m /\ Forall (fun r => length r = ncols m) (rows m).

(** [np.zeros((r, c))]. *)
Definition np_zeros (r c : Z) : result (ndarray2 Z) :=
  if ((r <? 0) || (c <? 0))%Z then Raise ValueError
  else Ok (mkArr2 (Z.to_nat r) (Z.to_nat c)
                  (repeat (repeat 0%Z (Z.to_nat c)) (Z.to_nat r))).

(** [m[i, j] += 1]. *)
Definition arr2_incr (m : ndarray2 Z) (i j : Z) : result (ndarray2 Z) :=
  r <- np_index (nrows m) i ;;
  c <- np_index (ncols m) j ;;
  Ok (mkArr2 (nrows m) (ncols m)
             (list_update r (list_update c (fun v => (v + 1)%Z)) (rows m))).

(** [f(m)] applied to every entry. *)
Definition arr2_map {A B : Type} (f : A -> B) (m : ndarray2 A) : ndarray2 B :=
  mkArr2 (nrows m) (ncols m) (map (map f) (rows m)).

(** Column [j] of the array. *)
Definition arr2_col (m : ndarray2 npfloat) (j : nat) : list npfloat :=
  map (fun r => nth j r NaN) (rows m).

(** [m.mean(axis=0)]: the mean of every column. *)
Definition mean_axis0 (m : ndarray2 npfloat) : list npfloat :=
  map (fun j => np_mean (arr2_col m j)) (seq 0 (ncols m)).

(** [np.linspace(start, stop, num)] with the default [endpoint=True]. *)
Definition np_linspace (start stop : Q) (num : Z) : result (list Q) :=
  if (num <? 0)%Z then Raise ValueError
  else
    let delta := stop - start in
    let div := (num - 1)%Z in
    Ok (map (fun i : Z =>
               if ((1 <? num) && (i =? num - 1))%Z then stop
               else if (0 <? div)%Z
                    then inject_Z i * (delta / inject_Z div) + start
                    else inject_Z i * delta + start)
            (py_range num)).

(** [a[mask]] for a boolean mask: the entries at the true positions; the
    mask must have the length of the array. *)
Definition np_select {A : Type} (mask : list bool) (xs : list A) : result (list A) :=
  if (length mask =? length xs)%nat
  then Ok (map snd (filter fst (combine mask xs)))
  else Raise IndexError.

Fixpoint map2 {A B C : Type} (f : A -> B -> C) (xs : list A) (ys : list B) : list C :=
  match xs, ys with
  | x :: xs', y :: ys' => f x y :: map2 f xs' ys'
  | _, _ => []
  end.

(** A binary operation on two one-dimensional arrays under numpy's
    broadcasting: equal lengths, or one of the two of length one. *)
Definition broadcast2 {A B C : Type} (f : A -> B -> C) (xs : list A) (ys : list B)
  : result (list C) :=
  if (length xs =? length ys)%nat then Ok (map2 f xs ys)
  else
    match xs, ys with
    | [x], _ => Ok (map (f x) ys)
    | _, [y] => Ok (map (fun x => f x y) xs)
    | _, _ => Raise ValueError
    end.

(** [np.cumsum]. *)
Fixpoint cumsum_from (acc : npfloat) (xs : list npfloat) : list npfloat :=
  match xs with
  | [] => []
  | x :: xs' => let a := fadd acc x in a :: cumsum_from a xs'
  end.

Definition np_cumsum (xs : list npfloat) : list npfloat :=
  match xs with
  | [] => []
  | x :: xs' => x :: cumsum_from x xs'
  end.

(** [a[-n:]]: the last [n] entries, and the whole array when [n] is [0]
    or exceeds the length. *)
Definition slice_last {A : Type} (n : nat) (xs : list A) : list A :=
  match n with
  | O => xs
  | _ => skipn (length xs - n) xs
  end.

(** Round half to even, and [round(x, 2)] on a numpy float. *)
Definition rint (q : Q) : Z :=
  let f := Qfloor q in
  match Qcompare (q - inject_Z f) (1 # 2) with
  | Lt => f
  | Gt => (f + 1)%Z
  | Eq => if Z.even f then f else (f + 1)%Z
  end.

Definition np_round2 (x : npfloat) : npfloat :=
  match x with
  | Fin q => Fin (inject_Z (rint (q * 100)) / 100)
  | _ => x
  end.

Definition Qsum (xs : list Q) : Q := fold_left Qplus xs 0.

(** [a < b] on floats. *)
Definition Qltb (a b : Q) : bool := negb (Qle_bool b a).

(** A dictionary from population names to the pair [first id, last id]. *)
Definition PopDimIds : Type := list (string * (Z * Z)).

Fixpoint dict_get (d : PopDimIds) (k : string) : result (Z * Z) :=
  match d with
  | [] => Raise KeyError
  | (k', v) :: d' => if String.eqb k k' then Ok v else dict_get d' k
  end.

(** ** Data model *)

(** The spike record of one population. *)
Record Raster : Type := mkRaster {
  compartment_name : string;
  times : list Q;
  neurons_idx : list Z
}.

(** One entry of the list returned by [fr_window_step]. *)
Record InstantFr : Type := mkInstantFr {
  if_times : list Q;
  instant_fr : ndarray2 npfloat;
  name : string
}.

(** ** [calculate_fr] *)

(** Lines 179-180: [tt > t_start] and [tt < t_end], where a missing
    [t_end] stands for [np.inf]. *)
Definition after_start (t_start tt_ : Q) : bool := Qltb t_start tt_.

Definition before_end (t_end : option Q) (tt_ : Q) : bool :=
  match t_end with
  | Some e => Qltb tt_ e
  | None => true
  end.

(** Lines 179-187: the body of the loop over the spikes.  [t_prev[idx]]
    and [ISI_list[idx]] follow the index rule of [np_index]; an entry is
    read with [nth] once the index is resolved. *)
Definition isi_step (t_start : Q) (t_end : option Q)
  (st : list Q * list (list Q)) (it : Q * Z) : result (list Q * list (list Q)) :=
  let '(t_prev, ISI_list) := st in
  let '(tt_, idx) := it in
  if after_start t_start tt_ then
    if before_end t_end tt_ then
      r <- np_index (length t_prev) idx ;;
      if Qeq_bool (nth r t_prev 0) (-1)
      then Ok (list_update r (fun _ => tt_) t_prev, ISI_list)
      else
        let ISI := tt_ - nth r t_prev 0 in
        if negb (Qeq_bool ISI 0)
        then
          r' <- np_index (length ISI_list) idx ;;
          Ok (list_update r (fun _ => tt_) t_prev,
              list_update r' (fun l => l ++ [ISI]) ISI_list)
        else Ok st
    else Ok st
  else Ok st.

(** Line 189: one entry of [inv_mean_ISI]. *)
Definition inv_mean_ISI_el (elem : list Q) : npfloat :=
  if negb (length elem =? 0)%nat
  then fdiv (Fin 1000) (fdiv (Fin (Qsum elem)) (Fin (inject_Z (Z.of_nat (length elem)))))
  else Fin 0.

Section CalculateFr.

(** The square root of numpy, which has no rational model. *)
Variable np_sqrt : npfloat -> npfloat.

(** [np.array(l).std()]. *)
Definition np_std (xs : list npfloat) : npfloat :=
  let mu := np_mean xs in
  np_sqrt (np_mean (map (fun x => let d := fsub x mu in fmul d d) xs)).

(** Line 193: one entry of [CV_el]. *)
Definition CV_el_of (sublist : list Q) : npfloat :=
  if negb (length sublist =? 0)%nat
  then fdiv (np_std (map Fin sublist)) (np_mean (map Fin sublist))
  else Fin 0.

(** The inter-spike intervals of every neuron (lines 175-187). *)
Definition ISI_of_raster (pop_dim_ids : PopDimIds) (t_start : Q) (t_end : option Q)
  (raster : Raster) : result (list (list Q)) :=
  let pop_name := compartment_name raster in
  ' (first_id, last_id) <- dict_get pop_dim_ids pop_name ;;
  let pop_dim := (last_id - first_id + 1)%Z in
  t_prev <- (if (pop_dim <? 0)%Z then Raise ValueError
             else Ok (repeat (- (1)) (Z.to_nat pop_dim))) ;;
  let ISI_list := repeat ([] : list Q) (Z.to_nat pop_dim) in
  let idxs := map (fun n => (n - first_id - 1)%Z) (neurons_idx raster) in
  st <- foldM (isi_step t_start t_end) (combine (times raster) idxs) (t_prev, ISI_list) ;;
  Ok (snd st).

(** The three lists [calculate_fr] builds. *)
Record FrLists : Type := mkFrLists {
  fr_list : list npfloat;
  CV_list : list npfloat;
  name_list : list string
}.

(** Lines 174-197: the body of the loop over the rasters. *)
Definition calculate_fr_step (pop_dim_ids : PopDimIds) (t_start : Q)
  (t_end : option Q) (return_CV_name : bool) (acc : FrLists) (raster : Raster)
  : result FrLists :=
  ISI_list <- ISI_of_raster pop_dim_ids t_start t_end raster ;;
  let inv_mean_ISI := map inv_mean_ISI_el ISI_list in
  let fr := np_mean inv_mean_ISI in
  let fr_list' := fr_list acc ++ [np_round2 fr] in
  if return_CV_name then
    let CV_el := map CV_el_of ISI_list in
    Ok (mkFrLists fr_list'
                  (CV_list acc ++ [np_round2 (np_mean CV_el)])
                  (name_list acc ++ [compartment_name raster]))
  else Ok (mkFrLists fr_list' (CV_list acc) (name_list acc)).

(** [calculate_fr]; the caller reads [fr_list] alone when
    [return_CV_name] is false. *)
Definition calculate_fr (raster_list : list Raster) (pop_dim_ids : PopDimIds)
  (t_start : Q) (t_end : option Q) (return_CV_name : bool) : result FrLists :=
  foldM (calculate_fr_step pop_dim_ids t_start t_end return_CV_name)
        raster_list (mkFrLists [] [] []).

End CalculateFr.

(** ** [fr_window_step] *)

(** Lines 225-227: the index of the last window holding the spike and the
    number of earlier windows that hold it. *)
Definition spike_windows (window step start_time time : Q) : result (Z * Z) :=
  x <- py_div (time - start_time + window / 2) step ;;
  let last_window_index := py_int x in
  let dt := time - (start_time + inject_Z last_window_index * step - window / 2) in
  y <- py_div (window - dt) step ;;
  let how_many_wind_before := py_int y in
  Ok (last_window_index, how_many_wind_before).

(** The values [elem] takes in the loop of line 228. *)
Definition spike_elems (lw : Z * Z) : list Z :=
  map (fun j => (fst lw - j)%Z) (py_range (snd lw + 1)).

(** Line 230: the guard on [elem]. *)
Definition in_range (elem_len elem : Z) : bool :=
  ((0 <=? elem) && (elem <? elem_len))%Z.

(** The bins that pass the guard, in the order of the loop: the column
    indices line 231 writes to for one spike. *)
Definition spike_bins (elem_len : Z) (lw : Z * Z) : list Z :=
  filter (in_range elem_len) (spike_elems lw).

(** Lines 225-231: the body of the loop over the spikes. *)
Definition spike_step (window step start_time : Q) (elem_len : Z)
  (firing : ndarray2 Z) (it : Z * Q) : result (ndarray2 Z) :=
  let '(index, time) := it in
  ' (last_window_index, how_many_wind_before) <-
    spike_windows window step start_time time ;;
  foldM (fun firing j =>
           let elem := (last_window_index - j)%Z in
           if in_range elem_len elem
           then arr2_incr firing index elem
           else Ok firing)
        (py_range (how_many_wind_before + 1)) firing.

(** Line 221. *)
Definition elem_len_of (sim_time step start_time : Q) : result Z :=
  q <- py_div (sim_time - start_time) step ;;
  Ok (py_int q + 1)%Z.

(** Lines 216-240: the body of the loop over the rasters. *)
Definition fr_window_step_raster (pop_dim_ids : PopDimIds)
  (sim_time window step start_time : Q) (raster : Raster) : result InstantFr :=
  let pop_name := compartment_name raster in
  let t := times raster in
  ' (first_id, last_id) <- dict_get pop_dim_ids pop_name ;;
  let i := map (fun n => (n - first_id)%Z) (neurons_idx raster) in
  let pop_dim := (last_id - first_id + 1)%Z in
  elem_len <- elem_len_of sim_time step start_time ;;
  firing0 <- np_zeros pop_dim elem_len ;;
  firing <- foldM (spike_step window step start_time elem_len) (combine i t) firing0 ;;
  let fr := arr2_map (fun c => fdiv (Fin (inject_Z c)) (Fin (window / 1000))) firing in
  central_windows_time <-
    np_linspace start_time (start_time + step * inject_Z (elem_len - 1)) elem_len ;;
  Ok (mkInstantFr central_windows_time fr pop_name).

Definition fr_window_step (raster_list : list Raster) (pop_dim_ids : PopDimIds)
  (sim_time window step start_time : Q) : result (list InstantFr) :=
  mapM (fr_window_step_raster pop_dim_ids sim_time window step start_time)
       raster_list.

(** ** [fitness_function] *)

Section Fitness.

(** The mass-model series and the wavelet part of lines 348-369
    ([scipy.signal.cwt] with Morlet wavelets, the band selection and the
    Gaussian kernel): it yields the scalar [conv], or raises. *)
Variable MassFr : Type.
Variable wavelet_conv : MassFr -> Q -> Q * Q -> Q -> Q -> result Q.

(** Lines 372-379. *)
Definition fitness_function (fr fr_target : list Q) (mass_fr : MassFr)
  (T_sample : Q) (filter_range : Q * Q) (filter_sd t_start : Q)
  (fr_weights : option (list Q)) : result Q :=
  conv <- wavelet_conv mass_fr T_sample filter_range filter_sd t_start ;;
  dist <- broadcast2 Qminus fr fr_target ;;
  dist <- match fr_weights with
          | Some w => broadcast2 Qmult dist w
          | None => Ok dist
          end ;;
  let dist := map (fun d => d ^ 2) dist in
  let fitness_Cereb := Qsum dist in
  let fitness_fourier := conv / 2 in
  let fitness := - fitness_Cereb + fitness_fourier in
  Ok fitness.

End Fitness.

(** The formula of the specification:
    [-sum((fr_i - fr_target_i)^2 * weight_i^2) + spectral_term/2]. *)
Fixpoint weighted_sq_dev (fr fr_target w : list Q) : Q :=
  match fr, fr_target, w with
  | f :: fr', t :: tg', wi :: w' => (f - t) ^ 2 * wi ^ 2 + weighted_sq_dev fr' tg' w'
  | _, _, _ => 0
  end.

Fixpoint sq_dev (fr fr_target : list Q) : Q :=
  match fr, fr_target with
  | f :: fr', t :: tg' => (f - t) ^ 2 + sq_dev fr' tg'
  | _, _ => 0
  end.

Definition fitness_spec (fr fr_target : list Q) (fr_weights : option (list Q))
  (spectral_term : Q) : Q :=
  match fr_weights with
  | Some w => - weighted_sq_dev fr fr_target w + spectral_term / 2
  | None => - sq_dev fr fr_target + spectral_term / 2
  end.

(** ** [calculate_threshold] *)

(** The state of the loop over the trials: the last [threshold] bound,
    [logical_res] and [reaction_times]. *)
Record ThrState : Type := mkThrState {
  threshold : option npfloat;
  logical_res : list bool;
  reaction_times : list Q
}.

(** What one trial computes before it records its result. *)
Record Trial : Type := mkTrial {
  tr_baseline : npfloat;
  tr_threshold : npfloat;
  tr_times2 : list Q;        (* times[np.logical_and(b2, b1)], line 532 *)
  tr_in_fr2 : list npfloat;
  tr_cum_mean : list npfloat;
  tr_diff1 : list npfloat;
  tr_diff2 : list npfloat;
  tr_CR : list bool
}.

(** The first [tt] of [zip(times, CR)] whose [cr] is true (lines 532-535). *)
Fixpoint first_crossing (l : list (Q * bool)) : option Q :=
  match l with
  | [] => None
  | (t, cr) :: l' => if cr then Some t else first_crossing l'
  end.

(** [(times > lo) & (times <= hi)], as line 484 builds it. *)
Definition window_mask (times : list Q) (lo hi : Q) : result (list bool) :=
  let b1 := map (fun t => Qltb lo t) times in
  let b2 := map (fun t => Qle_bool t hi) times in
  broadcast2 andb b2 b1.

(** Lines 478-528 for trial [k]. *)
Definition trial_of (times : list Q) (instf : list npfloat)
  (settling_time sim_time MF_time IO_time m1 q m2 : Q) (k : Z) : result Trial :=
  let kq := inject_Z k in
  (* threshold *)
  let t0 := settling_time + kq * sim_time in
  let tf1 := settling_time + kq * sim_time + MF_time + 100 in
  let t_ref := settling_time + kq * sim_time + MF_time + 100 in
  let tf2 := settling_time + kq * sim_time + IO_time in
  mask <- window_mask times t0 tf1 ;;
  in_fr1 <- np_select mask instf ;;
  let baseline := np_mean in_fr1 in
  let threshold := fadd (fmul baseline (Fin m1)) (Fin q) in
  mask <- window_mask times t_ref tf2 ;;
  in_fr2 <- np_select mask instf ;;
  let diff1 := map (fun x => fsub threshold x) in_fr2 in
  (* cumulative *)
  let t0 := settling_time + kq * sim_time in
  let tf1 := settling_time + kq * sim_time + IO_time in
  let t_ref := settling_time + kq * sim_time + MF_time + 100 in
  let tf2 := settling_time + kq * sim_time + IO_time in
  mask <- window_mask times t0 tf1 ;;
  in_fr1 <- np_select mask instf ;;
  ratio <- broadcast2 fdiv (np_cumsum in_fr1)
             (np_cumsum (repeat (Fin 1) (length in_fr1))) ;;
  let cum_mean := map (fun x => fmul x (Fin m2)) ratio in
  mask <- window_mask times t_ref tf2 ;;
  in_fr2 <- np_select mask instf ;;
  diff2 <- broadcast2 fsub (slice_last (length in_fr2) cum_mean) in_fr2 ;;
  CR <- broadcast2 andb (map (fun d => fltb d (Fin 0)) diff1)
                        (map (fun d => fltb d (Fin 0)) diff2) ;;
  times2 <- np_select mask times ;;
  Ok (mkTrial baseline threshold times2 in_fr2 cum_mean diff1 diff2 CR).

(** Lines 531-539: the result of trial [k] is appended to the lists. *)
Definition record_trial (settling_time sim_time MF_time : Q) (k : Z)
  (tr : Trial) (st : ThrState) : ThrState :=
  if existsb (fun b => b) (tr_CR tr) then
    let rts :=
      match first_crossing (combine (tr_times2 tr) (tr_CR tr)) with
      | Some t =>
          reaction_times st ++ [t - (settling_time + inject_Z k * sim_time + MF_time)]
      | None => reaction_times st
      end in
    mkThrState (Some (tr_threshold tr)) (logical_res st ++ [true]) rts
  else
    mkThrState (Some (tr_threshold tr)) (logical_res st ++ [false])
               (reaction_times st ++ [- (1)]).

Section CalculateThreshold.

(** [scipy.ndimage.gaussian_filter(a, sigma)]. *)
Variable gaussian_filter : list npfloat -> Q -> list npfloat.

(** Lines 471-473. *)
Definition smoothed_rate (instant_fr_l : list InstantFr) : result (list Q * list npfloat) :=
  match nth_error instant_fr_l 2 with
  | None => Raise IndexError
  | Some d =>
      let times := if_times d in
      let instf := mean_axis0 (instant_fr d) in
      let instf := gaussian_filter instf 4 in
      Ok (times, instf)
  end.

Definition threshold_step (times : list Q) (instf : list npfloat)
  (settling_time sim_time MF_time IO_time m1 q m2 : Q)
  (st : ThrState) (k : Z) : result ThrState :=
  tr <- trial_of times instf settling_time sim_time MF_time IO_time m1 q m2 k ;;
  Ok (record_trial settling_time sim_time MF_time k tr st).

(** [calculate_threshold] with [ax=None]. *)
Definition calculate_threshold (instant_fr_l : list InstantFr) (trials : Z)
  (settling_time sim_time MF_time IO_time m1 q m2 : Q)
  : result (npfloat * list bool * list Q) :=
  ' (times, instf) <- smoothed_rate instant_fr_l ;;
  st <- foldM (threshold_step times instf settling_time sim_time MF_time IO_time m1 q m2)
          (py_range trials) (mkThrState None [] []) ;;
  match threshold st with
  | None => Raise UnboundLocalError
  | Some thr => Ok (thr, logical_res st, reaction_times st)
  end.

End CalculateThreshold.


(** ** Predicates of the statements below *)

(** The shape of one entry of the result of [fr_window_step]: the rate
    matrix has [pop_dim] rows and [int((sim_time - start_time)/step) + 1]
    columns, and ['times'] is the arithmetic sequence of the bin centres. *)
Definition raster_shape_inv (pop_dim_ids : PopDimIds) (sim_time step start_time : Q)
  (raster : Raster) (ret : InstantFr) : Prop :=
  exists first_id last_id,
    dict_get pop_dim_ids (compartment_name raster) = Ok (first_id, last_id) /\
    let pop_dim := (last_id - first_id + 1)%Z in
    let elem_len := (py_int ((sim_time - start_time) / step) + 1)%Z in
    Z.of_nat (nrows (instant_fr ret)) = pop_dim /\
    Z.of_nat (ncols (instant_fr ret)) = elem_len /\
    shape_ok (instant_fr ret) /\
    Z.of_nat (length (if_times ret)) = elem_len /\
    (forall i, (i < length (if_times ret))%nat ->
               nth i (if_times ret) 0 == start_time + inject_Z (Z.of_nat i) * step) /\
    name ret = compartment_name raster.


(** Entry [(r, c)] of a count matrix. *)
Definition entry (m : ndarray2 Z) (r c : nat) : Z :=
  nth c (nth r (rows m) []) 0%Z.

(** The bin indices [lo, lo+1, ..., hi] as a test on a column. *)
Definition bin_between (lo hi : Z) (c : nat) : bool :=
  ((lo <=? Z.of_nat c) && (Z.of_nat c <=? hi))%Z.


(** No spike of the raster falls in the analysed window
    [(t_start, t_end)]. *)
Definition no_spike_in_window (t_start : Q) (t_end : option Q) (raster : Raster) : Prop :=
  forall tt_, In tt_ (times raster) ->
              after_start t_start tt_ && before_end t_end tt_ = false.

(** No spike of the raster is written to row [r] of the firing matrix
    (the neuron of that row is silent). *)
Definition silent_row (first_id : Z) (pop_dim : nat) (raster : Raster) (r : nat) : Prop :=
  forall id, In id (neurons_idx raster) ->
             np_index pop_dim (id - first_id) <> Ok r.


(** Two arrays of one shape. *)
Definition same_shape {A B : Type} (m : ndarray2 A) (m' : ndarray2 B) : Prop :=
  nrows m' = nrows m /\ ncols m' = ncols m.

(** What [calculate_fr] appends to [fr_list] and to [CV_list] for one
    raster. *)
Definition fr_of_raster (pop_dim_ids : PopDimIds) (t_start : Q) (t_end : option Q)
  (raster : Raster) (fr : npfloat) : Prop :=
  exists ISI_list,
    ISI_of_raster pop_dim_ids t_start t_end raster = Ok ISI_list /\
    fr = np_round2 (np_mean (map inv_mean_ISI_el ISI_list)).

Definition CV_of_raster (np_sqrt : npfloat -> npfloat) (pop_dim_ids : PopDimIds)
  (t_start : Q) (t_end : option Q) (raster : Raster) (cv : npfloat) : Prop :=
  exists ISI_list,
    ISI_of_raster pop_dim_ids t_start t_end raster = Ok ISI_list /\
    cv = np_round2 (np_mean (map (CV_el_of np_sqrt) ISI_list)).


(** The weights, when given, are one per population. *)
Definition weights_fit (fr : list Q) (fr_weights : option (list Q)) : Prop :=
  match fr_weights with
  | Some w => length w = length fr
  | None => True
  end.


(** The weight of component [i]; 1 when [fr_weights] is [None]. *)
Definition weight_at (fr_weights : option (list Q)) (i : nat) : Q :=
  match fr_weights with
  | Some w => nth i w 0
  | None => 1
  end.


(** The response flag of a trial: [np.any(CR)]. *)
Definition trial_flag (tr : Trial) : bool := existsb (fun b => b) (tr_CR tr).

(** The reaction time a trial records (lines 532-538). *)
Definition trial_rt (settling_time sim_time MF_time : Q) (k : Z) (tr : Trial) : Q :=
  if trial_flag tr then
    match first_crossing (combine (tr_times2 tr) (tr_CR tr)) with
    | Some t => t - (settling_time + inject_Z k * sim_time + MF_time)
    | None => 0
    end
  else - (1).

(** Post-stimulus sample [j] of a trial meets both conditions: the
    difference to the linear threshold and the difference to the running
    cumulative mean are negative. *)
Definition sample_crosses (tr : Trial) (j : nat) : Prop :=
  exists d1 d2,
    nth_error (tr_diff1 tr) j = Some d1 /\
    nth_error (tr_diff2 tr) j = Some d2 /\
    fltb d1 (Fin 0) = true /\ fltb d2 (Fin 0) = true.

(** The post-stimulus window of trial [k]: [t_ref < t <= tf2]. *)
Definition post_stimulus (settling_time sim_time MF_time IO_time : Q) (k : Z) (t : Q)
  : bool :=
  Qle_bool t (settling_time + inject_Z k * sim_time + IO_time)
  && Qltb (settling_time + inject_Z k * sim_time + MF_time + 100) t.

(** The baseline window of trial [k]: [t0 < t <= tf1]. *)
Definition baseline_window (settling_time sim_time MF_time : Q) (k : Z) (t : Q)
  : bool :=
  Qle_bool t (settling_time + inject_Z k * sim_time + MF_time + 100)
  && Qltb (settling_time + inject_Z k * sim_time) t.


(** The cumulative window of trial [k]: [t0 < t <= tf1] with
    [tf1 = t0 + IO_time] (lines 503-508). *)
Definition cumulative_window (settling_time sim_time IO_time : Q) (k : Z) (t : Q)
  : bool :=
  Qle_bool t (settling_time + inject_Z k * sim_time + IO_time)
  && Qltb (settling_time + inject_Z k * sim_time) t.

(** What the fields of a trial stand for: the baseline is the mean rate
    over the baseline window, the threshold is linear in it, the
    post-stimulus samples are those of the window [(t_ref, tf2]], [diff1]
    is the threshold minus their rates, the cumulative mean is the running
    mean over the cumulative window scaled by [m2], and [diff2] is its
    tail minus the post-stimulus rates. *)
Definition trial_meaning (times : list Q) (instf : list npfloat)
  (settling_time sim_time MF_time IO_time m1 q m2 : Q) (k : Z) (tr : Trial) : Prop :=
  (exists in_fr1,
     np_select (map (baseline_window settling_time sim_time MF_time k) times) instf
     = Ok in_fr1 /\
     tr_baseline tr = np_mean in_fr1) /\
  tr_threshold tr = fadd (fmul (tr_baseline tr) (Fin m1)) (Fin q) /\
  tr_times2 tr = filter (post_stimulus settling_time sim_time MF_time IO_time k) times /\
  np_select (map (post_stimulus settling_time sim_time MF_time IO_time k) times) instf
  = Ok (tr_in_fr2 tr) /\
  tr_diff1 tr = map (fsub (tr_threshold tr)) (tr_in_fr2 tr) /\
  (exists in_fr1c,
     np_select (map (cumulative_window settling_time sim_time IO_time k) times) instf
     = Ok in_fr1c /\
     tr_cum_mean tr
     = map (fun x => fmul x (Fin m2))
           (map2 fdiv (np_cumsum in_fr1c)
                 (np_cumsum (repeat (Fin 1) (length in_fr1c))))) /\
  broadcast2 fsub (slice_last (length (tr_in_fr2 tr)) (tr_cum_mean tr)) (tr_in_fr2 tr)
  = Ok (tr_diff2 tr).

(** ** Example data *)

(** A smoothing filter that keeps its input, for running the model. *)
Definition keep_filter (a : list npfloat) (sigma : Q) : list npfloat := a.

(** The rate record of one neuron sampled every 50 ms over two trials of
    300 ms: a response in the first trial, none in the second. *)
Definition example_rates : InstantFr :=
  mkInstantFr [50; 100; 150; 200; 250; 300; 350; 400; 450; 500; 550; 600]
    (mkArr2 1 12 [[Fin 1; Fin 1; Fin 1; Fin 2; Fin 6; Fin 1;
                   Fin 1; Fin 1; Fin 1; Fin 1; Fin 1; Fin 1]])
    "DCN".

Definition empty_rates : InstantFr := mkInstantFr [] (mkArr2 0 0 []) "GR".

Definition example_instant_fr : list InstantFr :=
  [empty_rates; empty_rates; example_rates].


(** * Further functions of [utils.py] *)

(** ** [get_pop_dim] and [get_pop_dim_from_ids] *)

(** Lines 253-261. *)
Definition get_pop_dim {A : Type} (pop_list : list (list A)) : list Z :=
  map (fun el => Z.of_nat (length el)) pop_list.

(** Lines 263-271. *)
Definition get_pop_dim_from_ids (pop_list : list string) (pop_ids : PopDimIds)
  : result (list Z) :=
  foldM (fun dim_list pop =>
           ' (first_id, last_id) <- dict_get pop_ids pop ;;
           let dim := (last_id - first_id + 1)%Z in
           Ok (dim_list ++ [dim]))
        pop_list [].

(** ** [rectangular] *)

(** Lines 280-285: the value written to [y[idx]]. *)
Definition rect_value (center widht el : Q) : Q :=
  if Qltb el (center - widht / 2) then 0
  else if Qltb (center + widht / 2) el then 0
  else 1.

(** Lines 277-287. *)
Definition rectangular (x : list Q) (center widht : Q) : list npfloat :=
  let y := map (rect_value center widht) x in
  map (fun v => fdiv (Fin v) (Fin (Qsum y))) y.

(** ** [calculate_fourier_idx] *)

(** [min(a)] of Python on a sequence of floats. *)
Definition py_min (xs : list Q) : result Q :=
  match xs with
  | [] => Raise ValueError
  | x :: xs' => Ok (fold_left (fun m y => if Qltb y m then y else m) xs' x)
  end.

(** [np.where(mask)[0][0]]: the first true position. *)
Fixpoint first_true_from (i : nat) (mask : list bool) : result nat :=
  match mask with
  | [] => Raise IndexError
  | b :: mask' => if b then Ok i else first_true_from (S i) mask'
  end.

Definition np_where_first (mask : list bool) : result nat := first_true_from 0 mask.

(** Lines 290-300; [range] is the pair [(range[0], range[1])]. *)
Definition calculate_fourier_idx (xf : list Q) (range : Q * Q) : result (nat * nat) :=
  let lower := fst range in
  let upper := snd range in
  let xf_lower := map (fun x => Qabs (x - lower)) xf in
  m <- py_min (map (fun d => d + (1 # 100)) xf_lower) ;;
  min_idx <- np_where_first (map (fun d => Qle_bool d m) xf_lower) ;;
  let xf_upper := map (fun x => Qabs (x - upper)) xf in
  m' <- py_min xf_upper ;;
  max_idx <- np_where_first (map (fun d => Qle_bool d m') xf_upper) ;;
  Ok (min_idx, (max_idx + 1)%nat).

(** ** Predicates on the further functions *)

(** Line 268: the dimension of one population. *)
Definition pop_dim_of (pop_ids : PopDimIds) (pop : string) : result Z :=
  ' (first_id, last_id) <- dict_get pop_ids pop ;; Ok (last_id - first_id + 1)%Z.

(** [el] lies in the closed window of [rectangular]. *)
Definition rect_inside (center widht el : Q) : bool :=
  negb (Qltb el (center - widht / 2)) && negb (Qltb (center + widht / 2) el).


(** The closed window of bin [e] holds the time [time]. *)
Definition window_holds (window step start_time : Q) (e : Z) (time : Q) : Prop :=
  start_time + inject_Z e * step - window / 2 <= time
  /\ time <= start_time + inject_Z e * step + window / 2.

(** Every count of the matrix is a natural number. *)
Definition nonneg_counts (m : ndarray2 Z) : Prop :=
  Forall (Forall (fun v => (0 <= v)%Z)) (rows m).

(** A raster that [fr_window_step] and [calculate_fr] accept: its
    population is known and not empty, and its neuron ids are ids of the
    population. *)
Definition raster_well_formed (pop_dim_ids : PopDimIds) (raster : Raster) : Prop :=
  exists first_id last_id,
    dict_get pop_dim_ids (compartment_name raster) = Ok (first_id, last_id) /\
    (first_id <= last_id)%Z /\
    forall id, In id (neurons_idx raster) -> (first_id <= id <= last_id)%Z.

(** ** Spikes of one neuron in [calculate_fr] *)

(** Line 178: the spikes the loop reads, each time with its neuron id
    shifted by [first_id + 1]. *)
Definition isi_spikes (first_id : Z) (raster : Raster) : list (Q * Z) :=
  combine (times raster) (map (fun n => (n - first_id - 1)%Z) (neurons_idx raster)).

(** The shifted id [idx] selects entry [r] of an array of [n] entries. *)
Definition lands_on (n r : nat) (idx : Z) : bool :=
  match np_index n idx with
  | Ok r' => (r' =? r)%nat
  | Raise _ => false
  end.

(** The spike times inside the window that entry [r] receives, in the
    order of the raster. *)
Definition row_spike_times (t_start : Q) (t_end : option Q) (n r : nat)
  (spikes : list (Q * Z)) : list Q :=
  map fst (filter (fun it => after_start t_start (fst it)
                             && before_end t_end (fst it)
                             && lands_on n r (snd it)) spikes).

(** The differences of consecutive entries. *)
Fixpoint intervals (ts : list Q) : list Q :=
  match ts with
  | a :: (b :: _) as tl => (b - a) :: intervals tl
  | _ => []
  end.

(** No two consecutive entries are equal. *)
Fixpoint no_repeat (ts : list Q) : Prop :=
  match ts with
  | a :: (b :: _) as tl => ~ a == b /\ no_repeat tl
  | _ => True
  end.

(** Every entry is smaller than the next one. *)
Fixpoint increasing (ts : list Q) : Prop :=
  match ts with
  | a :: (b :: _) as tl => a < b /\ increasing tl
  | _ => True
  end.

(** What the loop of lines 178-187 has stored for entry [r] once it has
    read the in-window spike times [seen] of that entry. *)
Definition row_state (r : nat) (seen : list Q) (st : list Q * list (list Q)) : Prop :=
  match rev seen with
  | [] => nth r (fst st) 0 = - (1) /\ nth r (snd st) [] = []
  | last_t :: _ => nth r (fst st) 0 = last_t /\ ~ last_t == - (1) /\
                   nth r (snd st) [] = intervals seen
  end.

(** ** [calculate_fr_stats] *)

(** [l[i]] for a list or a one-dimensional array and a constant
    [i >= 0]. *)
Definition py_get {A : Type} (l : list A) (i : nat) : result A :=
  match nth_error l i with
  | Some x => Ok x
  | None => Raise IndexError
  end.

(** [l[a:b]] for constants [0 <= a <= b]: a slice never raises. *)
Definition py_slice {A : Type} (l : list A) (a b : nat) : list A :=
  firstn (b - a) (skipn a l).

(** Lines 140-143, [average_MSN] with [(i, j) = (1, 2)] and [average_GPe]
    with [(3, 4)]: the mean of two entries weighted by the sizes of their
    populations, rounded to two decimals.  The entries are numpy floats, so
    a zero total size gives [inf] or [nan], not an exception. *)
Definition weighted_average (i j : nat) (pop_list_dim : list Z) (l : list npfloat)
  : result npfloat :=
  li <- py_get l i ;;
  di <- py_get pop_list_dim i ;;
  lj <- py_get l j ;;
  dj <- py_get pop_list_dim j ;;
  Ok (np_round2 (fdiv (fadd (fmul li (Fin (inject_Z di))) (fmul lj (Fin (inject_Z dj))))
                      (Fin (inject_Z (di + dj))))).

(** Lines 144-145: [l[0:3] + [average_MSN(l)] + l[3:5] + [average_GPe(l)]
    + l[5:7]], the operands evaluated from left to right.  [plus] is
    the [+] of the values at hand: concatenation for the lists of one
    trial, the element-wise sum of numpy for the arrays of several
    trials. *)
Definition expand_with_averages
  (plus : list npfloat -> list npfloat -> result (list npfloat))
  (pop_list_dim : list Z) (l : list npfloat) : result (list npfloat) :=
  average_MSN <- weighted_average 1 2 pop_list_dim l ;;
  l1 <- plus (py_slice l 0 3) [average_MSN] ;;
  l2 <- plus l1 (py_slice l 3 5) ;;
  average_GPe <- weighted_average 3 4 pop_list_dim l ;;
  l3 <- plus l2 [average_GPe] ;;
  plus l3 (py_slice l 5 7).

(** Line 146. *)
Definition names_with_averages (name_list : list string) : list string :=
  (py_slice name_list 0 3 ++ ["MSN"%string]) ++ py_slice name_list 3 5
  ++ ["GPe"%string] ++ py_slice name_list 5 7.

(** [s in name_list]. *)
Definition py_in (s : string) (name_list : list string) : bool :=
  existsb (String.eqb s) name_list.

(** [+] of two Python lists, and of two numpy arrays. *)
Definition list_plus (a b : list npfloat) : result (list npfloat) := Ok (a ++ b).

Definition array_plus (a b : list npfloat) : result (list npfloat) :=
  broadcast2 fadd a b.

(** [np.array(rows)] for a non-empty list of one-dimensional arrays of one
    length.  Rows of different lengths raise [ValueError] (numpy 1.24 and
    later; earlier versions build an array of objects). *)
Definition np_array_rows (rows : list (list npfloat)) : result (ndarray2 npfloat) :=
  let m := length (hd [] rows) in
  if forallb (fun r => (length r =? m)%nat) rows
  then Ok (mkArr2 (length rows) m rows)
  else Raise ValueError.

(** The dictionary [calculate_fr_stats] returns; the keys ['fr_sd'] and
    ['CV_sd'] are there with several trials only. *)
Record FrStats : Type := mkFrStats {
  stats_fr : list npfloat;
  stats_fr_sd : option (list npfloat);
  stats_CV : list npfloat;
  stats_CV_sd : option (list npfloat);
  stats_name : list string
}.

Section CalculateFrStats.

Variable np_sqrt : npfloat -> npfloat.

(** [a.std(axis=0)]. *)
Definition std_axis0 (m : ndarray2 npfloat) : list npfloat :=
  map (fun j => np_std np_sqrt (arr2_col m j)) (seq 0 (ncols m)).

(** Lines 121-134.  [raster_list] is a list of rasters when
    [multiple_trials] is false ([inl]) and a list of such lists when it is
    true ([inr]).  With no trial at all the four arrays are built from an
    empty list without an exception and [name_list] is unbound at line
    136. *)
Definition trial_statistics (raster_list : list Raster + list (list Raster))
  (pop_dim_ids : PopDimIds) (t_start : Q) (t_end : option Q)
  : result (list npfloat * option (list npfloat) * list npfloat
            * option (list npfloat) * list string) :=
  match raster_list with
  | inl rasters =>
      r <- calculate_fr np_sqrt rasters pop_dim_ids t_start t_end true ;;
      Ok (fr_list r, None, CV_list r, None, name_list r)
  | inr trials =>
      rs <- mapM (fun raster =>
                    calculate_fr np_sqrt raster pop_dim_ids t_start t_end true)
                 trials ;;
      match rev rs with
      | [] => Raise UnboundLocalError
      | r_last :: _ =>
          fr_arr <- np_array_rows (map fr_list rs) ;;
          CV_arr <- np_array_rows (map CV_list rs) ;;
          Ok (mean_axis0 fr_arr, Some (std_axis0 fr_arr),
              mean_axis0 CV_arr, Some (mean_axis0 CV_arr), name_list r_last)
      end
  end.

(** [calculate_fr_stats], lines 118-158. *)
Definition calculate_fr_stats (raster_list : list Raster + list (list Raster))
  (pop_dim_ids : PopDimIds) (t_start : Q) (t_end : option Q) : result FrStats :=
  ' (fr_list, fr_list_sd, CV_list, CV_list_sd, name_list) <-
    trial_statistics raster_list pop_dim_ids t_start t_end ;;
  let plus := match raster_list with inl _ => list_plus | inr _ => array_plus end in
  pop_list_dim <- get_pop_dim_from_ids name_list pop_dim_ids ;;
  ' (fr_list, CV_list, name_list) <-
    (if py_in "MSND1" name_list && py_in "GPeTA" name_list
     then
       fr_list' <- expand_with_averages plus pop_list_dim fr_list ;;
       CV_list' <- expand_with_averages plus pop_list_dim CV_list ;;
       Ok (fr_list', CV_list', names_with_averages name_list)
     else Ok (fr_list, CV_list, name_list)) ;;
  Ok (mkFrStats fr_list fr_list_sd CV_list CV_list_sd name_list).

End CalculateFrStats.

(** ** Populations given by their ids *)

(** The ids [first_id, ..., last_id] of a population, as [nest.Create]
    returns them. *)
Definition id_range (first_id last_id : Z) : list Z :=
  map (fun i => (first_id + Z.of_nat i)%Z) (seq 0 (Z.to_nat (last_id - first_id + 1))).

(** ** [attach_spikedetector] *)

(** [==] on two populations, which are tuples of ids. *)
Fixpoint pop_eqb (p p' : list Z) : bool :=
  match p, p' with
  | [], [] => true
  | x :: q, x' :: q' => (x =? x')%Z && pop_eqb q q'
  | _, _ => false
  end.

Section AttachSpikedetector.

(** The NEST kernel: its state, the handle of a spike detector, and the two
    calls [nest.Create('spike_detector', ...)] and [nest.Connect(pop, sd)]
    as state transformers. *)
Variables (Kernel Detector : Type).
Variable nest_Create : Kernel -> Detector * Kernel.
Variable nest_Connect : list Z -> Detector -> Kernel -> Kernel.

(** Lines 51-53 and 47-49: a new detector attached to [pop]. *)
Definition attach_new (pop : list Z) (st : Kernel * list Detector)
  : Kernel * list Detector :=
  let '(nest, sd_list) := st in
  let '(sd, nest) := nest_Create nest in
  let nest := nest_Connect pop sd nest in
  (nest, sd_list ++ [sd]).

(** Lines 42-49: the body of the loop when [pop_list_to_ode] is given.
    [sd_list_to_ode] is read here only, and is a list then. *)
Definition attach_step (pop_list_to_ode : list (list Z)) (sd_list_to_ode : list Detector)
  (st : Kernel * list Detector * nat) (pop : list Z)
  : result (Kernel * list Detector * nat) :=
  let '(nest, sd_list, pop_list_to_ode_pointer) := st in
  p <- py_get pop_list_to_ode pop_list_to_ode_pointer ;;
  if pop_eqb p pop then
    sd <- py_get sd_list_to_ode pop_list_to_ode_pointer ;;
    let sd_list := sd_list ++ [sd] in
    if (pop_list_to_ode_pointer <? length pop_list_to_ode)%nat
    then Ok (nest, sd_list, S pop_list_to_ode_pointer)
    else Ok (nest, sd_list, pop_list_to_ode_pointer)
  else
    let '(nest, sd_list) := attach_new pop (nest, sd_list) in
    Ok (nest, sd_list, pop_list_to_ode_pointer).

(** [attach_spikedetector], lines 36-55: the kernel after the calls and
    the list of detectors. *)
Definition attach_spikedetector (nest : Kernel) (pop_list : list (list Z))
  (pop_list_to_ode : option (list (list Z))) (sd_list_to_ode : list Detector)
  : result (Kernel * list Detector) :=
  match pop_list_to_ode with
  | Some pop_list_to_ode =>
      ' (nest, sd_list, _) <-
        foldM (attach_step pop_list_to_ode sd_list_to_ode) pop_list (nest, [], 0%nat) ;;
      Ok (nest, sd_list)
  | None =>
      Ok (fold_left (fun st pop => attach_new pop st) pop_list (nest, []))
  end.

End AttachSpikedetector.

(** The pre-set populations still to be met after the loop of
    [attach_spikedetector] has gone through [pop_list]: the first of them
    is dropped when it is the population at hand. *)
Fixpoint left_to_meet (pop_list_to_ode pop_list : list (list Z)) : list (list Z) :=
  match pop_list, pop_list_to_ode with
  | [], _ => pop_list_to_ode
  | _ :: _, [] => []
  | pop :: pop_list', p :: rest =>
      if pop_eqb p pop then left_to_meet rest pop_list'
      else left_to_meet pop_list_to_ode pop_list'
  end.

(** ** [average_fr_per_trial] *)

(** [dic[key] = value] on a dictionary kept in insertion order. *)
Fixpoint dict_set {V : Type} (dic : list (string * V)) (key : string) (value : V)
  : list (string * V) :=
  match dic with
  | [] => [(key, value)]
  | (key', value') :: dic' =>
      if String.eqb key' key then (key', value) :: dic'
      else (key', value') :: dict_set dic' key value
  end.

Section AverageFrPerTrial.

Variable np_sqrt : npfloat -> npfloat.

(** Lines 450-460: the statistics of every raster list over the window of
    trial [k]. *)
Definition trial_rates (rasters_list_list : list (list Raster)) (pop_ids : PopDimIds)
  (t_sim t_start t_end settling_time : Q) (k : Z) : result (list FrStats) :=
  let t0 := settling_time + t_sim * inject_Z k in
  let ti := t0 + t_start in
  let tf := t0 + t_end in
  mapM (fun rr => calculate_fr_stats np_sqrt (inl rr) pop_ids ti (Some tf))
       rasters_list_list.

(** Lines 447-467.  [av_fr] is the result of the last call of
    [calculate_fr_stats]; it is unbound at line 464 when there was no
    call. *)
Definition average_fr_per_trial (rasters_list_list : list (list Raster))
  (pop_ids : PopDimIds) (t_sim t_start t_end settling_time : Q) (trials : Z)
  : result (list (string * list (list npfloat))) :=
  av_fr_list_list <-
    mapM (trial_rates rasters_list_list pop_ids t_sim t_start t_end settling_time)
         (py_range trials) ;;
  match rev (concat av_fr_list_list) with
  | [] => Raise UnboundLocalError
  | av_fr :: _ =>
      foldM (fun av_fr_dic (it : nat * string) =>
               let '(i, name) := it in
               value <- mapM (fun av_fr_list =>
                                mapM (fun st => py_get (stats_fr st) i) av_fr_list)
                             av_fr_list_list ;;
               Ok (dict_set av_fr_dic name value))
            (combine (seq 0 (length (stats_name av_fr))) (stats_name av_fr)) []
  end.

End AverageFrPerTrial.

(** * Properties *)

(** ** The error monad and the list primitives *)

Lemma bind_Ok_inv {A B : Type} (m : result A) (k : A -> result B) (b : B) :
  bind m k = Ok b -> exists a, m = Ok a /\ k a = Ok b.
Proof.
  destruct m as [a|e]; simpl; intros H; [exists a; auto | discriminate].
Qed.

Ltac inv_bind H :=
  let a := fresh "a" in
  let Ha := fresh "Hm" in
  apply bind_Ok_inv in H; destruct H as (a & Ha & H).

Lemma mapM_Forall2 {A B : Type} (f : A -> result B) (xs : list A) (ys : list B) :
  mapM f xs = Ok ys -> Forall2 (fun x y => f x = Ok y) xs ys.
Proof.
  revert ys; induction xs as [|x xs IH]; intros ys H; simpl in H.
  - inversion H; constructor.
  - inv_bind H. inv_bind H. inversion H; subst. constructor; auto.
Qed.

Lemma list_update_length {A : Type} (n : nat) (f : A -> A) (l : list A) :
  length (list_update n f l) = length l.
Proof.
  revert n; induction l as [|x l IH]; intros [|n]; simpl; auto.
Qed.

Lemma list_update_Forall {A : Type} (P : A -> Prop) (n : nat) (f : A -> A) (l : list A) :
  (forall x, P x -> P (f x)) -> Forall P l -> Forall P (list_update n f l).
Proof.
  intros Hf; revert n; induction l as [|x l IH]; intros [|n] H; simpl; auto;
    inversion H; subst; constructor; auto.
Qed.

Lemma list_update_nth_other {A : Type} (n m : nat) (f : A -> A) (l : list A) (d : A) :
  n <> m -> nth m (list_update n f l) d = nth m l d.
Proof.
  revert n m; induction l as [|x l IH]; intros [|n] [|m] Hnm; simpl; auto.
  contradiction.
Qed.

Lemma py_range_length (n : Z) : length (py_range n) = Z.to_nat n.
Proof. unfold py_range. now rewrite length_map, length_seq. Qed.

Lemma py_range_nth (n : Z) (i : nat) :
  (i < Z.to_nat n)%nat -> nth i (py_range n) 0%Z = Z.of_nat i.
Proof.
  intros Hi. unfold py_range.
  change 0%Z with (Z.of_nat 0). rewrite map_nth, seq_nth; auto.
Qed.

Lemma py_range_In (n j : Z) : In j (py_range n) <-> (0 <= j < n)%Z.
Proof.
  unfold py_range. rewrite in_map_iff. split.
  - intros (i & <- & Hi). apply in_seq in Hi. lia.
  - intros Hj. exists (Z.to_nat j). split; [lia|]. apply in_seq. lia.
Qed.

Lemma np_index_inv (n : nat) (i : Z) (r : nat) :
  np_index n i = Ok r -> (r < n)%nat /\
  (Z.of_nat r = i \/ Z.of_nat r = (i + Z.of_nat n)%Z).
Proof.
  unfold np_index.
  destruct ((0 <=? i) && (i <? Z.of_nat n))%Z eqn:E1.
  - intros H; inversion H; subst. apply andb_true_iff in E1 as [E1 E2]. lia.
  - destruct ((- Z.of_nat n <=? i) && (i <? 0))%Z eqn:E2; [|discriminate].
    intros H; inversion H; subst. apply andb_true_iff in E2 as [E2 E3]. lia.
Qed.

Lemma np_index_in_range (n : nat) (i : Z) :
  (0 <= i < Z.of_nat n)%Z -> np_index n i = Ok (Z.to_nat i).
Proof.
  intros Hi. unfold np_index.
  replace ((0 <=? i) && (i <? Z.of_nat n))%Z with true; [reflexivity|].
  symmetry. apply andb_true_iff. lia.
Qed.

(** ** The increments of one spike *)

Lemma foldM_guarded {A S : Type} (p : A -> bool) (body : S -> A -> result S)
  (xs : list A) (s : S) :
  foldM (fun s x => if p x then body s x else Ok s) xs s
  = foldM body (filter p xs) s.
Proof.
  revert s. induction xs as [|x xs IH]; intros s; simpl; [reflexivity|].
  destruct (p x); simpl.
  - destruct (body s x); simpl; auto.
  - apply IH.
Qed.

Lemma foldM_map {A B S : Type} (g : A -> B) (body : S -> B -> result S)
  (xs : list A) (s : S) :
  foldM (fun s x => body s (g x)) xs s = foldM body (map g xs) s.
Proof.
  revert s. induction xs as [|x xs IH]; intros s; simpl; [reflexivity|].
  destruct (body s (g x)); simpl; auto.
Qed.

(** The loop of lines 228-231 increments the bins of [spike_bins], in
    their order, and performs no other write. *)
Lemma spike_step_bins (window step start_time : Q) (elem_len : Z)
  (firing : ndarray2 Z) (index : Z) (time : Q) :
  spike_step window step start_time elem_len firing (index, time)
  = lw <- spike_windows window step start_time time ;;
    foldM (fun f elem => arr2_incr f index elem) (spike_bins elem_len lw) firing.
Proof.
  unfold spike_step.
  destruct (spike_windows window step start_time time) as [[L h]|e]; simpl;
    [|reflexivity].
  unfold spike_bins, spike_elems. cbn [fst snd].
  rewrite <- (foldM_guarded (in_range elem_len)
                (fun f elem => arr2_incr f index elem)).
  rewrite <- (foldM_map (fun j => (L - j)%Z)
                (fun s x => if in_range elem_len x then arr2_incr s index x else Ok s)).
  reflexivity.
Qed.

(** ** Shapes of the arrays of [fr_window_step] *)

Lemma np_zeros_shape (r c : Z) (m : ndarray2 Z) :
  np_zeros r c = Ok m ->
  (0 <= r)%Z /\ (0 <= c)%Z /\ nrows m = Z.to_nat r /\ ncols m = Z.to_nat c /\
  shape_ok m /\ Forall (Forall (fun v => v = 0%Z)) (rows m).
Proof.
  unfold np_zeros. destruct ((r <? 0) || (c <? 0))%Z eqn:E; [discriminate|].
  intros H; inversion H; subst; clear H. apply orb_false_iff in E as [E1 E2].
  unfold shape_ok; simpl. rewrite repeat_length.
  repeat split; try lia.
  - apply Forall_forall. intros x Hx. apply repeat_spec in Hx. subst.
    now rewrite repeat_length.
  - apply Forall_forall. intros x Hx. apply repeat_spec in Hx. subst.
    apply Forall_forall. intros v Hv. now apply repeat_spec in Hv.
Qed.

Lemma arr2_incr_shape (m m' : ndarray2 Z) (i j : Z) :
  arr2_incr m i j = Ok m' -> same_shape m m' /\ (shape_ok m -> shape_ok m').
Proof.
  unfold arr2_incr. intros H. inv_bind H. inv_bind H.
  inversion H; subst; clear H. unfold same_shape, shape_ok; simpl.
  split; [auto|]. intros [Hr Hc]. split.
  - now rewrite list_update_length.
  - apply list_update_Forall; auto.
    intros x Hx. now rewrite list_update_length.
Qed.

Lemma spike_step_shape (window step start_time : Q) (elem_len : Z)
  (m m' : ndarray2 Z) (it : Z * Q) :
  spike_step window step start_time elem_len m it = Ok m' ->
  same_shape m m' /\ (shape_ok m -> shape_ok m').
Proof.
  destruct it as [index time]. rewrite spike_step_bins. intros H. inv_bind H.
  revert H. generalize (spike_bins elem_len a). intros l; revert m.
  induction l as [|e l IH]; intros m H; simpl in H.
  - inversion H; subst. unfold same_shape; auto.
  - inv_bind H. apply arr2_incr_shape in Hm0 as [[S1 S2] S3].
    apply IH in H as [[T1 T2] T3]. unfold same_shape in *.
    split; [split; congruence | auto].
Qed.

Lemma firing_shape (window step start_time : Q) (elem_len : Z)
  (spikes : list (Z * Q)) (m m' : ndarray2 Z) :
  foldM (spike_step window step start_time elem_len) spikes m = Ok m' ->
  same_shape m m' /\ (shape_ok m -> shape_ok m').
Proof.
  revert m; induction spikes as [|it l IH]; intros m H; simpl in H.
  - inversion H; subst. unfold same_shape; auto.
  - inv_bind H. apply spike_step_shape in Hm as [[S1 S2] S3].
    apply IH in H as [[T1 T2] T3]. unfold same_shape in *.
    split; [split; congruence | auto].
Qed.

Lemma arr2_map_shape_ok {A B : Type} (f : A -> B) (m : ndarray2 A) :
  shape_ok m -> shape_ok (arr2_map f m).
Proof.
  unfold shape_ok, arr2_map; simpl. intros [Hr Hc]. split.
  - now rewrite length_map.
  - apply Forall_map. eapply Forall_impl; [|exact Hc].
    intros r Hlen; simpl in *. now rewrite length_map.
Qed.

Lemma inject_Z_nonzero (z : Z) : z <> 0%Z -> ~ inject_Z z == 0.
Proof.
  intros Hz H. apply Hz. unfold Qeq in H; simpl in H. lia.
Qed.

(** The bin centres: an arithmetic sequence from [start] with spacing
    [step]. *)
Lemma np_linspace_arith (start step : Q) (n : Z) (l : list Q) :
  np_linspace start (start + step * inject_Z (n - 1)) n = Ok l ->
  (0 <= n)%Z /\ length l = Z.to_nat n /\
  forall i, (i < Z.to_nat n)%nat ->
            nth i l 0 == start + inject_Z (Z.of_nat i) * step.
Proof.
  unfold np_linspace. destruct (n <? 0)%Z eqn:En; [discriminate|].
  intros H; inversion H; subst; clear H.
  apply Z.ltb_ge in En. split; [assumption|]. split.
  - now rewrite length_map, py_range_length.
  - intros i Hi.
    set (f := fun i0 : Z => _).
    rewrite (nth_indep _ 0 (f 0%Z)) by (now rewrite length_map, py_range_length).
    rewrite map_nth, py_range_nth by assumption. subst f; cbv beta.
    destruct ((1 <? n) && (Z.of_nat i =? n - 1))%Z eqn:E1.
    + apply andb_true_iff in E1 as [_ E1]. apply Z.eqb_eq in E1.
      rewrite E1. ring.
    + destruct (0 <? n - 1)%Z eqn:E2.
      * apply Z.ltb_lt in E2. field. apply inject_Z_nonzero. lia.
      * apply Z.ltb_ge in E2. assert (i = 0)%nat by lia. subst i.
        simpl. ring.
Qed.

(** ** [fr_window_step]: the guard on the bin index *)

Lemma spike_bins_in_range (elem_len : Z) (lw : Z * Z) (elem : Z) :
  In elem (spike_bins elem_len lw) -> (0 <= elem < elem_len)%Z.
Proof.
  unfold spike_bins. intros H. apply filter_In in H as [_ H].
  unfold in_range in H. apply andb_true_iff in H as [H1 H2]. lia.
Qed.

(** C7: in [fr_window_step], whatever the spike, its time and the
    parameters, the writes of the loop of lines 228-231 are the increments
    at the bins of [spike_bins], and every such bin index [elem] satisfies
    [0 <= elem < elem_len]; on a firing matrix with [elem_len] columns the
    column index is resolved to [elem] itself, so no write outside the
    matrix is attempted and no write wraps around. *)
Theorem fr_window_step_bins_in_bounds :
  forall (window step start_time time : Q) (elem_len index : Z) (firing : ndarray2 Z),
    Z.of_nat (ncols firing) = Z.max 0 elem_len ->
    forall lw, spike_windows window step start_time time = Ok lw ->
    spike_step window step start_time elem_len firing (index, time)
    = foldM (fun f elem => arr2_incr f index elem) (spike_bins elem_len lw) firing /\
    Forall (fun elem => (0 <= elem < elem_len)%Z
                        /\ np_index (ncols firing) elem = Ok (Z.to_nat elem))
           (spike_bins elem_len lw).
Proof.
  intros window step start_time time elem_len index firing Hc lw Hlw.
  split; [now rewrite spike_step_bins, Hlw|].
  apply Forall_forall. intros elem H.
  pose proof (spike_bins_in_range _ _ _ H) as Hr.
  split; [assumption|]. apply np_index_in_range. lia.
Qed.

Lemma fr_window_step_bins_in_bounds_witness :
  let firing := mkArr2 1 21 [repeat 0%Z 21] in
  exists lw,
    spike_windows 10 5 0 0 = Ok lw /\
    spike_step 10 5 0 21 firing (0%Z, 0)
    = foldM (fun f elem => arr2_incr f 0 elem) (spike_bins 21 lw) firing /\
    Forall (fun elem => (0 <= elem < 21)%Z
                        /\ np_index 21 elem = Ok (Z.to_nat elem))
           (spike_bins 21 lw).
Proof.
  intros firing. exists (1, 2)%Z. split; [reflexivity|].
  apply (fr_window_step_bins_in_bounds 10 5 0 0 21 0 firing); reflexivity.
Defined.

(** ** [fr_window_step]: the shape of the result *)

Lemma elem_len_of_inv (sim_time step start_time : Q) (elem_len : Z) :
  elem_len_of sim_time step start_time = Ok elem_len ->
  ~ step == 0 /\ elem_len = (py_int ((sim_time - start_time) / step) + 1)%Z.
Proof.
  unfold elem_len_of, py_div. destruct (Qeq_bool step 0) eqn:E; [discriminate|].
  simpl. intros H; inversion H; subst. split; [|reflexivity].
  now apply Qeq_bool_neq.
Qed.

Section ShapeOfRaster.

Variables (pop_dim_ids : PopDimIds) (sim_time window step start_time : Q).

Lemma fr_window_step_raster_shape (raster : Raster) (ret : InstantFr) :
  fr_window_step_raster pop_dim_ids sim_time window step start_time raster = Ok ret ->
  raster_shape_inv pop_dim_ids sim_time step start_time raster ret.
Proof.
  unfold fr_window_step_raster, raster_shape_inv. intros H.
  inv_bind H. destruct a as [first_id last_id]. cbv zeta in H.
  inv_bind H. rename a into elem_len.
  inv_bind H. rename a into firing0.
  inv_bind H. rename a into firing.
  inv_bind H. rename a into ts.
  inversion H; subst; clear H. cbn [instant_fr if_times name].
  exists first_id, last_id. split; [assumption|].
  apply elem_len_of_inv in Hm0 as [Hstep Hlen].
  apply np_zeros_shape in Hm1 as (Hr & Hc & Hnr & Hnc & Hshape & _).
  apply firing_shape in Hm2 as [[S1 S2] S3].
  apply np_linspace_arith in Hm3 as (_ & Hl & Hnth).
  rewrite <- Hlen.
  split; [cbn [arr2_map nrows]; rewrite S1, Hnr; lia|].
  split; [cbn [arr2_map ncols]; rewrite S2, Hnc; lia|].
  split; [apply arr2_map_shape_ok; auto|].
  split; [rewrite Hl; lia|].
  split; [|reflexivity].
  intros i Hi. apply Hnth. lia.
Qed.

End ShapeOfRaster.

(** C9: every dictionary returned by [fr_window_step] has the shape of its
    raster: ['instant_fr'] has [pop_dim = last id - first id + 1] rows and
    [int((sim_time - start_time)/step) + 1] columns (the rows really have
    that many entries), and ['times'] has as many entries as there are
    columns, entry [i] being [start_time + i*step]. *)
Theorem fr_window_step_shape :
  forall (raster_list : list Raster) (pop_dim_ids : PopDimIds)
         (sim_time window step start_time : Q) (ret_list : list InstantFr),
    fr_window_step raster_list pop_dim_ids sim_time window step start_time
      = Ok ret_list ->
    Forall2 (raster_shape_inv pop_dim_ids sim_time step start_time)
            raster_list ret_list.
Proof.
  intros raster_list pop_dim_ids sim_time window step start_time ret_list H.
  apply mapM_Forall2 in H.
  induction H as [|raster ret l l' Hx _ IH]; constructor; [|exact IH].
  now apply fr_window_step_raster_shape with (window := window).
Qed.

Lemma fr_window_step_shape_witness :
  let raster_list := [mkRaster "GR" [10; 0; 3] [1; 2; 1]%Z] in
  let pop_dim_ids := [("GR"%string, (1, 2)%Z)] in
  exists ret_list,
    fr_window_step raster_list pop_dim_ids 20 10 5 0 = Ok ret_list /\
    Forall2 (raster_shape_inv pop_dim_ids 20 5 0) raster_list ret_list.
Proof.
  intros raster_list pop_dim_ids.
  destruct (fr_window_step raster_list pop_dim_ids 20 10 5 0) as [ret_list|e] eqn:E;
    [|vm_compute in E; discriminate].
  exists ret_list. split; [reflexivity|].
  exact (fr_window_step_shape raster_list pop_dim_ids 20 10 5 0 ret_list E).
Defined.

(** ** [int()] on rationals *)

Lemma py_int_nonneg (q : Q) : 0 <= q -> py_int q = Qfloor q.
Proof.
  destruct q as [n d]. unfold Qle, py_int, Qfloor; simpl. intros H.
  apply Z.quot_div_nonneg; lia.
Qed.

Lemma py_int_nonpos (q : Q) : q <= 0 -> py_int q = Qceiling q.
Proof.
  destruct q as [n d]. unfold Qle, py_int, Qceiling, Qfloor; simpl. intros H.
  replace n with (- - n)%Z at 1 by lia.
  rewrite Z.quot_opp_l by lia. f_equal.
  apply Z.quot_div_nonneg; lia.
Qed.

Lemma Qfloor_ge (z : Z) (q : Q) : inject_Z z <= q -> (z <= Qfloor q)%Z.
Proof.
  intros H. apply Qfloor_resp_le in H. now rewrite Qfloor_Z in H.
Qed.

Lemma Qceiling_le (z : Z) (q : Q) : q <= inject_Z z -> (Qceiling q <= z)%Z.
Proof.
  intros H. apply Qceiling_resp_le in H. now rewrite Qceiling_Z in H.
Qed.

Lemma Qceiling_gt (z : Z) (q : Q) : inject_Z z < q -> (z < Qceiling q)%Z.
Proof.
  intros H. rewrite Zlt_Qlt.
  eapply Qlt_le_trans; [exact H | apply Qle_ceiling].
Qed.

Lemma inject_Z_succ (z : Z) : inject_Z (z + 1) == inject_Z z + 1.
Proof. rewrite inject_Z_plus. reflexivity. Qed.

Ltac inj_consts :=
  change (inject_Z 0) with 0 in *;
  change (inject_Z 1) with 1 in *;
  change (inject_Z (-1)) with (-1) in *.

(** ** [fr_window_step]: the bins of one spike *)

Lemma spike_windows_inv (window step start_time time : Q) (L h : Z) :
  spike_windows window step start_time time = Ok (L, h) ->
  ~ step == 0 /\
  L = py_int ((time - start_time + window / 2) / step) /\
  h = py_int ((window
               - (time - (start_time + inject_Z L * step - window / 2))) / step).
Proof.
  unfold spike_windows, py_div. destruct (Qeq_bool step 0) eqn:E; [discriminate|].
  simpl. intros H; inversion H; subst. split; [now apply Qeq_bool_neq|].
  split; reflexivity.
Qed.

(** Over exact quotients the number of windows before the last one is
    never negative, for positive [window] and [step]. *)
Lemma how_many_wind_before_nonneg (window step start_time time : Q) (L h : Z) :
  0 < window -> 0 < step ->
  spike_windows window step start_time time = Ok (L, h) ->
  (0 <= h)%Z.
Proof.
  intros Hw Hs H. apply spike_windows_inv in H as (Hs0 & HL & Hh).
  set (X := (time - start_time + window / 2) / step) in *.
  set (Y := (window - (time - (start_time + inject_Z L * step - window / 2))) / step) in *.
  set (a := window / step).
  assert (HY : Y == a - X + inject_Z L) by (unfold Y, a, X; field; exact Hs0).
  assert (Ha : 0 < a).
  { unfold a. apply Qlt_shift_div_l; [assumption|]. lra. }
  clearbody X Y a.
  destruct (Qlt_le_dec X 0) as [HX | HX].
  - (* the spike lies before the first window *)
    assert (HL' : L = Qceiling X) by (rewrite HL; apply py_int_nonpos; lra).
    pose proof (Qle_ceiling X) as C1. rewrite <- HL' in C1.
    assert (HY0 : 0 <= Y) by lra.
    assert (Hh' : h = Qfloor Y) by (rewrite Hh; now apply py_int_nonneg).
    rewrite Hh'. apply Qfloor_ge. inj_consts. lra.
  - assert (HL' : L = Qfloor X) by (rewrite HL; now apply py_int_nonneg).
    pose proof (Qlt_floor X) as F2.
    rewrite inject_Z_succ in F2. rewrite <- HL' in F2.
    destruct (Qlt_le_dec Y 0) as [HY0 | HY0].
    + (* [window < step]: the quotient is truncated to 0 *)
      assert (Hh' : h = Qceiling Y) by (rewrite Hh; apply py_int_nonpos; lra).
      assert (-1 < h)%Z by (rewrite Hh'; apply Qceiling_gt; inj_consts; lra).
      lia.
    + assert (Hh' : h = Qfloor Y) by (rewrite Hh; now apply py_int_nonneg).
      rewrite Hh'. apply Qfloor_ge. inj_consts. lra.
Qed.

Lemma spike_elems_length (L h : Z) :
  length (spike_elems (L, h)) = Z.to_nat (h + 1).
Proof. unfold spike_elems. now rewrite length_map, py_range_length. Qed.

Lemma spike_bins_all (elem_len L h : Z) :
  (0 <= L - h)%Z -> (L < elem_len)%Z ->
  spike_bins elem_len (L, h) = spike_elems (L, h).
Proof.
  intros H1 H2. unfold spike_bins. apply forallb_filter_id.
  apply forallb_forall. intros e He. unfold spike_elems in He; simpl in He.
  apply in_map_iff in He as (j & <- & Hj). apply py_range_In in Hj.
  unfold in_range. apply andb_true_iff. lia.
Qed.

Lemma list_update_nth_same {A : Type} (n : nat) (f : A -> A) (l : list A) (d : A) :
  (n < length l)%nat -> nth n (list_update n f l) d = f (nth n l d).
Proof.
  revert n; induction l as [|x l IH]; intros [|n] Hn; simpl in *; try lia; auto.
  apply IH. lia.
Qed.

(** One increment adds one to one entry and leaves the others. *)
Lemma arr2_incr_entry (m : ndarray2 Z) (i j : Z) (r : nat) :
  shape_ok m ->
  np_index (nrows m) i = Ok r ->
  (0 <= j < Z.of_nat (ncols m))%Z ->
  exists m', arr2_incr m i j = Ok m' /\
    forall r' c, entry m' r' c =
      (entry m r' c + if ((r' =? r)%nat && (Z.of_nat c =? j)%Z) then 1 else 0)%Z.
Proof.
  intros [Hr Hc] Hi Hj. unfold arr2_incr. rewrite Hi. simpl.
  rewrite (np_index_in_range _ _ Hj). simpl. eexists; split; [reflexivity|].
  intros r' c. unfold entry; simpl.
  apply np_index_inv in Hi as [Hlt _].
  destruct (Nat.eqb_spec r' r) as [->|Hne]; simpl.
  - rewrite (list_update_nth_same r _ (rows m) []) by lia.
    assert (Hlen : length (nth r (rows m) []) = ncols m).
    { rewrite Forall_forall in Hc. apply Hc. apply nth_In. lia. }
    destruct (Z.eqb_spec (Z.of_nat c) j) as [E|E].
    + replace (Z.to_nat j) with c by lia.
      rewrite list_update_nth_same by lia. reflexivity.
    + rewrite list_update_nth_other by lia. lia.
  - rewrite list_update_nth_other by auto. lia.
Qed.

(** The increments of one spike: every column of [cols] receives one count
    per occurrence, in the row of the spike. *)
Lemma incr_cols_entry (index : Z) (r : nat) (cols : list Z) :
  forall m : ndarray2 Z,
    shape_ok m ->
    np_index (nrows m) index = Ok r ->
    Forall (fun j => (0 <= j < Z.of_nat (ncols m))%Z) cols ->
    exists m', foldM (fun f elem => arr2_incr f index elem) cols m = Ok m' /\
      forall r' c, entry m' r' c =
        (entry m r' c
         + if (r' =? r)%nat then Z.of_nat (count_occ Z.eq_dec cols (Z.of_nat c)) else 0)%Z.
Proof.
  induction cols as [|j cols IH]; intros m Hshape Hi Hcols.
  - exists m. split; [reflexivity|]. intros r' c. simpl.
    destruct (r' =? r)%nat; lia.
  - inversion Hcols as [|? ? Hj Hrest]; subst.
    destruct (arr2_incr_entry m index j r Hshape Hi Hj) as (m1 & E1 & Hent1).
    pose proof (arr2_incr_shape _ _ _ _ E1) as [[S1 S2] S3].
    destruct (IH m1 (S3 Hshape)) as (m' & E' & Hent').
    + now rewrite S1.
    + now rewrite S2.
    + exists m'. split; [simpl; rewrite E1; exact E'|].
      intros r' c. rewrite Hent', Hent1. simpl count_occ.
      destruct (Nat.eqb_spec r' r); simpl; [|lia].
      destruct (Z.eq_dec j (Z.of_nat c)) as [->|Hne].
      * rewrite Z.eqb_refl. lia.
      * destruct (Z.eqb_spec (Z.of_nat c) j); [congruence|lia].
Qed.

Lemma spike_elems_NoDup (L h : Z) : NoDup (spike_elems (L, h)).
Proof.
  unfold spike_elems, py_range; simpl. rewrite map_map.
  apply Injective_map_NoDup; [|apply seq_NoDup].
  intros x y Hxy. lia.
Qed.

Lemma spike_elems_In (L h e : Z) :
  In e (spike_elems (L, h)) <-> (L - h <= e <= L)%Z.
Proof.
  unfold spike_elems; simpl. rewrite in_map_iff. split.
  - intros (j & <- & Hj). apply py_range_In in Hj. lia.
  - intros He. exists (L - e)%Z. split; [lia|]. apply py_range_In. lia.
Qed.

Lemma spike_elems_count (L h : Z) (c : nat) :
  Z.of_nat (count_occ Z.eq_dec (spike_elems (L, h)) (Z.of_nat c))
  = if bin_between (L - h) L c then 1%Z else 0%Z.
Proof.
  unfold bin_between.
  pose proof (proj1 (NoDup_count_occ Z.eq_dec _) (spike_elems_NoDup L h) (Z.of_nat c)) as H1.
  pose proof (count_occ_In Z.eq_dec (spike_elems (L, h)) (Z.of_nat c)) as H2.
  rewrite spike_elems_In in H2.
  destruct ((L - h <=? Z.of_nat c) && (Z.of_nat c <=? L))%Z eqn:E.
  - apply andb_true_iff in E as [E1 E2].
    assert (count_occ Z.eq_dec (spike_elems (L, h)) (Z.of_nat c) > 0)%nat
      by (apply H2; lia).
    lia.
  - assert (~ (count_occ Z.eq_dec (spike_elems (L, h)) (Z.of_nat c) > 0)%nat).
    { intros H. apply H2 in H. apply andb_false_iff in E. lia. }
    lia.
Qed.

(** C1, as the code has it: a spike whose bins [L - h .. L] all lie
    within bounds ([L] the last window index of line 225, [h] the number
    of windows before it of line 227) is counted once in each of these
    [h + 1] consecutive bins of its row of the firing matrix and nowhere
    else.  The number of bins is that of line 227, whatever its relation
    to [window/step]. *)
Theorem spike_counted_in_consecutive_bins :
  forall (window step start_time time : Q) (elem_len L h index : Z)
         (firing : ndarray2 Z) (r : nat),
    spike_windows window step start_time time = Ok (L, h) ->
    (0 <= L - h)%Z -> (L < elem_len)%Z ->
    shape_ok firing -> Z.of_nat (ncols firing) = elem_len ->
    np_index (nrows firing) index = Ok r ->
    spike_bins elem_len (L, h) = map (fun j => (L - j)%Z) (py_range (h + 1)) /\
    length (spike_bins elem_len (L, h)) = Z.to_nat (h + 1) /\
    exists firing',
      spike_step window step start_time elem_len firing (index, time) = Ok firing' /\
      forall r' c,
        entry firing' r' c =
        (entry firing r' c
         + if (r' =? r)%nat && bin_between (L - h) L c then 1 else 0)%Z.
Proof.
  intros window step start_time time elem_len L h index firing r
         Hsw Hlo Hhi Hshape Hcols Hidx.
  pose proof (spike_bins_all elem_len L h Hlo Hhi) as Hall.
  split; [exact Hall|].
  split; [rewrite Hall; apply spike_elems_length|].
  destruct (incr_cols_entry index r (spike_elems (L, h)) firing Hshape Hidx)
    as (firing' & Hfold & Hent).
  { apply Forall_forall. intros e He. apply spike_elems_In in He. lia. }
  exists firing'. split.
  - rewrite spike_step_bins, Hsw. simpl bind.
    rewrite Hall. exact Hfold.
  - intros r' c. rewrite Hent. destruct (r' =? r)%nat; simpl; [|reflexivity].
    now rewrite spike_elems_count.
Qed.

Lemma spike_counted_in_consecutive_bins_witness :
  let firing := mkArr2 1 21 [repeat 0%Z 21] in
  exists firing',
    spike_step 7 5 0 21%Z firing (0%Z, 10) = Ok firing' /\
    forall r' c,
      entry firing' r' c =
      (entry firing r' c + if (r' =? 0)%nat && bin_between 2 2 c then 1 else 0)%Z.
Proof.
  intros firing.
  refine (proj2 (proj2
    (spike_counted_in_consecutive_bins 7 5 0 10 21 2 0 0 firing 0
       _ _ _ _ _ _))); try reflexivity; try lia.
  split; [reflexivity|]. repeat constructor.
Defined.

(** C1, as it is worded, fails: with [window = 10] and [step = 5] a spike
    at time [10] (bins from [start_time = 0] to [sim_time = 100]) is
    counted in the three bins [1, 2, 3], all within bounds, while
    [ceil(window/step) = 2]; with [window = 7] a spike at the same time is
    counted in one bin, while [ceil(window/step) = 2]. *)
Lemma spike_count_not_ceiling :
  elem_len_of 100 5 0 = Ok 21%Z /\
  spike_windows 10 5 0 10 = Ok (3, 2)%Z /\
  spike_bins 21 (3, 2)%Z = [3; 2; 1]%Z /\
  Z.of_nat (length (spike_bins 21 (3, 2)%Z)) <> Qceiling (10 / 5) /\
  spike_windows 7 5 0 10 = Ok (2, 0)%Z /\
  spike_bins 21 (2, 0)%Z = [2]%Z /\
  Z.of_nat (length (spike_bins 21 (2, 0)%Z)) <> Qceiling (7 / 5) /\
  (exists ret,
     fr_window_step [mkRaster "GR" [10] [1%Z]] [("GR"%string, (1, 1)%Z)] 100 10 5 0
     = Ok [ret] /\
     map (map (fltb (Fin 0))) (rows (instant_fr ret))
     = [[false; true; true; true] ++ repeat false 17]).
Proof.
  repeat split; try reflexivity; try (vm_compute; discriminate).
  eexists. split; vm_compute; reflexivity.
Qed.

(** ** A silent neuron in [fr_window_step] *)

Lemma arr2_incr_other_row (m m' : ndarray2 Z) (i j : Z) (r : nat) :
  arr2_incr m i j = Ok m' ->
  np_index (nrows m) i <> Ok r ->
  nth r (rows m') [] = nth r (rows m) [].
Proof.
  unfold arr2_incr. intros H Hr. inv_bind H. inv_bind H.
  inversion H; subst; clear H. simpl.
  apply list_update_nth_other. intros ->. now apply Hr.
Qed.

Lemma incr_cols_other_row (i : Z) (r : nat) (cols : list Z) :
  forall m m' : ndarray2 Z,
    foldM (fun f elem => arr2_incr f i elem) cols m = Ok m' ->
    np_index (nrows m) i <> Ok r ->
    nrows m' = nrows m /\ nth r (rows m') [] = nth r (rows m) [].
Proof.
  induction cols as [|j cols IH]; intros m m' H Hr; simpl in H.
  - inversion H; subst; auto.
  - inv_bind H.
    pose proof (arr2_incr_other_row _ _ _ _ _ Hm Hr) as E.
    apply arr2_incr_shape in Hm as [[S1 _] _].
    apply IH in H as [T1 T2]; [|now rewrite S1].
    split; congruence.
Qed.

Lemma firing_silent_row (window step start_time : Q) (elem_len : Z) (r : nat)
  (spikes : list (Z * Q)) :
  forall m m' : ndarray2 Z,
    foldM (spike_step window step start_time elem_len) spikes m = Ok m' ->
    (forall it, In it spikes -> np_index (nrows m) (fst it) <> Ok r) ->
    nth r (rows m') [] = nth r (rows m) [].
Proof.
  induction spikes as [|it l IH]; intros m m' H Hr; simpl in H.
  - inversion H; subst; auto.
  - inv_bind H. destruct it as [index time].
    rewrite spike_step_bins in Hm. inv_bind Hm.
    apply incr_cols_other_row with (r := r) in Hm as [S1 S2];
      [|apply (Hr (index, time)); now left].
    rewrite <- S2. apply IH; [assumption|].
    intros it' Hit'. rewrite S1. apply Hr. now right.
Qed.

Lemma mapM_nth_error {A B : Type} (f : A -> result B) (xs : list A) (ys : list B)
  (k : nat) (x : A) (y : B) :
  mapM f xs = Ok ys ->
  nth_error xs k = Some x -> nth_error ys k = Some y -> f x = Ok y.
Proof.
  intros H. apply mapM_Forall2 in H. revert k.
  induction H as [|x0 y0 l l' Hxy _ IH]; intros [|k] Hx Hy; simpl in *;
    try discriminate.
  - inversion Hx; inversion Hy; subst; assumption.
  - eapply IH; eassumption.
Qed.

Lemma zero_count_rate (window : Q) :
  ~ window == 0 -> feq (fdiv (Fin (inject_Z 0)) (Fin (window / 1000))) (Fin 0).
Proof.
  intros Hw. simpl.
  destruct (Qeq_bool (window / 1000) 0) eqn:E.
  - exfalso. apply Qeq_bool_eq in E. apply Hw.
    setoid_replace window with (window / 1000 * 1000) by field.
    rewrite E. ring.
  - simpl. field. exact Hw.
Qed.

Lemma silent_row_zero (pop_dim_ids : PopDimIds) (sim_time window step start_time : Q)
  (raster : Raster) (ret : InstantFr) (first_id last_id : Z) (r : nat) :
  fr_window_step_raster pop_dim_ids sim_time window step start_time raster = Ok ret ->
  dict_get pop_dim_ids (compartment_name raster) = Ok (first_id, last_id) ->
  ~ window == 0 ->
  (r < nrows (instant_fr ret))%nat ->
  silent_row first_id (nrows (instant_fr ret)) raster r ->
  forall c, (c < ncols (instant_fr ret))%nat ->
            feq (nth c (nth r (rows (instant_fr ret)) []) NaN) (Fin 0).
Proof.
  unfold fr_window_step_raster. intros H Hd Hw Hr Hsil c Hc.
  rewrite Hd in H. simpl bind in H.
  inv_bind H. rename a into elem_len.
  inv_bind H. rename a into firing0.
  inv_bind H. rename a into firing.
  inv_bind H. inversion H; subst; clear H.
  cbn [instant_fr arr2_map rows nrows ncols] in *.
  pose proof (np_zeros_shape _ _ _ Hm0) as (_ & _ & Hnr & Hnc & Hsh0 & _).
  pose proof (firing_shape _ _ _ _ _ _ _ Hm1) as [[S1 S2] S3].
  destruct (S3 Hsh0) as [Hlen _].
  assert (Hrow : nth r (rows firing) [] = nth r (rows firing0) []).
  { eapply firing_silent_row; [exact Hm1|].
    intros [i t] Hit. simpl. apply in_combine_l in Hit.
    apply in_map_iff in Hit as (id & <- & Hid).
    rewrite <- S1. now apply Hsil. }
  assert (Hzero : nth r (rows firing0) [] = repeat 0%Z (ncols firing)).
  { unfold np_zeros in *.
    destruct ((last_id - first_id + 1 <? 0) || (elem_len <? 0))%Z; [discriminate|].
    inversion Hm0; subst; simpl in *.
    rewrite nth_repeat_lt by lia. congruence. }
  set (f := fun c0 : Z => fdiv (Fin (inject_Z c0)) (Fin (window / 1000))).
  rewrite (nth_indep _ [] (map f [])) by (rewrite length_map; lia).
  rewrite map_nth, Hrow, Hzero.
  rewrite (nth_indep _ NaN (f 0%Z)) by (now rewrite length_map, repeat_length).
  rewrite map_nth, nth_repeat. subst f. now apply zero_count_rate.
Qed.

(** ** [calculate_fr] *)

Lemma Forall2_nth_error {A B : Type} (P : A -> B -> Prop) (xs : list A) (ys : list B) :
  Forall2 P xs ys ->
  forall k x, nth_error xs k = Some x -> exists y, nth_error ys k = Some y /\ P x y.
Proof.
  induction 1 as [|x0 y0 l l' Hxy _ IH]; intros [|k] x Hx; simpl in *;
    try discriminate.
  - inversion Hx; subst. eauto.
  - eauto.
Qed.

Section CalculateFrFacts.

Variable np_sqrt : npfloat -> npfloat.
Variables (pop_dim_ids : PopDimIds) (t_start : Q) (t_end : option Q).

Lemma calculate_fr_fold (return_CV_name : bool) (raster_list : list Raster) :
  forall acc res,
    foldM (calculate_fr_step np_sqrt pop_dim_ids t_start t_end return_CV_name)
          raster_list acc = Ok res ->
    exists frs,
      fr_list res = fr_list acc ++ frs /\ Forall2 (fr_of_raster pop_dim_ids t_start t_end) raster_list frs /\
      (return_CV_name = true ->
       exists cvs, CV_list res = CV_list acc ++ cvs /\
                   Forall2 (CV_of_raster np_sqrt pop_dim_ids t_start t_end) raster_list cvs).
Proof.
  induction raster_list as [|raster l IH]; intros acc res H; simpl in H.
  - inversion H; subst. exists []. rewrite app_nil_r. split; [reflexivity|].
    split; [constructor|]. intros _. exists []. rewrite app_nil_r.
    split; [reflexivity|constructor].
  - inv_bind H. unfold calculate_fr_step in Hm. inv_bind Hm.
    rename a0 into ISI_list.
    destruct return_CV_name; inversion Hm; subst; clear Hm;
      apply IH in H as (frs & E1 & F1 & HCV); cbn [fr_list CV_list] in *.
    + eexists (_ :: frs). split; [rewrite E1, <- app_assoc; reflexivity|].
      split; [constructor; [exists ISI_list; auto | exact F1]|].
      intros _. destruct (HCV eq_refl) as (cvs & E2 & F2).
      eexists (_ :: cvs). split; [rewrite E2, <- app_assoc; reflexivity|].
      constructor; [exists ISI_list; auto | exact F2].
    + eexists (_ :: frs). split; [rewrite E1, <- app_assoc; reflexivity|].
      split; [constructor; [exists ISI_list; auto | exact F1]|].
      discriminate.
Qed.

Lemma calculate_fr_nth (return_CV_name : bool) (raster_list : list Raster)
  (res : FrLists) (k : nat) (raster : Raster) :
  calculate_fr np_sqrt raster_list pop_dim_ids t_start t_end return_CV_name = Ok res ->
  nth_error raster_list k = Some raster ->
  exists ISI_list,
    ISI_of_raster pop_dim_ids t_start t_end raster = Ok ISI_list /\
    nth_error (fr_list res) k
    = Some (np_round2 (np_mean (map inv_mean_ISI_el ISI_list))) /\
    (return_CV_name = true ->
     nth_error (CV_list res) k
     = Some (np_round2 (np_mean (map (CV_el_of np_sqrt) ISI_list)))).
Proof.
  unfold calculate_fr. intros H Hk.
  apply calculate_fr_fold in H as (frs & E1 & F1 & HCV). simpl in E1.
  destruct (Forall2_nth_error _ _ _ F1 k raster Hk) as (fr & Hfr & ISI_list & HI & ->).
  exists ISI_list. split; [assumption|]. split; [now rewrite E1|].
  intros Hflag. destruct (HCV Hflag) as (cvs & E2 & F2). simpl in E2.
  destruct (Forall2_nth_error _ _ _ F2 k raster Hk) as (cv & Hcv & ISI' & HI' & ->).
  rewrite E2, Hcv. congruence.
Qed.

(** Spikes outside the window leave the loop state as it is. *)
Lemma isi_fold_no_spike (spikes : list (Q * Z)) (st : list Q * list (list Q)) :
  (forall it, In it spikes ->
              after_start t_start (fst it) && before_end t_end (fst it) = false) ->
  foldM (isi_step t_start t_end) spikes st = Ok st.
Proof.
  induction spikes as [|[tt_ idx] l IH]; intros H; simpl; [reflexivity|].
  assert (E : isi_step t_start t_end st (tt_, idx) = Ok st).
  { specialize (H (tt_, idx) (or_introl eq_refl)). simpl in H.
    unfold isi_step. destruct st as [t_prev ISI_list].
    destruct (after_start t_start tt_); [|reflexivity].
    simpl in H. now rewrite H. }
  rewrite E. simpl. apply IH. intros it Hit. apply H. now right.
Qed.

Lemma ISI_of_raster_no_spike (raster : Raster) (first_id last_id : Z) :
  dict_get pop_dim_ids (compartment_name raster) = Ok (first_id, last_id) ->
  (first_id <= last_id)%Z ->
  no_spike_in_window t_start t_end raster ->
  ISI_of_raster pop_dim_ids t_start t_end raster
  = Ok (repeat [] (Z.to_nat (last_id - first_id + 1))).
Proof.
  intros Hd Hle Hno. unfold ISI_of_raster. rewrite Hd. simpl bind.
  replace (last_id - first_id + 1 <? 0)%Z with false by (symmetry; apply Z.ltb_ge; lia).
  simpl bind. rewrite isi_fold_no_spike; [reflexivity|].
  intros [tt_ idx] Hit. apply in_combine_l in Hit. now apply Hno.
Qed.

End CalculateFrFacts.

Lemma fsum_zeros (n : nat) (a : Q) :
  a == 0 -> exists b, fold_left fadd (repeat (Fin 0) n) (Fin a) = Fin b /\ b == 0.
Proof.
  revert a; induction n as [|n IH]; intros a Ha; simpl.
  - exists a. auto.
  - apply IH. rewrite Ha. reflexivity.
Qed.

Lemma np_mean_zeros (n : nat) :
  (0 < n)%nat -> exists b, np_mean (repeat (Fin 0) n) = Fin b /\ b == 0.
Proof.
  intros Hn. unfold np_mean, fsum.
  destruct (fsum_zeros n 0 (Qeq_refl 0)) as (b & -> & Hb).
  rewrite repeat_length. simpl.
  destruct (Qeq_bool (inject_Z (Z.of_nat n)) 0) eqn:E.
  - apply Qeq_bool_eq in E. exfalso. revert E. apply inject_Z_nonzero. lia.
  - eexists; split; [reflexivity|]. rewrite Hb. field.
    apply inject_Z_nonzero. lia.
Qed.

Lemma rint_zero (q : Q) : q == 0 -> rint q = 0%Z.
Proof.
  intros Hq. unfold rint.
  assert (E0 : Qfloor q = 0%Z) by (rewrite Hq; reflexivity).
  rewrite E0.
  assert (E : Qcompare (q - inject_Z 0) (1 # 2) = Lt)
    by (apply (proj1 (Qlt_alt _ _)); inj_consts; lra).
  now rewrite E.
Qed.

Lemma np_round2_zero (q : Q) : q == 0 -> feq (np_round2 (Fin q)) (Fin 0).
Proof.
  intros Hq. simpl. rewrite rint_zero by (rewrite Hq; reflexivity). reflexivity.
Qed.

(** C6: a population with no spike in the analysed window has firing rate
    0 in [calculate_fr] (the population has at least one neuron, that is
    [first id <= last id]), and in the rate matrix of [fr_window_step]
    every entry of the row of a neuron with no spike is 0 (the window
    length is not zero). *)
Theorem zero_spikes_zero_rate :
  (forall (np_sqrt : npfloat -> npfloat) (raster_list : list Raster)
          (pop_dim_ids : PopDimIds) (t_start : Q) (t_end : option Q)
          (return_CV_name : bool) (res : FrLists) (k : nat) (raster : Raster)
          (first_id last_id : Z),
      calculate_fr np_sqrt raster_list pop_dim_ids t_start t_end return_CV_name
        = Ok res ->
      nth_error raster_list k = Some raster ->
      dict_get pop_dim_ids (compartment_name raster) = Ok (first_id, last_id) ->
      (first_id <= last_id)%Z ->
      no_spike_in_window t_start t_end raster ->
      exists fr, nth_error (fr_list res) k = Some fr /\ feq fr (Fin 0))
  /\
  (forall (raster_list : list Raster) (pop_dim_ids : PopDimIds)
          (sim_time window step start_time : Q) (ret_list : list InstantFr)
          (k : nat) (raster : Raster) (ret : InstantFr)
          (first_id last_id : Z) (r : nat),
      fr_window_step raster_list pop_dim_ids sim_time window step start_time
        = Ok ret_list ->
      nth_error raster_list k = Some raster ->
      nth_error ret_list k = Some ret ->
      dict_get pop_dim_ids (compartment_name raster) = Ok (first_id, last_id) ->
      ~ window == 0 ->
      (r < nrows (instant_fr ret))%nat ->
      silent_row first_id (nrows (instant_fr ret)) raster r ->
      forall c, (c < ncols (instant_fr ret))%nat ->
                feq (nth c (nth r (rows (instant_fr ret)) []) NaN) (Fin 0)).
Proof.
  split.
  - intros np_sqrt raster_list pop_dim_ids t_start t_end flag res k raster
           first_id last_id Hres Hk Hd Hle Hno.
    destruct (calculate_fr_nth _ _ _ _ _ _ _ _ _ Hres Hk) as (ISI_list & HI & Hfr & _).
    rewrite (ISI_of_raster_no_spike _ _ _ _ _ _ Hd Hle Hno) in HI.
    inversion HI; subst ISI_list; clear HI.
    rewrite map_repeat in Hfr. change (inv_mean_ISI_el []) with (Fin 0) in Hfr.
    destruct (np_mean_zeros (Z.to_nat (last_id - first_id + 1))) as (b & Eb & Hb);
      [lia|].
    rewrite Eb in Hfr. eexists. split; [exact Hfr|]. now apply np_round2_zero.
  - intros raster_list pop_dim_ids sim_time window step start_time ret_list
           k raster ret first_id last_id r Hres Hk Hk' Hd Hw Hr Hsil c Hc.
    pose proof (mapM_nth_error _ _ _ _ _ _ Hres Hk Hk') as Hret.
    eapply silent_row_zero; eassumption.
Qed.

Lemma zero_spikes_zero_rate_witness :
  let pop_dim_ids := [("GR"%string, (1, 2)%Z)] in
  let quiet := mkRaster "GR" [5; 7] [1; 2]%Z in
  let raster := mkRaster "GR" [10; 0; 3] [1; 1; 1]%Z in
  (exists res fr,
     calculate_fr (fun x => x) [quiet; quiet] pop_dim_ids 10 None false = Ok res /\
     nth_error (fr_list res) 0 = Some fr /\ feq fr (Fin 0)) /\
  (exists ret,
     fr_window_step [raster] pop_dim_ids 20 10 5 0 = Ok [ret] /\
     forall c, (c < ncols (instant_fr ret))%nat ->
               feq (nth c (nth 1 (rows (instant_fr ret)) []) NaN) (Fin 0)).
Proof.
  intros pop_dim_ids quiet raster. split.
  - destruct (calculate_fr (fun x => x) [quiet; quiet] pop_dim_ids 10 None false)
      as [res|e] eqn:E; [|vm_compute in E; discriminate].
    exists res.
    destruct (proj1 zero_spikes_zero_rate (fun x => x) [quiet; quiet] pop_dim_ids
                10 None false res 0%nat quiet 1%Z 2%Z E) as (fr & Hfr & H0);
      try reflexivity; try lia.
    + intros tt_ [<-|[<-|[]]]; reflexivity.
    + exists fr. auto.
  - destruct (fr_window_step [raster] pop_dim_ids 20 10 5 0)
      as [[|ret [|]]|e] eqn:E; try (vm_compute in E; discriminate).
    exists ret. split; [reflexivity|].
    assert (Hn : nrows (instant_fr ret) = 2%nat)
      by (vm_compute in E; inversion E; reflexivity).
    apply (proj2 zero_spikes_zero_rate [raster] pop_dim_ids 20 10 5 0 [ret]
             0%nat raster ret 1%Z 2%Z 1%nat E); try reflexivity.
    + intros H; discriminate H.
    + rewrite Hn. lia.
    + rewrite Hn. intros id [<-|[<-|[<-|[]]]]; vm_compute; discriminate.
Defined.

(** ** [fitness_function] *)

Lemma broadcast2_same_length {A B C : Type} (f : A -> B -> C) (xs : list A) (ys : list B) :
  length xs = length ys -> broadcast2 f xs ys = Ok (map2 f xs ys).
Proof.
  intros H. unfold broadcast2. now rewrite H, Nat.eqb_refl.
Qed.

Lemma map2_length {A B C : Type} (f : A -> B -> C) (xs : list A) (ys : list B) :
  length xs = length ys -> length (map2 f xs ys) = length xs.
Proof.
  revert ys; induction xs as [|x xs IH]; intros [|y ys] H; simpl in *;
    try discriminate; auto.
Qed.

Lemma Qsum_from (xs : list Q) (a : Q) : fold_left Qplus xs a == a + Qsum xs.
Proof.
  unfold Qsum. revert a. induction xs as [|x xs IH]; intros a; simpl.
  - ring.
  - rewrite (IH (a + x)), (IH (0 + x)). ring.
Qed.

Lemma Qsum_cons (x : Q) (xs : list Q) : Qsum (x :: xs) == x + Qsum xs.
Proof.
  unfold Qsum at 1. simpl. rewrite Qsum_from. ring.
Qed.

Lemma Qsum_weighted (fr fr_target w : list Q) :
  length fr = length fr_target -> length w = length fr ->
  Qsum (map (fun d => d ^ 2) (map2 Qmult (map2 Qminus fr fr_target) w))
  == weighted_sq_dev fr fr_target w.
Proof.
  revert fr_target w.
  induction fr as [|f fr IH]; intros [|t tg] [|wi w] H1 H2; simpl in *;
    try discriminate; try reflexivity.
  rewrite Qsum_cons, IH by congruence. ring.
Qed.

Lemma Qsum_unweighted (fr fr_target : list Q) :
  length fr = length fr_target ->
  Qsum (map (fun d => d ^ 2) (map2 Qminus fr fr_target)) == sq_dev fr fr_target.
Proof.
  revert fr_target.
  induction fr as [|f fr IH]; intros [|t tg] H1; simpl in *;
    try discriminate; try reflexivity.
  rewrite Qsum_cons, IH by congruence. ring.
Qed.

Section FitnessFacts.

Variable MassFr : Type.
Variable wavelet_conv : MassFr -> Q -> Q * Q -> Q -> Q -> result Q.
Variables (mass_fr : MassFr) (T_sample : Q) (filter_range : Q * Q)
          (filter_sd t_start : Q).

Lemma fitness_function_spec (fr fr_target : list Q) (fr_weights : option (list Q))
  (conv : Q) :
  wavelet_conv mass_fr T_sample filter_range filter_sd t_start = Ok conv ->
  length fr = length fr_target ->
  weights_fit fr fr_weights ->
  exists fitness,
    fitness_function MassFr wavelet_conv fr fr_target mass_fr T_sample
                     filter_range filter_sd t_start fr_weights = Ok fitness /\
    fitness == fitness_spec fr fr_target fr_weights conv.
Proof.
  intros Hc Hlen Hw. unfold fitness_function. rewrite Hc. simpl bind.
  rewrite broadcast2_same_length by assumption. simpl bind.
  destruct fr_weights as [w|]; simpl in Hw.
  - rewrite broadcast2_same_length by (rewrite map2_length; auto).
    simpl bind. eexists. split; [reflexivity|].
    unfold fitness_spec. now rewrite Qsum_weighted.
  - simpl bind. eexists. split; [reflexivity|].
    unfold fitness_spec. now rewrite Qsum_unweighted.
Qed.

End FitnessFacts.

(** C2: with the spectral term [conv] computed and one target (and one
    weight, when weights are given) per measured rate, [fitness_function]
    returns [-sum((fr_i - fr_target_i)^2 * weight_i^2) + conv/2], and the
    unweighted sum of squares when [fr_weights] is [None]. *)
Theorem fitness_function_formula :
  forall (MassFr : Type) (wavelet_conv : MassFr -> Q -> Q * Q -> Q -> Q -> result Q)
         (fr fr_target : list Q) (mass_fr : MassFr) (T_sample : Q)
         (filter_range : Q * Q) (filter_sd t_start : Q)
         (fr_weights : option (list Q)) (conv : Q),
    wavelet_conv mass_fr T_sample filter_range filter_sd t_start = Ok conv ->
    length fr = length fr_target ->
    weights_fit fr fr_weights ->
    exists fitness,
      fitness_function MassFr wavelet_conv fr fr_target mass_fr T_sample
                       filter_range filter_sd t_start fr_weights = Ok fitness /\
      fitness == fitness_spec fr fr_target fr_weights conv.
Proof.
  intros. now apply fitness_function_spec.
Qed.

Lemma fitness_function_formula_witness :
  exists fitness,
    fitness_function unit (fun _ _ _ _ _ => Ok 3) [1; 2] [0; 4] tt 1 (30, 50) 3 0
                     (Some [2; 1]) = Ok fitness /\
    fitness == fitness_spec [1; 2] [0; 4] (Some [2; 1]) 3.
Proof.
  apply (fitness_function_formula unit (fun _ _ _ _ _ => Ok 3) [1; 2] [0; 4] tt 1
           (30, 50) 3 0 (Some [2; 1]) 3); reflexivity.
Defined.

Lemma Qabs_le_sq (x y : Q) : Qabs y <= Qabs x -> y ^ 2 <= x ^ 2.
Proof.
  intros H.
  assert (Hx : x ^ 2 == Qabs x * Qabs x).
  { rewrite <- Qabs_Qmult. rewrite Qabs_pos; [simpl; ring|]. nra. }
  assert (Hy : y ^ 2 == Qabs y * Qabs y).
  { rewrite <- Qabs_Qmult. rewrite Qabs_pos; [simpl; ring|]. nra. }
  rewrite Hx, Hy. pose proof (Qabs_nonneg y). nra.
Qed.

Lemma weighted_sq_dev_swap (l2 : list Q) (a b : Q) (l1 tg w : list Q) :
  length tg = length (l1 ++ a :: l2) -> length w = length (l1 ++ a :: l2) ->
  weighted_sq_dev (l1 ++ a :: l2) tg w - weighted_sq_dev (l1 ++ b :: l2) tg w
  == ((a - nth (length l1) tg 0) * nth (length l1) w 0) ^ 2
     - ((b - nth (length l1) tg 0) * nth (length l1) w 0) ^ 2.
Proof.
  revert tg w. induction l1 as [|x l1 IH]; intros [|t tg] [|wi w] H1 H2;
    simpl in H1, H2; try discriminate.
  - simpl. ring.
  - cbn [app weighted_sq_dev length nth].
    specialize (IH tg w ltac:(congruence) ltac:(congruence)). lra.
Qed.

Lemma sq_dev_swap (l2 : list Q) (a b : Q) (l1 tg : list Q) :
  length tg = length (l1 ++ a :: l2) ->
  sq_dev (l1 ++ a :: l2) tg - sq_dev (l1 ++ b :: l2) tg
  == ((a - nth (length l1) tg 0) * 1) ^ 2 - ((b - nth (length l1) tg 0) * 1) ^ 2.
Proof.
  revert tg. induction l1 as [|x l1 IH]; intros [|t tg] H1;
    simpl in H1; try discriminate.
  - simpl. ring.
  - cbn [app sq_dev length nth].
    specialize (IH tg ltac:(congruence)). lra.
Qed.

(** C3: with the other inputs fixed, replacing one measured rate [b] by a
    rate [a] whose weighted absolute deviation from its target is at least
    as large does not increase the fitness. *)
Theorem fitness_function_monotone :
  forall (MassFr : Type) (wavelet_conv : MassFr -> Q -> Q * Q -> Q -> Q -> result Q)
         (l1 l2 : list Q) (a b : Q) (fr_target : list Q) (mass_fr : MassFr)
         (T_sample : Q) (filter_range : Q * Q) (filter_sd t_start : Q)
         (fr_weights : option (list Q)) (conv : Q),
    wavelet_conv mass_fr T_sample filter_range filter_sd t_start = Ok conv ->
    length (l1 ++ a :: l2) = length fr_target ->
    weights_fit (l1 ++ a :: l2) fr_weights ->
    let i := length l1 in
    Qabs ((b - nth i fr_target 0) * weight_at fr_weights i)
    <= Qabs ((a - nth i fr_target 0) * weight_at fr_weights i) ->
    exists fa fb,
      fitness_function MassFr wavelet_conv (l1 ++ a :: l2) fr_target mass_fr
                       T_sample filter_range filter_sd t_start fr_weights = Ok fa /\
      fitness_function MassFr wavelet_conv (l1 ++ b :: l2) fr_target mass_fr
                       T_sample filter_range filter_sd t_start fr_weights = Ok fb /\
      fa <= fb.
Proof.
  intros MassFr wavelet_conv l1 l2 a b fr_target mass_fr T_sample filter_range
         filter_sd t_start fr_weights conv Hc Hlen Hw i Habs.
  assert (Hlen' : length (l1 ++ b :: l2) = length fr_target)
    by (rewrite <- Hlen, !length_app; reflexivity).
  assert (Hw' : weights_fit (l1 ++ b :: l2) fr_weights).
  { destruct fr_weights; simpl in *; [|exact I].
    rewrite Hw, !length_app. reflexivity. }
  destruct (fitness_function_spec MassFr wavelet_conv mass_fr T_sample filter_range
              filter_sd t_start _ _ _ conv Hc Hlen Hw) as (fa & Ea & Ha).
  destruct (fitness_function_spec MassFr wavelet_conv mass_fr T_sample filter_range
              filter_sd t_start _ _ _ conv Hc Hlen' Hw') as (fb & Eb & Hb).
  exists fa, fb. split; [assumption|]. split; [assumption|].
  rewrite Ha, Hb. apply Qabs_le_sq in Habs. subst i.
  unfold fitness_spec. destruct fr_weights as [w|]; simpl in Hw, Habs.
  - pose proof (weighted_sq_dev_swap l2 a b l1 fr_target w (eq_sym Hlen) Hw). lra.
  - pose proof (sq_dev_swap l2 a b l1 fr_target (eq_sym Hlen)).
    unfold weight_at in Habs. lra.
Qed.

Lemma fitness_function_monotone_witness :
  exists fa fb,
    fitness_function unit (fun _ _ _ _ _ => Ok 3) ([1] ++ 7 :: [2]) [0; 4; 1] tt 1
                     (30, 50) 3 0 (Some [2; 1; 1]) = Ok fa /\
    fitness_function unit (fun _ _ _ _ _ => Ok 3) ([1] ++ 2 :: [2]) [0; 4; 1] tt 1
                     (30, 50) 3 0 (Some [2; 1; 1]) = Ok fb /\
    fa <= fb.
Proof.
  apply (fitness_function_monotone unit (fun _ _ _ _ _ => Ok 3) [1] [2] 7 2
           [0; 4; 1] tt 1 (30, 50) 3 0 (Some [2; 1; 1]) 3); try reflexivity.
  vm_compute. discriminate.
Defined.

(** ** [calculate_threshold]: masks and broadcasting *)

Lemma np_select_length {A : Type} (mask : list bool) (xs ys : list A) :
  np_select mask xs = Ok ys -> length ys = length (filter (fun b => b) mask).
Proof.
  unfold np_select. destruct (length mask =? length xs)%nat eqn:E; [|discriminate].
  apply Nat.eqb_eq in E. intros H; inversion H; subst; clear H.
  rewrite length_map. revert xs E.
  induction mask as [|b mask IH]; intros [|x xs] E; simpl in *; try discriminate;
    [reflexivity|].
  destruct b; simpl; rewrite IH by congruence; reflexivity.
Qed.

Lemma window_mask_map2 (times : list Q) (lo hi : Q) :
  window_mask times lo hi
  = Ok (map (fun t => Qle_bool t hi && Qltb lo t) times).
Proof.
  unfold window_mask. rewrite broadcast2_same_length by (now rewrite !length_map).
  f_equal. induction times as [|t times IH]; simpl; [reflexivity|].
  now rewrite IH.
Qed.

Lemma np_select_filter (p : Q -> bool) (times : list Q) :
  np_select (map p times) times = Ok (filter p times).
Proof.
  unfold np_select. rewrite length_map, Nat.eqb_refl. f_equal.
  induction times as [|t times IH]; simpl; [reflexivity|].
  destruct (p t); simpl; now rewrite IH.
Qed.

Lemma broadcast2_inv {A B C : Type} (f : A -> B -> C) (xs : list A) (ys : list B)
  (zs : list C) :
  broadcast2 f xs ys = Ok zs ->
  (length xs = length ys /\ zs = map2 f xs ys)
  \/ (length xs <> length ys /\ exists x, xs = [x] /\ zs = map (f x) ys)
  \/ (length xs <> length ys /\ length xs <> 1%nat /\
      exists y, ys = [y] /\ zs = map (fun x => f x y) xs).
Proof.
  unfold broadcast2. destruct (length xs =? length ys)%nat eqn:E.
  - apply Nat.eqb_eq in E. intros H; inversion H; auto.
  - apply Nat.eqb_neq in E. intros H. right.
    destruct xs as [|x [|x' xs]].
    + destruct ys as [|y [|y' ys]]; try discriminate.
      inversion H; subst. right. repeat split; auto. exists y; auto.
    + inversion H; subst. left. split; auto. exists x; auto.
    + destruct ys as [|y [|y' ys]]; try discriminate.
      inversion H; subst. right. repeat split; auto; try discriminate.
      exists y; auto.
Qed.

Lemma slice_last_length {A : Type} (n : nat) (xs : list A) :
  (0 < n)%nat -> (length (slice_last n xs) <= n)%nat.
Proof.
  intros Hn. unfold slice_last. destruct n; [lia|].
  rewrite length_skipn. lia.
Qed.

Lemma map2_nil_r {A B C : Type} (f : A -> B -> C) (xs : list A) :
  map2 f xs [] = [].
Proof. destruct xs; reflexivity. Qed.

Lemma map2_nth_error {A B C : Type} (f : A -> B -> C) (xs : list A) (ys : list B)
  (j : nat) (z : C) :
  nth_error (map2 f xs ys) j = Some z <->
  exists x y, nth_error xs j = Some x /\ nth_error ys j = Some y /\ z = f x y.
Proof.
  revert ys j. induction xs as [|x xs IH]; intros [|y ys] [|j]; simpl;
    try (split; [discriminate | intros (? & ? & ? & ? & ?); discriminate]).
  - split.
    + intros H; inversion H; subst. eauto.
    + intros (x' & y' & Hx & Hy & ->). inversion Hx; inversion Hy; now subst.
  - apply IH.
Qed.

Lemma cumsum_from_length (acc : npfloat) (xs : list npfloat) :
  length (cumsum_from acc xs) = length xs.
Proof.
  revert acc. induction xs as [|x xs IH]; intros acc; simpl; auto.
Qed.

Lemma np_cumsum_length (xs : list npfloat) : length (np_cumsum xs) = length xs.
Proof.
  destruct xs as [|x xs]; simpl; [reflexivity|]. now rewrite cumsum_from_length.
Qed.

(** ** [calculate_threshold]: one trial *)

Section TrialFacts.

Variables (times : list Q) (instf : list npfloat).
Variables (settling_time sim_time MF_time IO_time m1 q m2 : Q).

Let lt0 := fun d : npfloat => fltb d (Fin 0).

(** What [trial_of] returns. *)
Lemma trial_of_inv (k : Z) (tr : Trial) :
  trial_of times instf settling_time sim_time MF_time IO_time m1 q m2 k = Ok tr ->
  exists in_fr1,
    np_select (map (baseline_window settling_time sim_time MF_time k) times) instf
    = Ok in_fr1 /\
    tr_baseline tr = np_mean in_fr1 /\
    tr_threshold tr = fadd (fmul (tr_baseline tr) (Fin m1)) (Fin q) /\
    tr_times2 tr = filter (post_stimulus settling_time sim_time MF_time IO_time k) times /\
    np_select (map (post_stimulus settling_time sim_time MF_time IO_time k) times) instf
    = Ok (tr_in_fr2 tr) /\
    tr_diff1 tr = map (fsub (tr_threshold tr)) (tr_in_fr2 tr) /\
    broadcast2 fsub (slice_last (length (tr_in_fr2 tr)) (tr_cum_mean tr)) (tr_in_fr2 tr)
    = Ok (tr_diff2 tr) /\
    broadcast2 andb (map lt0 (tr_diff1 tr)) (map lt0 (tr_diff2 tr)) = Ok (tr_CR tr).
Proof.
  unfold trial_of. rewrite !window_mask_map2. simpl bind.
  fold (baseline_window settling_time sim_time MF_time k).
  fold (post_stimulus settling_time sim_time MF_time IO_time k).
  intros H.
  apply bind_Ok_inv in H as (in_fr1 & E1 & H). exists in_fr1.
  apply bind_Ok_inv in H as (in_fr2 & E2 & H).
  apply bind_Ok_inv in H as (in_fr1c & E3 & H).
  apply bind_Ok_inv in H as (ratio & E4 & H).
  apply bind_Ok_inv in H as (in_fr2' & E5 & H).
  rewrite E2 in E5. inversion E5; subst in_fr2'; clear E5.
  apply bind_Ok_inv in H as (diff2 & E6 & H).
  apply bind_Ok_inv in H as (CR & E7 & H).
  apply bind_Ok_inv in H as (times2 & E8 & H).
  rewrite np_select_filter in E8. inversion E8; subst times2; clear E8.
  inversion H; subst; clear H. cbn.
  repeat split; auto.
Qed.

Lemma filter_map_length {A : Type} (p : A -> bool) (xs : list A) :
  length (filter (fun b : bool => b) (map p xs)) = length (filter p xs).
Proof.
  induction xs as [|x xs IH]; simpl; [reflexivity|].
  destruct (p x); simpl; now rewrite IH.
Qed.

(** [CR] pairs the two differences sample by sample, and has no more
    entries than there are post-stimulus samples. *)
Lemma trial_CR_map2 (k : Z) (tr : Trial) :
  trial_of times instf settling_time sim_time MF_time IO_time m1 q m2 k = Ok tr ->
  tr_CR tr = map2 andb (map lt0 (tr_diff1 tr)) (map lt0 (tr_diff2 tr)) /\
  length (tr_diff1 tr) = length (tr_times2 tr) /\
  (length (tr_CR tr) <= length (tr_times2 tr))%nat.
Proof.
  intros H. apply trial_of_inv in H
    as (in_fr1 & _ & _ & _ & Ht2 & Hsel & Hd1 & Hd2 & HCR).
  assert (Hlen : length (tr_diff1 tr) = length (tr_times2 tr)).
  { rewrite Hd1, length_map, Ht2.
    rewrite (np_select_length _ _ _ Hsel). apply filter_map_length. }
  assert (Hn2 : length (tr_in_fr2 tr) = length (tr_diff1 tr))
    by (now rewrite Hd1, length_map).
  apply broadcast2_inv in HCR as [[HL ->] | [(HL & x & Hx & ->) | (HL & HL1 & y & Hy & ->)]].
  - split; [reflexivity|]. split; [assumption|].
    rewrite map2_length by assumption. rewrite length_map. lia.
  - (* one post-stimulus sample, no cumulative mean to compare it with *)
    rewrite !length_map in HL.
    assert (H1 : length (tr_diff1 tr) = 1%nat)
      by (apply (f_equal (@length bool)) in Hx; now rewrite length_map in Hx).
    assert (Hd2nil : tr_diff2 tr = []).
    { apply broadcast2_inv in Hd2
        as [[HL' E] | [(HL' & x' & Hx' & E) | (HL' & HL1' & y' & Hy' & E)]].
      - exfalso. apply HL. rewrite E, map2_length by assumption. lia.
      - exfalso. apply HL'. rewrite Hx'. simpl. lia.
      - pose proof (slice_last_length (length (tr_in_fr2 tr)) (tr_cum_mean tr)) as Hs.
        destruct (slice_last (length (tr_in_fr2 tr)) (tr_cum_mean tr)) as [|c [|c' l]];
          simpl in *; [assumption | lia | lia]. }
    rewrite Hd2nil. simpl. rewrite map2_nil_r.
    split; [reflexivity|]. split; [assumption|]. simpl. lia.
  - exfalso. rewrite !length_map in HL, HL1.
    assert (H1 : length (tr_diff2 tr) = 1%nat)
      by (apply (f_equal (@length bool)) in Hy; now rewrite length_map in Hy).
    apply broadcast2_inv in Hd2
      as [[HL' E] | [(HL' & x' & Hx' & E) | (HL' & HL1' & y' & Hy' & E)]].
    + rewrite E, map2_length in H1 by assumption. rewrite HL' in H1. lia.
    + rewrite E, length_map in H1. lia.
    + rewrite Hy' in Hn2. simpl in Hn2. lia.
Qed.

Lemma trial_of_meaning (k : Z) (tr : Trial) :
  trial_of times instf settling_time sim_time MF_time IO_time m1 q m2 k = Ok tr ->
  trial_meaning times instf settling_time sim_time MF_time IO_time m1 q m2 k tr.
Proof.
  intros H.
  destruct (trial_of_inv k tr H)
    as (in_fr1 & Hsel1 & Hb & Hthr & Ht2 & Hsel2 & Hd1 & Hd2 & _).
  unfold trial_meaning.
  split; [exists in_fr1; auto|]. repeat (split; [assumption|]).
  split; [|assumption].
  revert H. unfold trial_of. rewrite !window_mask_map2. simpl bind.
  fold (cumulative_window settling_time sim_time IO_time k).
  intros H.
  apply bind_Ok_inv in H as (x1 & _ & H).
  apply bind_Ok_inv in H as (x2 & _ & H).
  apply bind_Ok_inv in H as (in_fr1c & E3 & H).
  apply bind_Ok_inv in H as (ratio & E4 & H).
  apply bind_Ok_inv in H as (x5 & _ & H).
  apply bind_Ok_inv in H as (x6 & _ & H).
  apply bind_Ok_inv in H as (x7 & _ & H).
  apply bind_Ok_inv in H as (x8 & _ & H).
  inversion H; subst; clear H. cbn [tr_cum_mean].
  exists in_fr1c. split; [assumption|].
  rewrite broadcast2_same_length in E4
    by (now rewrite !np_cumsum_length, repeat_length).
  inversion E4. reflexivity.
Qed.

End TrialFacts.

Lemma first_crossing_spec (ts : list Q) (cr : list bool) (t : Q) :
  first_crossing (combine ts cr) = Some t <->
  exists j, nth_error ts j = Some t /\ nth_error cr j = Some true /\
            forall j', (j' < j)%nat -> nth_error cr j' = Some false.
Proof.
  revert cr. induction ts as [|t0 ts IH]; intros [|c cr]; simpl.
  - split; [discriminate | intros ([|j] & H & _); discriminate].
  - split; [discriminate | intros ([|j] & H & _); discriminate].
  - split; [discriminate | intros ([|j] & _ & H & _); discriminate].
  - destruct c.
    + split.
      * intros H; inversion H; subst. exists 0%nat. repeat split; auto. lia.
      * intros ([|j] & H1 & H2 & H3); simpl in *; [congruence|].
        specialize (H3 0%nat ltac:(lia)). discriminate.
    + rewrite IH. split.
      * intros (j & H1 & H2 & H3). exists (S j). repeat split; auto.
        intros [|j'] Hj'; simpl; auto. apply H3. lia.
      * intros ([|j] & H1 & H2 & H3); simpl in *; [discriminate|].
        exists j. repeat split; auto.
        intros j' Hj'. apply (H3 (S j')). lia.
Qed.

Lemma first_crossing_found (ts : list Q) (cr : list bool) :
  (length cr <= length ts)%nat ->
  existsb (fun b => b) cr = true ->
  exists t, first_crossing (combine ts cr) = Some t.
Proof.
  revert cr. induction ts as [|t0 ts IH]; intros [|c cr] Hlen H; simpl in *;
    try discriminate; try lia.
  destruct c; [eauto|]. apply IH; [lia | assumption].
Qed.

Lemma existsb_id_nth (cr : list bool) :
  existsb (fun b => b) cr = true <-> exists j, nth_error cr j = Some true.
Proof.
  rewrite existsb_exists. split.
  - intros (b & Hin & ->). apply In_nth_error in Hin. exact Hin.
  - intros (j & Hj). exists true. split; [|reflexivity].
    eapply nth_error_In; eassumption.
Qed.

Lemma CR_nth_crosses (tr : Trial) (j : nat) :
  tr_CR tr = map2 andb (map (fun d => fltb d (Fin 0)) (tr_diff1 tr))
                       (map (fun d => fltb d (Fin 0)) (tr_diff2 tr)) ->
  nth_error (tr_CR tr) j = Some true <-> sample_crosses tr j.
Proof.
  intros ->. rewrite map2_nth_error. unfold sample_crosses. split.
  - intros (b1 & b2 & H1 & H2 & Hb).
    rewrite nth_error_map in H1, H2.
    destruct (nth_error (tr_diff1 tr) j) as [d1|]; [|discriminate].
    destruct (nth_error (tr_diff2 tr) j) as [d2|]; [|discriminate].
    simpl in H1, H2. inversion H1; inversion H2; subst.
    symmetry in Hb. apply andb_true_iff in Hb as [Hb1 Hb2].
    exists d1, d2. auto.
  - intros (d1 & d2 & H1 & H2 & Hb1 & Hb2).
    exists true, true. rewrite !nth_error_map, H1, H2. simpl.
    rewrite Hb1, Hb2. auto.
Qed.

(** ** [calculate_threshold]: the loop over the trials *)

Section ThresholdLoop.

Variable gaussian_filter : list npfloat -> Q -> list npfloat.
Variables (times : list Q) (instf : list npfloat).
Variables (settling_time sim_time MF_time IO_time m1 q m2 : Q).

Let trial := trial_of times instf settling_time sim_time MF_time IO_time m1 q m2.
Let step := threshold_step times instf settling_time sim_time MF_time IO_time m1 q m2.

Lemma record_trial_append (k : Z) (tr : Trial) (st : ThrState) :
  trial k = Ok tr ->
  record_trial settling_time sim_time MF_time k tr st
  = mkThrState (Some (tr_threshold tr))
               (logical_res st ++ [trial_flag tr])
               (reaction_times st ++ [trial_rt settling_time sim_time MF_time k tr]).
Proof.
  intros H. apply trial_CR_map2 in H as (_ & _ & Hlen).
  unfold record_trial, trial_rt, trial_flag.
  destruct (existsb (fun b => b) (tr_CR tr)) eqn:E; [|reflexivity].
  destruct (first_crossing_found _ _ Hlen E) as (t & ->). reflexivity.
Qed.

Lemma threshold_fold (ks : list Z) :
  forall st st',
    foldM step ks st = Ok st' ->
    exists trs,
      Forall2 (fun k tr => trial k = Ok tr) ks trs /\
      logical_res st' = logical_res st ++ map trial_flag trs /\
      reaction_times st'
      = reaction_times st
        ++ map (fun p => trial_rt settling_time sim_time MF_time (fst p) (snd p))
               (combine ks trs) /\
      threshold st'
      = fold_left (fun _ tr => Some (tr_threshold tr)) trs (threshold st).
Proof.
  induction ks as [|k ks IH]; intros st st' H; simpl in H.
  - inversion H; subst. exists []. simpl. rewrite !app_nil_r.
    repeat split; constructor.
  - inv_bind H. unfold step, threshold_step in Hm. inv_bind Hm.
    rename a0 into tr. fold trial in Hm0.
    rewrite (record_trial_append _ _ _ Hm0) in Hm. inversion Hm; subst a; clear Hm.
    apply IH in H as (trs & F & E1 & E2 & E3). cbn in E1, E2, E3.
    exists (tr :: trs). split; [constructor; assumption|].
    cbn. rewrite E1, E2, E3, <- !app_assoc. auto.
Qed.

Lemma fold_left_last_threshold (trs : list Trial) (t0 : option npfloat) :
  fold_left (fun _ tr => Some (tr_threshold tr)) trs t0
  = match nth_error trs (length trs - 1) with
    | Some tr => Some (tr_threshold tr)
    | None => t0
    end.
Proof.
  revert t0. induction trs as [|tr trs IH]; intros t0; simpl; [reflexivity|].
  rewrite IH. rewrite Nat.sub_0_r.
  destruct trs as [|tr' trs]; simpl; [reflexivity|].
  rewrite Nat.sub_0_r.
  destruct (nth_error (tr' :: trs) (length trs)) eqn:E; [reflexivity|].
  apply nth_error_None in E. simpl in E. lia.
Qed.

(** The result of [calculate_threshold], trial by trial. *)
Lemma calculate_threshold_inv (instant_fr_l : list InstantFr) (trials : Z)
  (thr : npfloat) (lr : list bool) (rts : list Q) :
  smoothed_rate gaussian_filter instant_fr_l = Ok (times, instf) ->
  calculate_threshold gaussian_filter instant_fr_l trials settling_time sim_time
                      MF_time IO_time m1 q m2 = Ok (thr, lr, rts) ->
  exists trs,
    Forall2 (fun k tr => trial k = Ok tr) (py_range trials) trs /\
    length trs = Z.to_nat trials /\
    lr = map trial_flag trs /\
    rts = map (fun p => trial_rt settling_time sim_time MF_time (fst p) (snd p))
              (combine (py_range trials) trs) /\
    (1 <= trials)%Z /\
    exists tr, nth_error trs (Z.to_nat trials - 1) = Some tr /\ thr = tr_threshold tr.
Proof.
  intros Hs H. unfold calculate_threshold in H. rewrite Hs in H. simpl bind in H.
  inv_bind H. rename a into st.
  apply threshold_fold in Hm as (trs & F & E1 & E2 & E3). simpl in E1, E2, E3.
  assert (Hlen : length trs = Z.to_nat trials).
  { apply Forall2_length in F. now rewrite py_range_length in F. }
  rewrite fold_left_last_threshold in E3. rewrite E3 in H.
  destruct (nth_error trs (length trs - 1)) as [tr|] eqn:En; [|discriminate].
  inversion H; subst thr lr rts; clear H.
  exists trs. repeat split; auto.
  - assert (nth_error trs (length trs - 1) <> None) as Hne by congruence.
    apply nth_error_Some in Hne. lia.
  - exists tr. rewrite <- Hlen. auto.
Qed.

End ThresholdLoop.

Lemma nth_error_combine {A B : Type} (xs : list A) (ys : list B) (n : nat) (x : A) (y : B) :
  nth_error xs n = Some x -> nth_error ys n = Some y ->
  nth_error (combine xs ys) n = Some (x, y).
Proof.
  revert ys n. induction xs as [|x0 xs IH]; intros [|y0 ys] [|n] Hx Hy;
    simpl in *; try discriminate.
  - congruence.
  - auto.
Qed.

Lemma py_range_nth_error (n k : Z) :
  (0 <= k < n)%Z -> nth_error (py_range n) (Z.to_nat k) = Some k.
Proof.
  intros Hk. unfold py_range. rewrite nth_error_map.
  rewrite nth_error_seq.
  - replace (Z.to_nat k <? Z.to_nat n)%nat with true
      by (symmetry; apply Nat.ltb_lt; lia).
    simpl. f_equal. lia.
Qed.

Lemma calculate_threshold_smoothed (gaussian_filter : list npfloat -> Q -> list npfloat)
  (instant_fr_l : list InstantFr) (trials : Z)
  (settling_time sim_time MF_time IO_time m1 q m2 : Q)
  (res : npfloat * list bool * list Q) :
  calculate_threshold gaussian_filter instant_fr_l trials settling_time sim_time
                      MF_time IO_time m1 q m2 = Ok res ->
  exists times instf, smoothed_rate gaussian_filter instant_fr_l = Ok (times, instf).
Proof.
  unfold calculate_threshold. intros H. inv_bind H. destruct a as [times instf].
  eauto.
Qed.

(** Trial [k] of a run of [calculate_threshold]: what it computed and
    where its results are recorded. *)
Lemma calculate_threshold_trial (gaussian_filter : list npfloat -> Q -> list npfloat)
  (instant_fr_l : list InstantFr) (trials : Z)
  (settling_time sim_time MF_time IO_time m1 q m2 : Q)
  (thr : npfloat) (lr : list bool) (rts : list Q) (k : Z) :
  calculate_threshold gaussian_filter instant_fr_l trials settling_time sim_time
                      MF_time IO_time m1 q m2 = Ok (thr, lr, rts) ->
  (0 <= k < trials)%Z ->
  exists times instf tr,
    smoothed_rate gaussian_filter instant_fr_l = Ok (times, instf) /\
    trial_of times instf settling_time sim_time MF_time IO_time m1 q m2 k = Ok tr /\
    nth_error lr (Z.to_nat k) = Some (trial_flag tr) /\
    nth_error rts (Z.to_nat k) = Some (trial_rt settling_time sim_time MF_time k tr).
Proof.
  intros H Hk.
  destruct (calculate_threshold_smoothed _ _ _ _ _ _ _ _ _ _ _ H) as (times & instf & Hs).
  destruct (calculate_threshold_inv _ _ _ _ _ _ _ _ _ _ _ _ _ _ _ Hs H)
    as (trs & F & Hlen & -> & -> & _).
  pose proof (py_range_nth_error trials k Hk) as Hnk.
  destruct (Forall2_nth_error _ _ _ F _ _ Hnk) as (tr & Htr & Hok).
  exists times, instf, tr. split; [assumption|]. split; [assumption|].
  split.
  - now rewrite nth_error_map, Htr.
  - rewrite nth_error_map, (nth_error_combine _ _ _ _ _ Hnk Htr). reflexivity.
Qed.

(** C4: in a run of [calculate_threshold], a trial in which no
    post-stimulus sample meets the crossing condition records the reaction
    time -1 and the logical result [False]. *)
Theorem no_crossing_reaction_time :
  forall (gaussian_filter : list npfloat -> Q -> list npfloat)
         (instant_fr_l : list InstantFr) (trials : Z)
         (settling_time sim_time MF_time IO_time m1 q m2 : Q)
         (thr : npfloat) (lr : list bool) (rts : list Q) (k : Z),
    calculate_threshold gaussian_filter instant_fr_l trials settling_time sim_time
                        MF_time IO_time m1 q m2 = Ok (thr, lr, rts) ->
    (0 <= k < trials)%Z ->
    exists times instf tr,
      smoothed_rate gaussian_filter instant_fr_l = Ok (times, instf) /\
      trial_of times instf settling_time sim_time MF_time IO_time m1 q m2 k = Ok tr /\
      ((forall j, ~ sample_crosses tr j) ->
       nth_error rts (Z.to_nat k) = Some (-1) /\
       nth_error lr (Z.to_nat k) = Some false).
Proof.
  intros gf ifr trials settling_time sim_time MF_time IO_time m1 q m2
         thr lr rts k H Hk.
  destruct (calculate_threshold_trial _ _ _ _ _ _ _ _ _ _ _ _ _ _ H Hk)
    as (times & instf & tr & Hs & Htr & Hlr & Hrt).
  exists times, instf, tr. split; [assumption|]. split; [assumption|].
  intros Hno.
  assert (Hflag : trial_flag tr = false).
  { destruct (trial_flag tr) eqn:E; [|reflexivity]. exfalso.
    unfold trial_flag in E. apply existsb_id_nth in E as (j & Hj).
    apply (Hno j). apply CR_nth_crosses; [|assumption].
    eapply trial_CR_map2; eassumption. }
  rewrite Hlr, Hrt. unfold trial_rt. rewrite Hflag. split; reflexivity.
Qed.

Lemma no_crossing_reaction_time_witness :
  exists thr lr rts,
    calculate_threshold keep_filter example_instant_fr 2 0 300 0 300 1 (1 # 2) 1
    = Ok (thr, lr, rts) /\
    nth_error rts 1 = Some (-1) /\ nth_error lr 1 = Some false.
Proof.
  destruct (calculate_threshold keep_filter example_instant_fr 2 0 300 0 300 1 (1 # 2) 1)
    as [[[thr lr] rts]|e] eqn:E; [|vm_compute in E; discriminate].
  exists thr, lr, rts. split; [reflexivity|].
  destruct (no_crossing_reaction_time keep_filter example_instant_fr 2 0 300 0 300
              1 (1 # 2) 1 thr lr rts 1%Z E ltac:(lia))
    as (times & instf & tr & Hs & Htr & Himp).
  apply Himp.
  vm_compute in Hs. inversion Hs; subst times instf; clear Hs.
  vm_compute in Htr. inversion Htr; subst tr; clear Htr.
  intros j (d1 & d2 & H1 & H2 & B1 & B2). cbn [tr_diff1 tr_diff2] in H1, H2.
  destruct j as [|[|[|[|[|j]]]]]; simpl in H1, H2;
    try discriminate; inversion H1; subst; vm_compute in B1; discriminate.
Defined.

(** C5: in a run of [calculate_threshold], the response flag of trial [k]
    is [True] exactly when some post-stimulus sample has both differences
    negative, [diff1] being [threshold - rate] with the linear threshold
    [baseline*m1 + q] and [diff2] the running cumulative mean scaled by
    [m2] minus the rate; when the flag is [True] the recorded reaction
    time is the time of the first such sample minus
    [settling_time + k*sim_time + MF_time]. *)
Theorem response_flag_and_reaction_time :
  forall (gaussian_filter : list npfloat -> Q -> list npfloat)
         (instant_fr_l : list InstantFr) (trials : Z)
         (settling_time sim_time MF_time IO_time m1 q m2 : Q)
         (thr : npfloat) (lr : list bool) (rts : list Q) (k : Z),
    calculate_threshold gaussian_filter instant_fr_l trials settling_time sim_time
                        MF_time IO_time m1 q m2 = Ok (thr, lr, rts) ->
    (0 <= k < trials)%Z ->
    exists times instf tr flag,
      smoothed_rate gaussian_filter instant_fr_l = Ok (times, instf) /\
      trial_of times instf settling_time sim_time MF_time IO_time m1 q m2 k = Ok tr /\
      trial_meaning times instf settling_time sim_time MF_time IO_time m1 q m2 k tr /\
      nth_error lr (Z.to_nat k) = Some flag /\
      (flag = true <-> exists j, sample_crosses tr j) /\
      (flag = true ->
       exists j t,
         sample_crosses tr j /\
         (forall j', (j' < j)%nat -> ~ sample_crosses tr j') /\
         nth_error (tr_times2 tr) j = Some t /\
         nth_error rts (Z.to_nat k)
         = Some (t - (settling_time + inject_Z k * sim_time + MF_time))).
Proof.
  intros gf ifr trials settling_time sim_time MF_time IO_time m1 q m2
         thr lr rts k H Hk.
  destruct (calculate_threshold_trial _ _ _ _ _ _ _ _ _ _ _ _ _ _ H Hk)
    as (times & instf & tr & Hs & Htr & Hlr & Hrt).
  pose proof (trial_of_meaning _ _ _ _ _ _ _ _ _ _ _ Htr) as Hmean.
  destruct (trial_CR_map2 _ _ _ _ _ _ _ _ _ _ _ Htr) as (HCR & _ & Hlen).
  exists times, instf, tr, (trial_flag tr).
  repeat (split; [assumption|]).
  assert (Hiff : trial_flag tr = true <-> exists j, sample_crosses tr j).
  { unfold trial_flag. rewrite existsb_id_nth.
    split; intros (j & Hj); exists j; now apply (CR_nth_crosses tr j HCR). }
  split; [exact Hiff|].
  intros Hflag.
  destruct (first_crossing_found _ _ Hlen Hflag) as (t & Hfc).
  pose proof Hfc as Hfc'. apply first_crossing_spec in Hfc' as (j & Hj1 & Hj2 & Hj3).
  exists j, t. split; [now apply (CR_nth_crosses tr j HCR)|].
  split.
  - intros j' Hj' Hc. apply (CR_nth_crosses tr j' HCR) in Hc.
    rewrite (Hj3 j' Hj') in Hc. discriminate.
  - split; [assumption|].
    rewrite Hrt. unfold trial_rt. unfold trial_flag in Hflag. fold (trial_flag tr).
    unfold trial_flag. rewrite Hflag, Hfc. reflexivity.
Qed.

Lemma response_flag_and_reaction_time_witness :
  exists thr lr rts,
    calculate_threshold keep_filter example_instant_fr 2 0 300 0 300 1 (1 # 2) 1
    = Ok (thr, lr, rts) /\
    nth_error lr 0 = Some true /\
    nth_error rts 0 = Some (200 - (0 + inject_Z 0 * 300 + 0)).
Proof.
  destruct (calculate_threshold keep_filter example_instant_fr 2 0 300 0 300 1 (1 # 2) 1)
    as [[[thr lr] rts]|e] eqn:E; [|vm_compute in E; discriminate].
  exists thr, lr, rts. split; [reflexivity|].
  destruct (response_flag_and_reaction_time keep_filter example_instant_fr 2 0 300 0
              300 1 (1 # 2) 1 thr lr rts 0%Z E ltac:(lia))
    as (times & instf & tr & flag & Hs & Htr & _ & Hlr & Hiff & Hrt).
  change (Z.to_nat 0) with 0%nat in Hlr, Hrt.
  vm_compute in Hs. inversion Hs; subst times instf; clear Hs.
  assert (Hc1 : sample_crosses tr 1).
  { vm_compute in Htr. inversion Htr; subst tr.
    eexists _, _. cbn. repeat split. }
  assert (Hflag : flag = true) by (apply Hiff; eauto).
  subst flag. split; [assumption|].
  destruct (Hrt eq_refl) as (j & t & Hj & Hfirst & Ht & Hr).
  rewrite Hr. clear Hr Hlr Hiff Hrt E.
  vm_compute in Htr. inversion Htr; subst tr; clear Htr.
  cbn [tr_times2] in Ht.
  destruct j as [|[|j]].
  - exfalso. destruct Hj as (d1 & d2 & H1 & _ & B1 & _).
    cbn in H1. inversion H1; subst. vm_compute in B1. discriminate.
  - cbn in Ht. inversion Ht. reflexivity.
  - exfalso. apply (Hfirst 1%nat); [lia | exact Hc1].
Defined.

(** C10: [calculate_threshold] returns one threshold, that of the last
    trial: when it returns, there was at least one trial, [logical_res]
    and [reaction_times] have one entry per trial, and the threshold
    returned is [baseline*m1 + q] of trial [trials - 1]. *)
Theorem threshold_of_last_trial :
  forall (gaussian_filter : list npfloat -> Q -> list npfloat)
         (instant_fr_l : list InstantFr) (trials : Z)
         (settling_time sim_time MF_time IO_time m1 q m2 : Q)
         (thr : npfloat) (lr : list bool) (rts : list Q),
    calculate_threshold gaussian_filter instant_fr_l trials settling_time sim_time
                        MF_time IO_time m1 q m2 = Ok (thr, lr, rts) ->
    (1 <= trials)%Z /\
    length lr = Z.to_nat trials /\
    length rts = Z.to_nat trials /\
    exists times instf tr,
      smoothed_rate gaussian_filter instant_fr_l = Ok (times, instf) /\
      trial_of times instf settling_time sim_time MF_time IO_time m1 q m2
               (trials - 1) = Ok tr /\
      trial_meaning times instf settling_time sim_time MF_time IO_time m1 q m2
                    (trials - 1) tr /\
      thr = tr_threshold tr /\
      thr = fadd (fmul (tr_baseline tr) (Fin m1)) (Fin q).
Proof.
  intros gf ifr trials settling_time sim_time MF_time IO_time m1 q m2 thr lr rts H.
  destruct (calculate_threshold_smoothed _ _ _ _ _ _ _ _ _ _ _ H) as (times & instf & Hs).
  destruct (calculate_threshold_inv _ _ _ _ _ _ _ _ _ _ _ _ _ _ _ Hs H)
    as (trs & F & Hlen & -> & -> & Hpos & tr & Htr & ->).
  split; [assumption|].
  split; [now rewrite length_map|].
  split; [rewrite length_map, length_combine, py_range_length; lia|].
  exists times, instf, tr. split; [assumption|].
  assert (Hk : nth_error (py_range trials) (Z.to_nat trials - 1) = Some (trials - 1)%Z).
  { replace (Z.to_nat trials - 1)%nat with (Z.to_nat (trials - 1)) by lia.
    apply py_range_nth_error. lia. }
  destruct (Forall2_nth_error _ _ _ F _ _ Hk) as (tr' & Htr' & Hok).
  rewrite Htr in Htr'. inversion Htr'; subst tr'; clear Htr'.
  split; [assumption|]. split; [now apply trial_of_meaning|].
  split; [reflexivity|].
  apply trial_of_inv in Hok as (in_fr1 & _ & _ & Hthr & _). exact Hthr.
Qed.

Lemma threshold_of_last_trial_witness :
  exists thr lr rts,
    calculate_threshold keep_filter example_instant_fr 2 0 300 0 300 1 (1 # 2) 1
    = Ok (thr, lr, rts) /\
    length lr = 2%nat /\ length rts = 2%nat /\
    exists tr,
      trial_of [50; 100; 150; 200; 250; 300; 350; 400; 450; 500; 550; 600]
        (mean_axis0 (instant_fr example_rates)) 0 300 0 300 1 (1 # 2) 1 1 = Ok tr /\
      thr = fadd (fmul (tr_baseline tr) (Fin 1)) (Fin (1 # 2)).
Proof.
  destruct (calculate_threshold keep_filter example_instant_fr 2 0 300 0 300 1 (1 # 2) 1)
    as [[[thr lr] rts]|e] eqn:E; [|vm_compute in E; discriminate].
  exists thr, lr, rts. split; [reflexivity|].
  destruct (threshold_of_last_trial keep_filter example_instant_fr 2 0 300 0 300
              1 (1 # 2) 1 thr lr rts E)
    as (_ & Hl & Hr & times & instf & tr & Hs & Htr & _ & _ & Hthr).
  split; [exact Hl|]. split; [exact Hr|].
  exists tr. split; [|exact Hthr].
  unfold smoothed_rate in Hs. simpl in Hs. inversion Hs; subst times instf.
  exact Htr.
Defined.

(** Without a trial no threshold is bound: the [return] raises. *)
Lemma calculate_threshold_no_trials
  (gaussian_filter : list npfloat -> Q -> list npfloat)
  (instant_fr_l : list InstantFr) (trials : Z)
  (settling_time sim_time MF_time IO_time m1 q m2 : Q) :
  (trials <= 0)%Z ->
  forall res,
    calculate_threshold gaussian_filter instant_fr_l trials settling_time sim_time
                        MF_time IO_time m1 q m2 <> Ok res.
Proof.
  intros Hle [[thr lr] rts] H.
  destruct (calculate_threshold_smoothed _ _ _ _ _ _ _ _ _ _ _ H) as (times & instf & Hs).
  destruct (calculate_threshold_inv _ _ _ _ _ _ _ _ _ _ _ _ _ _ _ Hs H)
    as (_ & _ & _ & _ & _ & Hpos & _).
  lia.
Qed.

(** ** Empty selections *)

Lemma np_select_empty {A : Type} (p : Q -> bool) (times : list Q) (xs ys : list A) :
  np_select (map p times) xs = Ok ys -> filter p times = [] -> ys = [].
Proof.
  intros H Hf. apply np_select_length in H.
  rewrite filter_map_length, Hf in H. now apply length_zero_iff_nil.
Qed.

Lemma map2_andb_false_l (xs ys : list bool) :
  Forall (fun b => b = false) xs -> existsb (fun b => b) (map2 andb xs ys) = false.
Proof.
  revert ys. induction xs as [|x xs IH]; intros [|y ys] H; simpl; auto.
  inversion H; subst. simpl. now apply IH.
Qed.

(** A trial whose baseline window selects no sample: the mean of the
    empty selection is [NaN], so is the threshold, and no comparison with
    it succeeds. *)
Lemma trial_empty_baseline (times : list Q) (instf : list npfloat)
  (settling_time sim_time MF_time IO_time m1 q m2 : Q) (k : Z) (tr : Trial) :
  trial_of times instf settling_time sim_time MF_time IO_time m1 q m2 k = Ok tr ->
  filter (baseline_window settling_time sim_time MF_time k) times = [] ->
  tr_baseline tr = NaN /\ tr_threshold tr = NaN /\ trial_flag tr = false.
Proof.
  intros H Hempty.
  destruct (trial_CR_map2 _ _ _ _ _ _ _ _ _ _ _ H) as (HCR & _ & _).
  apply trial_of_inv in H as (in_fr1 & Hsel & Hb & Hthr & _ & _ & Hd1 & _ & _).
  apply np_select_empty in Hsel; [|assumption]. subst in_fr1.
  assert (Hbase : tr_baseline tr = NaN) by (rewrite Hb; reflexivity).
  assert (Hthr' : tr_threshold tr = NaN) by (rewrite Hthr, Hbase; reflexivity).
  split; [assumption|]. split; [assumption|].
  unfold trial_flag. rewrite HCR. apply map2_andb_false_l.
  rewrite Hd1, Hthr'. apply Forall_map. apply Forall_map.
  apply Forall_forall. intros x _. reflexivity.
Qed.

(** C8, as the code has it: [calculate_fr] guards the empty case, a neuron
    with an empty inter-spike-interval list gets the rate 0 and the
    coefficient of variation 0 without a division; [calculate_threshold]
    has no such guard, for a trial whose baseline window selects no sample
    the baseline and the threshold are [NaN] (the mean of an empty array),
    and the trial is recorded as [False] with reaction time -1. *)
Theorem empty_cases :
  (forall (np_sqrt : npfloat -> npfloat) (raster_list : list Raster)
          (pop_dim_ids : PopDimIds) (t_start : Q) (t_end : option Q)
          (return_CV_name : bool) (res : FrLists) (k : nat) (raster : Raster),
      calculate_fr np_sqrt raster_list pop_dim_ids t_start t_end return_CV_name
        = Ok res ->
      nth_error raster_list k = Some raster ->
      exists ISI_list,
        ISI_of_raster pop_dim_ids t_start t_end raster = Ok ISI_list /\
        nth_error (fr_list res) k
        = Some (np_round2 (np_mean (map inv_mean_ISI_el ISI_list))) /\
        (return_CV_name = true ->
         nth_error (CV_list res) k
         = Some (np_round2 (np_mean (map (CV_el_of np_sqrt) ISI_list)))) /\
        forall n, nth_error ISI_list n = Some [] ->
                  nth_error (map inv_mean_ISI_el ISI_list) n = Some (Fin 0) /\
                  nth_error (map (CV_el_of np_sqrt) ISI_list) n = Some (Fin 0))
  /\
  (forall (gaussian_filter : list npfloat -> Q -> list npfloat)
          (instant_fr_l : list InstantFr) (trials : Z)
          (settling_time sim_time MF_time IO_time m1 q m2 : Q)
          (thr : npfloat) (lr : list bool) (rts : list Q) (k : Z),
      calculate_threshold gaussian_filter instant_fr_l trials settling_time sim_time
                          MF_time IO_time m1 q m2 = Ok (thr, lr, rts) ->
      (0 <= k < trials)%Z ->
      exists times instf tr,
        smoothed_rate gaussian_filter instant_fr_l = Ok (times, instf) /\
        trial_of times instf settling_time sim_time MF_time IO_time m1 q m2 k = Ok tr /\
        (filter (baseline_window settling_time sim_time MF_time k) times = [] ->
         tr_baseline tr = NaN /\ tr_threshold tr = NaN /\
         nth_error lr (Z.to_nat k) = Some false /\
         nth_error rts (Z.to_nat k) = Some (-1))).
Proof.
  split.
  - intros np_sqrt raster_list pop_dim_ids t_start t_end flag res k raster Hres Hk.
    destruct (calculate_fr_nth _ _ _ _ _ _ _ _ _ Hres Hk) as (ISI_list & HI & Hfr & HCV).
    exists ISI_list. repeat (split; [assumption|]).
    intros n Hn. rewrite !nth_error_map, Hn. split; reflexivity.
  - intros gf ifr trials settling_time sim_time MF_time IO_time m1 q m2
           thr lr rts k H Hk.
    destruct (calculate_threshold_trial _ _ _ _ _ _ _ _ _ _ _ _ _ _ H Hk)
      as (times & instf & tr & Hs & Htr & Hlr & Hrt).
    exists times, instf, tr. split; [assumption|]. split; [assumption|].
    intros Hempty.
    destruct (trial_empty_baseline _ _ _ _ _ _ _ _ _ _ _ Htr Hempty)
      as (Hb & Ht & Hflag).
    split; [assumption|]. split; [assumption|].
    rewrite Hlr, Hrt. unfold trial_rt. rewrite Hflag. split; reflexivity.
Qed.

Lemma empty_cases_witness :
  (exists res ISI_list,
     calculate_fr (fun x => x) [mkRaster "GR" [1; 2; 4] [1; 1; 1]%Z]
                  [("GR"%string, (1, 2)%Z)] 0 None true = Ok res /\
     ISI_of_raster [("GR"%string, (1, 2)%Z)] 0 None
                   (mkRaster "GR" [1; 2; 4] [1; 1; 1]%Z) = Ok ISI_list /\
     nth_error (map inv_mean_ISI_el ISI_list) 0 = Some (Fin 0) /\
     nth_error (map (CV_el_of (fun x => x)) ISI_list) 0 = Some (Fin 0)) /\
  (exists thr lr rts,
     calculate_threshold keep_filter example_instant_fr 1 1000 300 0 300 1 (1 # 2) 1
     = Ok (thr, lr, rts) /\
     nth_error lr 0 = Some false /\ nth_error rts 0 = Some (-1)).
Proof.
  split.
  - set (raster := mkRaster "GR" [1; 2; 4] [1; 1; 1]%Z).
    set (ids := [("GR"%string, (1, 2)%Z)]).
    destruct (calculate_fr (fun x => x) [raster] ids 0 None true) as [res|e] eqn:E;
      [|vm_compute in E; discriminate].
    destruct (proj1 empty_cases (fun x => x) [raster] ids 0 None true res 0%nat raster
                E eq_refl) as (ISI_list & HI & _ & _ & Hempty).
    exists res, ISI_list. split; [reflexivity|]. split; [exact HI|].
    apply Hempty. vm_compute in HI. inversion HI. reflexivity.
  - destruct (calculate_threshold keep_filter example_instant_fr 1 1000 300 0 300 1
                                  (1 # 2) 1)
      as [[[thr lr] rts]|e] eqn:E; [|vm_compute in E; discriminate].
    exists thr, lr, rts. split; [reflexivity|].
    destruct (proj2 empty_cases keep_filter example_instant_fr 1%Z 1000 300 0 300 1
                (1 # 2) 1 thr lr rts 0%Z E ltac:(lia))
      as (times & instf & tr & Hs & _ & Himp).
    apply Himp. vm_compute in Hs. inversion Hs. reflexivity.
Defined.

(** C8, as it is worded, fails for [calculate_threshold]: on a trial whose
    baseline window (here [(1000, 1100]], beyond every sample) selects no
    sample the baseline and the threshold returned are [NaN], not 0. *)
Lemma empty_window_threshold_is_nan :
  filter (baseline_window 1000 300 0 0) (if_times example_rates) = [] /\
  (exists tr,
     trial_of (if_times example_rates) (mean_axis0 (instant_fr example_rates))
              1000 300 0 300 1 (1 # 2) 1 0 = Ok tr /\
     tr_baseline tr = NaN /\ ~ feq (tr_baseline tr) (Fin 0) /\
     tr_threshold tr = NaN /\ ~ feq (tr_threshold tr) (Fin 0)) /\
  calculate_threshold keep_filter example_instant_fr 1 1000 300 0 300 1 (1 # 2) 1
  = Ok (NaN, [false], [-1]).
Proof.
  split; [reflexivity|]. split; [|reflexivity].
  eexists. split; [vm_compute; reflexivity|]. cbn.
  repeat split; auto.
Qed.

(** ** [calculate_threshold] on an empty post-stimulus window *)

(** When the post-stimulus window of a trial selects no sample while the
    cumulative window selects at least two ([IO_time <= MF_time + 100]),
    [cum_mean[-0:]] is the whole of [cum_mean] and the subtraction of line
    522 raises: here with [MF_time = 0] and [IO_time = 100]. *)
Lemma empty_post_stimulus_window_raises :
  filter (post_stimulus 0 300 0 100 0) (if_times example_rates) = [] /\
  calculate_threshold keep_filter example_instant_fr 1 0 300 0 100 1 (1 # 2) 1
  = Raise ValueError.
Proof. split; reflexivity. Qed.

(** ** The functions return on well-formed inputs *)

Lemma spike_windows_returns (window step start_time time : Q) :
  ~ step == 0 -> exists lw, spike_windows window step start_time time = Ok lw.
Proof.
  intros Hs. unfold spike_windows, py_div.
  destruct (Qeq_bool step 0) eqn:E; [apply Qeq_bool_eq in E; contradiction|].
  simpl. eauto.
Qed.

Lemma firing_returns (window step start_time : Q) (elem_len : Z)
  (spikes : list (Z * Q)) :
  ~ step == 0 ->
  forall m : ndarray2 Z,
    shape_ok m -> Z.of_nat (ncols m) = elem_len ->
    (forall it, In it spikes -> (0 <= fst it < Z.of_nat (nrows m))%Z) ->
    exists m', foldM (spike_step window step start_time elem_len) spikes m = Ok m'.
Proof.
  intros Hs. induction spikes as [|[index time] l IH]; intros m Hshape Hc Hrows.
  - exists m. reflexivity.
  - destruct (spike_windows_returns window step start_time time Hs) as (lw & Hlw).
    assert (Hidx : np_index (nrows m) index = Ok (Z.to_nat index))
      by (apply np_index_in_range; apply (Hrows (index, time)); now left).
    destruct (incr_cols_entry index (Z.to_nat index) (spike_bins elem_len lw) m
                Hshape Hidx) as (m1 & E1 & _).
    { apply Forall_forall. intros e He. apply spike_bins_in_range in He. lia. }
    assert (Hstep : spike_step window step start_time elem_len m (index, time) = Ok m1).
    { rewrite spike_step_bins, Hlw. exact E1. }
    pose proof (spike_step_shape _ _ _ _ _ _ _ Hstep) as [[S1 S2] S3].
    destruct (IH m1 (S3 Hshape)) as (m' & E').
    + now rewrite S2.
    + intros it Hit. rewrite S1. apply Hrows. now right.
    + exists m'. cbn [foldM]. rewrite Hstep. exact E'.
Qed.

(** [fr_window_step] returns for a raster of a known population whose
    neuron ids lie between the first and the last id, when [step] is not
    zero and the simulation does not end before [start_time - step]. *)
Lemma fr_window_step_raster_returns (pop_dim_ids : PopDimIds)
  (sim_time window step start_time : Q) (raster : Raster) (first_id last_id : Z) :
  dict_get pop_dim_ids (compartment_name raster) = Ok (first_id, last_id) ->
  ~ step == 0 ->
  (0 <= py_int ((sim_time - start_time) / step) + 1)%Z ->
  (forall id, In id (neurons_idx raster) -> (first_id <= id <= last_id)%Z) ->
  (first_id <= last_id + 1)%Z ->
  exists ret,
    fr_window_step_raster pop_dim_ids sim_time window step start_time raster = Ok ret.
Proof.
  intros Hd Hs Hlen Hids Hpop. unfold fr_window_step_raster.
  rewrite Hd. simpl bind. unfold elem_len_of, py_div.
  destruct (Qeq_bool step 0) eqn:E; [apply Qeq_bool_eq in E; contradiction|].
  simpl bind.
  set (elem_len := (py_int ((sim_time - start_time) / step) + 1)%Z) in *.
  destruct (np_zeros (last_id - first_id + 1) elem_len) as [firing0|e] eqn:Ez.
  2:{ unfold np_zeros in Ez.
      replace ((last_id - first_id + 1 <? 0) || (elem_len <? 0))%Z with false in Ez;
        [discriminate|].
      symmetry. apply orb_false_iff. split; apply Z.ltb_ge; lia. }
  simpl bind.
  apply np_zeros_shape in Ez as (_ & _ & Hnr & Hnc & Hshape & _).
  destruct (firing_returns window step start_time elem_len
              (combine (map (fun n => (n - first_id)%Z) (neurons_idx raster))
                       (times raster)) Hs firing0 Hshape) as (firing & Ef).
  - rewrite Hnc. lia.
  - intros [i t] Hit. apply in_combine_l in Hit.
    apply in_map_iff in Hit as (id & <- & Hid). simpl.
    specialize (Hids id Hid). rewrite Hnr. lia.
  - rewrite Ef. simpl bind. unfold np_linspace.
    replace (elem_len <? 0)%Z with false by (symmetry; apply Z.ltb_ge; lia).
    simpl bind. eauto.
Qed.

Lemma Qltb_lt (a b : Q) : Qltb a b = true <-> a < b.
Proof.
  unfold Qltb. rewrite negb_true_iff. split.
  - intros H. apply Qnot_le_lt. intros Hle.
    apply Qle_bool_iff in Hle. congruence.
  - intros H. destruct (Qle_bool b a) eqn:E; [|reflexivity].
    apply Qle_bool_iff in E. exfalso. now apply (Qlt_not_le a b).
Qed.

Lemma np_select_returns {A : Type} (mask : list bool) (xs : list A) :
  length mask = length xs -> exists ys, np_select mask xs = Ok ys.
Proof.
  intros H. unfold np_select. rewrite H, Nat.eqb_refl. eauto.
Qed.

Lemma filter_length_le {A : Type} (p p' : A -> bool) (l : list A) :
  (forall x, p x = true -> p' x = true) ->
  (length (filter p l) <= length (filter p' l))%nat.
Proof.
  intros H. induction l as [|x l IH]; simpl; [lia|].
  destruct (p x) eqn:E.
  - rewrite (H x E). simpl. lia.
  - destruct (p' x); simpl; lia.
Qed.

Section ThresholdReturns.

Variables (times : list Q) (instf : list npfloat).
Variables (settling_time sim_time MF_time IO_time m1 q m2 : Q).

Hypothesis same_length : length instf = length times.
Hypothesis stimulus_after_onset : 0 <= MF_time + 100.

(** A trial with at least one post-stimulus sample is computed without an
    exception. *)
Lemma trial_of_returns (k : Z) :
  filter (post_stimulus settling_time sim_time MF_time IO_time k) times <> [] ->
  exists tr,
    trial_of times instf settling_time sim_time MF_time IO_time m1 q m2 k = Ok tr.
Proof.
  intros Hpost. unfold trial_of. rewrite !window_mask_map2. simpl bind.
  fold (baseline_window settling_time sim_time MF_time k).
  fold (post_stimulus settling_time sim_time MF_time IO_time k).
  fold (cumulative_window settling_time sim_time IO_time k).
  destruct (np_select_returns
              (map (baseline_window settling_time sim_time MF_time k) times) instf)
    as (in_fr1 & E1); [now rewrite length_map|].
  destruct (np_select_returns
              (map (post_stimulus settling_time sim_time MF_time IO_time k) times) instf)
    as (in_fr2 & E2); [now rewrite length_map|].
  destruct (np_select_returns
              (map (cumulative_window settling_time sim_time IO_time k) times) instf)
    as (in_fr1c & E3); [now rewrite length_map|].
  rewrite E1. simpl bind. rewrite E2. simpl bind. rewrite E3. simpl bind.
  rewrite broadcast2_same_length
    by (now rewrite !np_cumsum_length, repeat_length).
  simpl bind.
  assert (Hn2 : length in_fr2
                = length (filter (post_stimulus settling_time sim_time MF_time IO_time k)
                                 times))
    by (rewrite (np_select_length _ _ _ E2); apply filter_map_length).
  assert (Hnc : length in_fr1c
                = length (filter (cumulative_window settling_time sim_time IO_time k)
                                 times))
    by (rewrite (np_select_length _ _ _ E3); apply filter_map_length).
  assert (Hpos : (0 < length in_fr2)%nat).
  { rewrite Hn2.
    destruct (filter (post_stimulus settling_time sim_time MF_time IO_time k) times);
      [contradiction | simpl; lia]. }
  assert (Hle : (length in_fr2 <= length in_fr1c)%nat).
  { rewrite Hn2, Hnc. apply filter_length_le. intros t Ht.
    unfold post_stimulus in Ht. unfold cumulative_window.
    apply andb_true_iff in Ht as [Ht1 Ht2]. rewrite Ht1. simpl.
    apply Qltb_lt. apply Qltb_lt in Ht2. lra. }
  assert (Hslice :
    length (slice_last (length in_fr2)
              (map (fun x => fmul x (Fin m2))
                   (map2 fdiv (np_cumsum in_fr1c)
                         (np_cumsum (repeat (Fin 1) (length in_fr1c))))))
    = length in_fr2).
  { unfold slice_last. destruct (length in_fr2) as [|n] eqn:En; [lia|].
    rewrite length_skipn, length_map, map2_length
      by (now rewrite !np_cumsum_length, repeat_length).
    rewrite np_cumsum_length. lia. }
  rewrite broadcast2_same_length by exact Hslice. simpl bind.
  rewrite broadcast2_same_length
    by (rewrite !length_map, map2_length by exact Hslice; now rewrite Hslice).
  simpl bind. rewrite np_select_filter. simpl bind. eauto.
Qed.

Lemma threshold_fold_returns (ks : list Z) :
  (forall k, In k ks ->
     filter (post_stimulus settling_time sim_time MF_time IO_time k) times <> []) ->
  forall st,
    exists st',
      foldM (threshold_step times instf settling_time sim_time MF_time IO_time m1 q m2)
            ks st = Ok st' /\
      (ks <> [] -> threshold st' <> None) /\
      (threshold st <> None -> threshold st' <> None).
Proof.
  induction ks as [|k ks IH]; intros Hpost st.
  - exists st. split; [reflexivity|]. split; [congruence | auto].
  - destruct (trial_of_returns k (Hpost k (or_introl eq_refl))) as (tr & Etr).
    destruct (IH (fun k' Hk' => Hpost k' (or_intror Hk'))
                 (record_trial settling_time sim_time MF_time k tr st))
      as (st' & E' & _ & Hkeep).
    exists st'. simpl. unfold threshold_step at 1. rewrite Etr. simpl bind.
    split; [exact E'|].
    assert (Hsome : threshold (record_trial settling_time sim_time MF_time k tr st)
                    <> None).
    { unfold record_trial. destruct (existsb (fun b => b) (tr_CR tr)); simpl; congruence. }
    split; intros _; apply Hkeep; exact Hsome.
Qed.

End ThresholdReturns.

(** [calculate_threshold] returns when the third population's rate record
    is there, the smoothed rate has one value per time, there is at least
    one trial, the stimulus window starts at or after the trial onset and
    every trial has a post-stimulus sample. *)
Lemma calculate_threshold_returns
  (gaussian_filter : list npfloat -> Q -> list npfloat)
  (instant_fr_l : list InstantFr) (trials : Z)
  (settling_time sim_time MF_time IO_time m1 q m2 : Q) (d : InstantFr) :
  nth_error instant_fr_l 2 = Some d ->
  length (gaussian_filter (mean_axis0 (instant_fr d)) 4) = length (if_times d) ->
  (1 <= trials)%Z ->
  0 <= MF_time + 100 ->
  (forall k, (0 <= k < trials)%Z ->
     filter (post_stimulus settling_time sim_time MF_time IO_time k) (if_times d) <> []) ->
  exists thr lr rts,
    calculate_threshold gaussian_filter instant_fr_l trials settling_time sim_time
                        MF_time IO_time m1 q m2 = Ok (thr, lr, rts).
Proof.
  intros Hd Hlen Htrials HMF Hpost. unfold calculate_threshold, smoothed_rate.
  rewrite Hd. simpl bind.
  destruct (threshold_fold_returns (if_times d)
              (gaussian_filter (mean_axis0 (instant_fr d)) 4)
              settling_time sim_time MF_time IO_time m1 q m2 Hlen HMF
              (py_range trials)
              (fun k Hk => Hpost k (proj1 (py_range_In trials k) Hk))
              (mkThrState None [] []))
    as (st' & E & Hne & _).
  rewrite E. simpl bind.
  destruct (threshold st') as [thr|] eqn:Et.
  - eauto.
  - exfalso. apply Hne; [|reflexivity].
    intros Hnil. apply (f_equal (@length Z)) in Hnil.
    rewrite py_range_length in Hnil. simpl in Hnil. lia.
Qed.

Lemma np_index_returns (n : nat) (i : Z) :
  (- Z.of_nat n <= i < Z.of_nat n)%Z -> exists r, np_index n i = Ok r.
Proof.
  intros Hi. unfold np_index.
  destruct ((0 <=? i) && (i <? Z.of_nat n))%Z eqn:E1; [eauto|].
  replace ((- Z.of_nat n <=? i) && (i <? 0))%Z with true; [eauto|].
  symmetry. apply andb_true_iff. apply andb_false_iff in E1. lia.
Qed.

Lemma isi_step_returns (t_start : Q) (t_end : option Q) (n : nat)
  (t_prev : list Q) (ISI_list : list (list Q)) (tt_ : Q) (idx : Z) :
  length t_prev = n -> length ISI_list = n ->
  (- Z.of_nat n <= idx < Z.of_nat n)%Z ->
  exists t_prev' ISI_list',
    isi_step t_start t_end (t_prev, ISI_list) (tt_, idx) = Ok (t_prev', ISI_list') /\
    length t_prev' = n /\ length ISI_list' = n.
Proof.
  intros H1 H2 Hidx. unfold isi_step.
  destruct (after_start t_start tt_); [|eauto].
  destruct (before_end t_end tt_); [|eauto].
  destruct (np_index_returns n idx Hidx) as (r & Hr).
  rewrite H1, H2, Hr. simpl bind.
  destruct (Qeq_bool (nth r t_prev 0) (-1)).
  - eexists _, _. split; [reflexivity|]. now rewrite list_update_length.
  - destruct (negb (Qeq_bool (tt_ - nth r t_prev 0) 0)); [|eauto].
    simpl bind. eexists _, _. split; [reflexivity|].
    now rewrite !list_update_length.
Qed.

(** [calculate_fr] returns when every raster belongs to a known, non-empty
    population and holds neuron ids of that population only. *)
Lemma calculate_fr_returns (np_sqrt : npfloat -> npfloat) (pop_dim_ids : PopDimIds)
  (t_start : Q) (t_end : option Q) (return_CV_name : bool) (raster_list : list Raster) :
  (forall raster, In raster raster_list ->
     exists first_id last_id,
       dict_get pop_dim_ids (compartment_name raster) = Ok (first_id, last_id) /\
       (first_id <= last_id)%Z /\
       forall id, In id (neurons_idx raster) -> (first_id <= id <= last_id)%Z) ->
  exists res,
    calculate_fr np_sqrt raster_list pop_dim_ids t_start t_end return_CV_name = Ok res.
Proof.
  unfold calculate_fr. generalize (mkFrLists [] [] []).
  induction raster_list as [|raster l IH]; intros acc Hwf; simpl; [eauto|].
  destruct (Hwf raster (or_introl eq_refl)) as (first_id & last_id & Hd & Hle & Hids).
  assert (HISI : exists ISI_list,
             ISI_of_raster pop_dim_ids t_start t_end raster = Ok ISI_list).
  { unfold ISI_of_raster. rewrite Hd. simpl bind.
    replace (last_id - first_id + 1 <? 0)%Z with false
      by (symmetry; apply Z.ltb_ge; lia).
    simpl bind.
    set (n := Z.to_nat (last_id - first_id + 1)).
    assert (Hfold : forall spikes t_prev ISI_list,
               length t_prev = n -> length ISI_list = n ->
               (forall it, In it spikes -> (- Z.of_nat n <= snd it < Z.of_nat n)%Z) ->
               exists st, foldM (isi_step t_start t_end) spikes (t_prev, ISI_list)
                          = Ok st).
    { induction spikes as [|[tt_ idx] spikes IHs]; intros t_prev ISI_list H1 H2 Hin;
        cbn [foldM]; [eauto|].
      destruct (isi_step_returns t_start t_end n t_prev ISI_list tt_ idx H1 H2
                  (Hin (tt_, idx) (or_introl eq_refl)))
        as (t_prev' & ISI_list' & E & H1' & H2').
      rewrite E. simpl bind. apply IHs; auto.
      intros it Hit. apply Hin. now right. }
    destruct (Hfold (combine (times raster)
                       (map (fun n0 => (n0 - first_id - 1)%Z) (neurons_idx raster)))
                    (repeat (- (1)) n) (repeat [] n)) as (st & Est).
    - apply repeat_length.
    - apply repeat_length.
    - intros [tt_ idx] Hit. apply in_combine_r in Hit.
      apply in_map_iff in Hit as (id & <- & Hid). specialize (Hids id Hid).
      simpl. unfold n. lia.
    - rewrite Est. simpl bind. eauto. }
  destruct HISI as (ISI_list & HISI).
  unfold calculate_fr_step at 1. rewrite HISI. simpl bind.
  destruct return_CV_name; simpl bind; apply IH; intros r Hr; apply Hwf; now right.
Qed.

(** * Further properties *)

(** ** Loops that append *)

Lemma mapM_length {A B : Type} (f : A -> result B) (xs : list A) (ys : list B) :
  mapM f xs = Ok ys -> length ys = length xs.
Proof.
  intros H. apply mapM_Forall2 in H. symmetry. now apply Forall2_length in H.
Qed.

Lemma mapM_first_raise {A B : Type} (f : A -> result B) (l1 l2 : list A) (x : A)
  (ys : list B) (e : exn) :
  mapM f l1 = Ok ys -> f x = Raise e -> mapM f (l1 ++ x :: l2) = Raise e.
Proof.
  revert ys. induction l1 as [|a l1 IH]; intros ys H Hx; simpl in *.
  - now rewrite Hx.
  - inv_bind H. inv_bind H. rewrite Hm. simpl. now rewrite (IH _ Hm0 Hx).
Qed.

Lemma mapM_returns {A B : Type} (f : A -> result B) (xs : list A) :
  (forall x, In x xs -> exists y, f x = Ok y) -> exists ys, mapM f xs = Ok ys.
Proof.
  induction xs as [|x xs IH]; intros H; simpl; [eauto|].
  destruct (H x (or_introl eq_refl)) as (y & ->).
  destruct IH as (ys & ->); [intros x' Hx'; apply H; now right|].
  simpl. eauto.
Qed.

(** ** [get_pop_dim_from_ids] *)

Lemma get_pop_dim_from_ids_mapM (pop_ids : PopDimIds) (pop_list : list string) :
  get_pop_dim_from_ids pop_list pop_ids = mapM (pop_dim_of pop_ids) pop_list.
Proof.
  unfold get_pop_dim_from_ids.
  assert (H : forall acc,
             foldM (fun dim_list pop =>
                      ' (first_id, last_id) <- dict_get pop_ids pop ;;
                      Ok (dim_list ++ [(last_id - first_id + 1)%Z]))
                   pop_list acc
             = ys <- mapM (pop_dim_of pop_ids) pop_list ;; Ok (acc ++ ys)).
  { induction pop_list as [|pop l IH]; intros acc; simpl.
    - now rewrite app_nil_r.
    - unfold pop_dim_of at 1. destruct (dict_get pop_ids pop) as [[a b]|e]; simpl;
        [|reflexivity].
      rewrite IH. destruct (mapM (pop_dim_of pop_ids) l); simpl; [|reflexivity].
      now rewrite <- app_assoc. }
  rewrite H. destruct (mapM (pop_dim_of pop_ids) pop_list); reflexivity.
Qed.

(** X1: [get_pop_dim_from_ids] raises [KeyError] at the first population
    name that is not a key of [pop_ids], whatever follows it. *)
Theorem get_pop_dim_from_ids_missing_key :
  forall (l1 l2 : list string) (pop : string) (pop_ids : PopDimIds),
    (forall p, In p l1 -> exists ids, dict_get pop_ids p = Ok ids) ->
    dict_get pop_ids pop = Raise KeyError ->
    get_pop_dim_from_ids (l1 ++ pop :: l2) pop_ids = Raise KeyError.
Proof.
  intros l1 l2 pop pop_ids Hl1 Hpop. rewrite get_pop_dim_from_ids_mapM.
  destruct (mapM_returns (pop_dim_of pop_ids) l1) as (ys & Hys).
  - intros p Hp. destruct (Hl1 p Hp) as ([a b] & E).
    unfold pop_dim_of. rewrite E. simpl. eauto.
  - apply (mapM_first_raise _ _ _ _ _ _ Hys).
    unfold pop_dim_of. now rewrite Hpop.
Qed.

Lemma get_pop_dim_from_ids_missing_key_witness :
  get_pop_dim_from_ids (["GR"%string] ++ "PC"%string :: ["DCN"%string])
                       [("GR"%string, (1, 10)%Z); ("DCN"%string, (11, 12)%Z)]
  = Raise KeyError.
Proof.
  apply (get_pop_dim_from_ids_missing_key ["GR"%string] ["DCN"%string] "PC"%string).
  - intros p [<-|[]]. eexists. reflexivity.
  - reflexivity.
Defined.

(** X2: the dimensions [get_pop_dim_from_ids] reports for the populations
    of a result of [fr_window_step] are the numbers of rows of its rate
    matrices, in the same order. *)
Theorem get_pop_dim_from_ids_rows :
  forall (raster_list : list Raster) (pop_dim_ids : PopDimIds)
         (sim_time window step start_time : Q) (ret_list : list InstantFr),
    fr_window_step raster_list pop_dim_ids sim_time window step start_time
      = Ok ret_list ->
    get_pop_dim_from_ids (map name ret_list) pop_dim_ids
    = Ok (map (fun d => Z.of_nat (nrows (instant_fr d))) ret_list).
Proof.
  intros raster_list pop_dim_ids sim_time window step start_time ret_list H.
  rewrite get_pop_dim_from_ids_mapM.
  apply mapM_Forall2 in H.
  induction H as [|raster ret l l' Hx _ IH]; [reflexivity|].
  apply fr_window_step_raster_shape in Hx
    as (first_id & last_id & Hd & Hr & _ & _ & _ & _ & Hn).
  simpl. unfold pop_dim_of at 1. rewrite Hn, Hd. simpl. rewrite IH. simpl.
  now rewrite Hr.
Qed.

Lemma get_pop_dim_from_ids_rows_witness :
  let pop_dim_ids := [("GR"%string, (1, 4)%Z); ("PC"%string, (5, 6)%Z)] in
  let raster_list := [mkRaster "PC" [3; 12] [5; 6]%Z; mkRaster "GR" [7] [2]%Z] in
  exists ret_list,
    fr_window_step raster_list pop_dim_ids 20 10 5 0 = Ok ret_list /\
    get_pop_dim_from_ids (map name ret_list) pop_dim_ids
    = Ok (map (fun d => Z.of_nat (nrows (instant_fr d))) ret_list).
Proof.
  intros pop_dim_ids raster_list.
  destruct (fr_window_step raster_list pop_dim_ids 20 10 5 0) as [ret_list|e] eqn:E;
    [|vm_compute in E; discriminate].
  exists ret_list. split; [reflexivity|].
  exact (get_pop_dim_from_ids_rows raster_list pop_dim_ids 20 10 5 0 ret_list E).
Defined.

(** ** [rectangular] *)

Lemma fdiv_Fin (x y : Q) : ~ y == 0 -> fdiv (Fin x) (Fin y) = Fin (x / y).
Proof.
  intros Hy. simpl. destruct (Qeq_bool y 0) eqn:E; [|reflexivity].
  apply Qeq_bool_eq in E. contradiction.
Qed.

Lemma rect_value_inside (center widht el : Q) :
  rect_value center widht el = if rect_inside center widht el then 1 else 0.
Proof.
  unfold rect_value, rect_inside.
  destruct (Qltb el (center - widht / 2)); simpl; [reflexivity|].
  destruct (Qltb (center + widht / 2) el); reflexivity.
Qed.

Lemma Qsum_rect_values (center widht : Q) (x : list Q) :
  Qsum (map (rect_value center widht) x)
  == inject_Z (Z.of_nat (length (filter (rect_inside center widht) x))).
Proof.
  induction x as [|el x IH]; [reflexivity|].
  cbn [map filter]. rewrite Qsum_cons, IH, rect_value_inside.
  destruct (rect_inside center widht el); cbn [length].
  - rewrite Nat2Z.inj_succ. unfold Z.succ. rewrite inject_Z_plus.
    inj_consts. ring.
  - ring.
Qed.

Lemma fsum_Fin_map (f : Q -> Q) (l : list Q) (a : Q) :
  fold_left fadd (map (fun v => Fin (f v)) l) (Fin a)
  = Fin (fold_left Qplus (map f l) a).
Proof.
  revert a. induction l as [|v l IH]; intros a; simpl; [reflexivity|]. apply IH.
Qed.

Lemma Qsum_scaled (s : Q) (l : list Q) :
  Qsum (map (fun v => v / s) l) == Qsum l / s.
Proof.
  induction l as [|v l IH].
  - unfold Qsum; simpl. unfold Qdiv. ring.
  - cbn [map]. rewrite !Qsum_cons, IH. unfold Qdiv. ring.
Qed.

(** X3: when at least one element of [x] lies in the closed window
    [[center - widht/2, center + widht/2]], [rectangular] gives every
    element inside the window the weight [1/n], [n] the number of elements
    inside, every other element the weight 0, and the weights sum to 1. *)
Theorem rectangular_normalised :
  forall (x : list Q) (center widht : Q),
    let n := length (filter (rect_inside center widht) x) in
    (0 < n)%nat ->
    (forall i el,
        nth_error x i = Some el ->
        exists v,
          nth_error (rectangular x center widht) i = Some (Fin v) /\
          v == if rect_inside center widht el
               then 1 / inject_Z (Z.of_nat n) else 0) /\
    exists s, fsum (rectangular x center widht) = Fin s /\ s == 1.
Proof.
  intros x center widht n Hn.
  pose proof (Qsum_rect_values center widht x) as HS. fold n in HS.
  assert (Hnz : ~ Qsum (map (rect_value center widht) x) == 0).
  { rewrite HS. apply inject_Z_nonzero. lia. }
  assert (Hmap : rectangular x center widht
                 = map (fun v => Fin (v / Qsum (map (rect_value center widht) x)))
                       (map (rect_value center widht) x)).
  { unfold rectangular. apply map_ext. intros v. now apply fdiv_Fin. }
  split.
  - intros i el Hi. rewrite Hmap, !nth_error_map, Hi. simpl.
    eexists. split; [reflexivity|]. rewrite HS, rect_value_inside.
    destruct (rect_inside center widht el); [reflexivity|].
    unfold Qdiv. ring.
  - rewrite Hmap. unfold fsum. rewrite fsum_Fin_map.
    eexists. split; [reflexivity|].
    change (fold_left Qplus ?l 0) with (Qsum l).
    rewrite Qsum_scaled. field. exact Hnz.
Qed.

Lemma rectangular_normalised_witness :
  (forall i el,
      nth_error [30; 40; 42; 45; 50] i = Some el ->
      exists v,
        nth_error (rectangular [30; 40; 42; 45; 50] (85 # 2) 5) i = Some (Fin v) /\
        v == if rect_inside (85 # 2) 5 el then 1 / inject_Z (Z.of_nat 3) else 0) /\
  exists s, fsum (rectangular [30; 40; 42; 45; 50] (85 # 2) 5) = Fin s /\ s == 1.
Proof.
  apply (rectangular_normalised [30; 40; 42; 45; 50] (85 # 2) 5).
  vm_compute. lia.
Defined.

(** X4: when no element of [x] lies in the window, [rectangular] divides
    zeros by their zero sum: every weight it returns is [NaN]. *)
Theorem rectangular_no_element :
  forall (x : list Q) (center widht : Q),
    filter (rect_inside center widht) x = [] ->
    rectangular x center widht = repeat NaN (length x).
Proof.
  intros x center widht Hnone.
  pose proof (Qsum_rect_values center widht x) as HS. rewrite Hnone in HS.
  unfold rectangular.
  assert (Hz : Qeq_bool (Qsum (map (rect_value center widht) x)) 0 = true)
    by (apply Qeq_bool_iff; exact HS).
  assert (Hall : forall el, In el x -> rect_value center widht el = 0).
  { intros el Hel. rewrite rect_value_inside.
    destruct (rect_inside center widht el) eqn:E; [|reflexivity].
    assert (Hin : In el (filter (rect_inside center widht) x))
      by (apply filter_In; auto).
    rewrite Hnone in Hin. destruct Hin. }
  set (S := Qsum (map (rect_value center widht) x)) in *. clearbody S.
  induction x as [|el x IH]; [reflexivity|].
  cbn [map length repeat]. f_equal.
  - rewrite (Hall el (or_introl eq_refl)). simpl. now rewrite Hz.
  - apply IH.
    + simpl in Hnone. destruct (rect_inside center widht el); [discriminate|assumption].
    + intros el' Hel'. apply Hall. now right.
Qed.

Lemma rectangular_no_element_witness :
  rectangular [30; 40; 50] 100 5 = repeat NaN (length [30; 40; 50]).
Proof.
  apply (rectangular_no_element [30; 40; 50] 100 5). reflexivity.
Defined.

(** ** [calculate_fourier_idx] *)

Lemma py_min_fold (l : list Q) (m0 : Q) :
  let r := fold_left (fun m y => if Qltb y m then y else m) l m0 in
  (r = m0 \/ In r l) /\ r <= m0 /\ forall x, In x l -> r <= x.
Proof.
  revert m0. induction l as [|y l IH]; intros m0; simpl.
  - split; [now left|]. split; [apply Qle_refl | intros x []].
  - destruct (Qltb y m0) eqn:E.
    + apply Qltb_lt in E. destruct (IH y) as ([H1|H1] & H2 & H3).
      * split; [right; left; now rewrite H1|]. split; [lra|].
        intros x [<-|Hx]; [exact H2 | now apply H3].
      * split; [right; now right|]. split; [lra|].
        intros x [<-|Hx]; [exact H2 | now apply H3].
    + assert (Hle : m0 <= y).
      { apply Qnot_lt_le. intros Hlt. apply Qltb_lt in Hlt. congruence. }
      destruct (IH m0) as ([H1|H1] & H2 & H3).
      * split; [now left|]. split; [exact H2|].
        intros x [<-|Hx]; [lra | now apply H3].
      * split; [right; now right|]. split; [exact H2|].
        intros x [<-|Hx]; [lra | now apply H3].
Qed.

Lemma py_min_spec (xs : list Q) (m : Q) :
  py_min xs = Ok m -> In m xs /\ forall x, In x xs -> m <= x.
Proof.
  destruct xs as [|x0 xs]; simpl; [discriminate|].
  intros H; inversion H; subst; clear H.
  destruct (py_min_fold xs x0) as ([H1|H1] & H2 & H3).
  - split; [left; now rewrite H1|]. intros x [<-|Hx]; [exact H2 | now apply H3].
  - split; [now right|]. intros x [<-|Hx]; [exact H2 | now apply H3].
Qed.

Lemma first_true_from_spec (mask : list bool) :
  forall i j,
    first_true_from i mask = Ok j ->
    exists k, j = (i + k)%nat /\ nth_error mask k = Some true /\
              forall k', (k' < k)%nat -> nth_error mask k' = Some false.
Proof.
  induction mask as [|b mask IH]; intros i j H; simpl in H; [discriminate|].
  destruct b.
  - inversion H; subst. exists 0%nat. split; [lia|]. split; [reflexivity|].
    intros k' Hk'. lia.
  - apply IH in H as (k & -> & Hk & Hbefore). exists (S k).
    split; [lia|]. split; [exact Hk|].
    intros [|k'] Hk'; simpl; [reflexivity|]. apply Hbefore. lia.
Qed.

Lemma first_true_from_returns (mask : list bool) :
  In true mask -> forall i, exists j, first_true_from i mask = Ok j.
Proof.
  induction mask as [|b mask IH]; intros Hin i; [destruct Hin|].
  simpl. destruct b; [eauto|].
  destruct Hin as [Hin|Hin]; [discriminate|]. now apply IH.
Qed.

Section FourierIdx.

Variables (xf : list Q) (lower upper : Q).

(** What the two indices returned are: [lo] is the first sample within
    0.01 of the least distance to [lower], [hi - 1] the first sample at the
    least distance to [upper]. *)
Lemma calculate_fourier_idx_inv (lo hi : nat) :
  calculate_fourier_idx xf (lower, upper) = Ok (lo, hi) ->
  (lo < length xf)%nat /\ (0 < hi <= length xf)%nat /\
  (forall x, In x xf ->
             Qabs (nth lo xf 0 - lower) <= Qabs (x - lower) + (1 # 100)) /\
  (forall j, (j < lo)%nat ->
             exists x, In x xf /\
                       Qabs (x - lower) + (1 # 100) < Qabs (nth j xf 0 - lower)) /\
  (forall x, In x xf -> Qabs (nth (hi - 1) xf 0 - upper) <= Qabs (x - upper)) /\
  (forall j, (j < hi - 1)%nat ->
             exists x, In x xf /\ Qabs (x - upper) < Qabs (nth j xf 0 - upper)).
Proof.
  unfold calculate_fourier_idx. cbn [fst snd]. intros H.
  apply bind_Ok_inv in H as (m & Hm & H).
  apply bind_Ok_inv in H as (min_idx & Hlo & H).
  apply bind_Ok_inv in H as (m' & Hm' & H).
  apply bind_Ok_inv in H as (max_idx & Hhi & H).
  inversion H; subst lo hi; clear H.
  apply py_min_spec in Hm as [Hm_in Hm_le].
  apply py_min_spec in Hm' as [Hm'_in Hm'_le].
  apply first_true_from_spec in Hlo as (k & -> & Hk & Hk_first).
  apply first_true_from_spec in Hhi as (k' & -> & Hk' & Hk'_first).
  simpl plus. replace (k' + 1 - 1)%nat with k' by lia.
  rewrite !map_map in *.
  rewrite nth_error_map in Hk, Hk'.
  destruct (nth_error xf k) as [xk|] eqn:Ek; [|discriminate].
  destruct (nth_error xf k') as [xk'|] eqn:Ek'; [|discriminate].
  cbn [option_map] in Hk, Hk'. assert (Hk1 : Qle_bool (Qabs (xk - lower)) m = true) by congruence.
  assert (Hk'1 : Qle_bool (Qabs (xk' - upper)) m' = true) by congruence.
  apply Qle_bool_iff in Hk1, Hk'1.
  assert (Hklt : (k < length xf)%nat) by (apply nth_error_Some; congruence).
  assert (Hk'lt : (k' < length xf)%nat) by (apply nth_error_Some; congruence).
  rewrite (nth_error_nth _ _ 0 Ek), (nth_error_nth _ _ 0 Ek').
  split; [assumption|]. split; [lia|].
  apply in_map_iff in Hm_in as (xm & Hxm & Hxm_in).
  apply in_map_iff in Hm'_in as (xm' & Hxm' & Hxm'_in).
  split; [|split; [|split]].
  - intros x Hx.
    specialize (Hm_le (Qabs (x - lower) + (1 # 100))
                      (in_map (fun x => Qabs (x - lower) + (1 # 100)) _ _ Hx)).
    cbv beta in Hm_le. lra.
  - intros j Hj. specialize (Hk_first j Hj). rewrite nth_error_map in Hk_first.
    destruct (nth_error xf j) as [xj|] eqn:Ej; [|discriminate].
    cbn [option_map] in Hk_first.
    assert (Hf : Qle_bool (Qabs (xj - lower)) m = false) by congruence.
    exists xm. split; [assumption|]. rewrite (nth_error_nth _ _ 0 Ej).
    apply Qnot_le_lt. intros Hle. rewrite Hxm in Hle.
    apply Qle_bool_iff in Hle. congruence.
  - intros x Hx.
    specialize (Hm'_le (Qabs (x - upper)) (in_map (fun x => Qabs (x - upper)) _ _ Hx)).
    lra.
  - intros j Hj. specialize (Hk'_first j Hj). rewrite nth_error_map in Hk'_first.
    destruct (nth_error xf j) as [xj|] eqn:Ej; [|discriminate].
    cbn [option_map] in Hk'_first.
    assert (Hf : Qle_bool (Qabs (xj - upper)) m' = false) by congruence.
    exists xm'. split; [assumption|]. rewrite (nth_error_nth _ _ 0 Ej).
    apply Qnot_le_lt. intros Hle. rewrite Hxm' in Hle.
    apply Qle_bool_iff in Hle. congruence.
Qed.

Lemma calculate_fourier_idx_returns :
  xf <> [] -> exists lo hi, calculate_fourier_idx xf (lower, upper) = Ok (lo, hi).
Proof.
  intros Hne. unfold calculate_fourier_idx. cbn [fst snd].
  destruct (py_min (map (fun d => d + (1 # 100)) (map (fun x => Qabs (x - lower)) xf)))
    as [m|e] eqn:Em; [|destruct xf; [contradiction | discriminate]].
  cbn [bind].
  pose proof (py_min_spec _ _ Em) as [Hm_in Hm_le].
  rewrite map_map in Hm_in. apply in_map_iff in Hm_in as (xm & Hxm & Hxm_in).
  destruct (first_true_from_returns
              (map (fun d => Qle_bool d m) (map (fun x => Qabs (x - lower)) xf)))
    with (i := 0%nat) as (lo & Elo).
  { rewrite map_map. apply in_map_iff. exists xm. split; [|assumption].
    apply Qle_bool_iff. rewrite <- Hxm. lra. }
  unfold np_where_first. rewrite Elo. cbn [bind].
  destruct (py_min (map (fun x => Qabs (x - upper)) xf))
    as [m'|e] eqn:Em'; [|destruct xf; [contradiction | discriminate]].
  cbn [bind].
  pose proof (py_min_spec _ _ Em') as [Hm'_in Hm'_le].
  apply in_map_iff in Hm'_in as (xm' & Hxm' & Hxm'_in).
  destruct (first_true_from_returns
              (map (fun d => Qle_bool d m') (map (fun x => Qabs (x - upper)) xf)))
    with (i := 0%nat) as (hi & Ehi).
  { rewrite map_map. apply in_map_iff. exists xm'. split; [|assumption].
    apply Qle_bool_iff. rewrite <- Hxm'. apply Qle_refl. }
  rewrite Ehi. cbn [bind]. eauto.
Qed.

End FourierIdx.

(** X5: on an empty frequency axis [calculate_fourier_idx] raises
    [ValueError]; otherwise it returns a pair [(lo, hi)] of positions
    within the axis, [hi - 1] being the first sample closest to the upper
    bound and [lo] the first sample whose distance to the lower bound is
    within 0.01 of the least one. *)
Theorem calculate_fourier_idx_closest :
  forall (xf : list Q) (lower upper : Q),
    (xf = [] -> calculate_fourier_idx xf (lower, upper) = Raise ValueError) /\
    (xf <> [] ->
     exists lo hi,
       calculate_fourier_idx xf (lower, upper) = Ok (lo, hi) /\
       (lo < length xf)%nat /\ (0 < hi <= length xf)%nat /\
       (forall x, In x xf ->
                  Qabs (nth lo xf 0 - lower) <= Qabs (x - lower) + (1 # 100)) /\
       (forall j, (j < lo)%nat ->
                  exists x, In x xf /\
                            Qabs (x - lower) + (1 # 100) < Qabs (nth j xf 0 - lower)) /\
       (forall x, In x xf -> Qabs (nth (hi - 1) xf 0 - upper) <= Qabs (x - upper)) /\
       (forall j, (j < hi - 1)%nat ->
                  exists x, In x xf /\ Qabs (x - upper) < Qabs (nth j xf 0 - upper))).
Proof.
  intros xf lower upper. split.
  - intros ->. reflexivity.
  - intros Hne.
    destruct (calculate_fourier_idx_returns xf lower upper Hne) as (lo & hi & E).
    exists lo, hi. split; [exact E|]. now apply calculate_fourier_idx_inv.
Qed.

Lemma calculate_fourier_idx_closest_witness :
  exists lo hi,
    calculate_fourier_idx [17; 18; 19; 20; 21; 22] (18, (41 # 2)) = Ok (lo, hi) /\
    (lo < 6)%nat /\ (0 < hi <= 6)%nat.
Proof.
  destruct (proj2 (calculate_fourier_idx_closest [17; 18; 19; 20; 21; 22] 18 (41 # 2)))
    as (lo & hi & E & Hlo & Hhi & _).
  - discriminate.
  - exists lo, hi. auto.
Defined.

Lemma Qabs_cases (z : Q) : (0 <= z /\ Qabs z == z) \/ (z <= 0 /\ Qabs z == - z).
Proof.
  destruct (Qlt_le_dec z 0) as [H|H].
  - right. split; [lra|]. apply Qabs_neg. lra.
  - left. split; [assumption|]. now apply Qabs_pos.
Qed.

Lemma sorted_nth_le (l : list Q) :
  StronglySorted Qle l ->
  forall i j, (i < j)%nat -> (j < length l)%nat -> nth i l 0 <= nth j l 0.
Proof.
  induction 1 as [|a l Hs IH Ha]; intros i j Hij Hj; simpl in Hj; [lia|].
  destruct j as [|j]; [lia|]. destruct i as [|i]; simpl.
  - rewrite Forall_forall in Ha. apply Ha. apply nth_In. lia.
  - apply IH; lia.
Qed.

(** X6: on an ascending frequency axis and a band with
    [lower <= upper], the two positions satisfy [lo < hi]: the slice
    [xf[lo:hi]] that the callers take is never empty. *)
Theorem calculate_fourier_idx_band_not_empty :
  forall (xf : list Q) (lower upper : Q) (lo hi : nat),
    StronglySorted Qle xf ->
    lower <= upper ->
    calculate_fourier_idx xf (lower, upper) = Ok (lo, hi) ->
    (lo < hi)%nat.
Proof.
  intros xf lower upper lo hi Hsorted Hband H.
  apply calculate_fourier_idx_inv in H
    as (Hlo & Hhi & Hlo_near & Hlo_first & Hhi_min & _).
  destruct (Nat.lt_ge_cases lo hi) as [Hlt|Hge]; [assumption|exfalso].
  assert (Hi : (hi - 1 < lo)%nat) by lia.
  destruct (Hlo_first (hi - 1)%nat Hi) as (x & Hx & Hfar).
  specialize (Hlo_near x Hx).
  pose proof (sorted_nth_le xf Hsorted (hi - 1) lo Hi Hlo) as Hord.
  specialize (Hhi_min (nth lo xf 0) (nth_In xf 0 Hlo)).
  set (a := nth (hi - 1) xf 0) in *. set (b := nth lo xf 0) in *.
  clearbody a b.
  destruct (Qabs_cases (a - lower)) as [[? Ea]|[? Ea]];
    destruct (Qabs_cases (b - lower)) as [[? Eb]|[? Eb]];
    destruct (Qabs_cases (a - upper)) as [[? Ec]|[? Ec]];
    destruct (Qabs_cases (b - upper)) as [[? Ed]|[? Ed]];
    rewrite Ea in *; rewrite Eb in *; rewrite Ec in *; rewrite Ed in *;
    set (d := Qabs (x - lower)) in *; clearbody d; lra.
Qed.

Lemma calculate_fourier_idx_band_not_empty_witness :
  exists lo hi,
    calculate_fourier_idx [17; 18; 19; 20; 21; 22] (18, (41 # 2)) = Ok (lo, hi) /\
    (lo < hi)%nat.
Proof.
  destruct (calculate_fourier_idx [17; 18; 19; 20; 21; 22] (18, (41 # 2)))
    as [[lo hi]|e] eqn:E; [|vm_compute in E; discriminate].
  exists lo, hi. split; [reflexivity|].
  apply (calculate_fourier_idx_band_not_empty [17; 18; 19; 20; 21; 22] 18 (41 # 2)
           lo hi); [| vm_compute; discriminate | exact E].
  repeat (apply SSorted_cons; [|repeat (constructor; [vm_compute; discriminate|]);
                                 constructor]).
  apply SSorted_nil.
Defined.

(** ** [fr_window_step]: which bins count a spike *)

(** X10: a spike that falls less than one [step] before the first window
    is still counted, in bin 0, although the window of bin 0 does not
    hold it: [int()] truncates the negative quotient of line 225 to 0. *)
Theorem spike_before_first_window_is_counted :
  forall (window step start_time time : Q) (elem_len : Z),
    0 < window -> 0 < step -> (1 <= elem_len)%Z ->
    start_time - window / 2 - step < time ->
    time < start_time - window / 2 ->
    exists h,
      spike_windows window step start_time time = Ok (0%Z, h) /\
      spike_bins elem_len (0%Z, h) = [0%Z] /\
      ~ window_holds window step start_time 0 time.
Proof.
  intros window step start_time time elem_len Hw Hs Hlen Hlo Hhi.
  assert (Hs0 : ~ step == 0) by lra.
  destruct (spike_windows_returns window step start_time time Hs0) as ([L h] & E).
  pose proof (how_many_wind_before_nonneg _ _ _ _ _ _ Hw Hs E) as Hh0.
  pose proof (spike_windows_inv _ _ _ _ _ _ E) as (_ & HL & _).
  assert (HL0 : L = 0%Z).
  { set (X := (time - start_time + window / 2) / step) in *.
    assert (HX : time - start_time + window / 2 == X * step)
      by (unfold X; field; exact Hs0).
    assert (Hw2 : window == 2 * (window / 2)) by field.
    set (w2 := window / 2) in *. clearbody w2.
    assert (HX1 : -1 < X).
    { apply Qnot_le_lt. intros Hle.
      assert (X * step <= -1 * step) by (apply Qmult_le_compat_r; lra). lra. }
    assert (HX2 : X < 0).
    { apply Qnot_le_lt. intros Hle.
      assert (0 * step <= X * step) by (apply Qmult_le_compat_r; lra). lra. }
    clearbody X. rewrite HL, py_int_nonpos by lra.
    assert (Qceiling X <= 0)%Z by (apply Qceiling_le; inj_consts; lra).
    assert (-1 < Qceiling X)%Z by (apply Qceiling_gt; inj_consts; lra).
    lia. }
  clear HL. subst L. exists h. split; [exact E|]. split.
  - unfold spike_bins, spike_elems, py_range. cbn [fst snd].
    replace (Z.to_nat (h + 1)) with (S (Z.to_nat h)) by lia.
    cbn [seq map filter].
    replace (in_range elem_len (0 - Z.of_nat 0)) with true
      by (symmetry; unfold in_range; apply andb_true_iff; simpl; lia).
    f_equal. rewrite map_map.
    assert (Hnone : forall l,
               Forall (fun n => (1 <= n)%nat) l ->
               filter (in_range elem_len) (map (fun x => (0 - Z.of_nat x)%Z) l) = []).
    { induction l as [|n l IH]; intros Hl; [reflexivity|].
      inversion Hl; subst. simpl.
      replace (in_range elem_len (- Z.of_nat n)) with false; [now apply IH|].
      symmetry. unfold in_range. apply andb_false_iff. left. apply Z.leb_gt. lia. }
    apply Hnone. apply Forall_forall. intros n Hn. apply in_seq in Hn. lia.
  - unfold window_holds. inj_consts. intros [H1 _].
    assert (Hw2 : window == 2 * (window / 2)) by field.
    set (w2 := window / 2) in *. clearbody w2. lra.
Qed.

Lemma spike_before_first_window_is_counted_witness :
  exists h,
    spike_windows 10 5 100 93 = Ok (0%Z, h) /\
    spike_bins 21 (0%Z, h) = [0%Z] /\
    ~ window_holds 10 5 100 0 93.
Proof.
  apply (spike_before_first_window_is_counted 10 5 100 93 21);
    try reflexivity; try lia.
Defined.

(** ** [fr_window_step]: the values of the rate matrix *)

Lemma arr2_incr_nonneg (m m' : ndarray2 Z) (i j : Z) :
  arr2_incr m i j = Ok m' -> nonneg_counts m -> nonneg_counts m'.
Proof.
  unfold arr2_incr, nonneg_counts. intros H Hm. inv_bind H. inv_bind H.
  inversion H; subst; clear H. simpl.
  apply list_update_Forall; [|assumption].
  intros row Hrow. apply list_update_Forall; [|assumption].
  intros v Hv. lia.
Qed.

Lemma firing_nonneg (window step start_time : Q) (elem_len : Z)
  (spikes : list (Z * Q)) :
  forall m m' : ndarray2 Z,
    foldM (spike_step window step start_time elem_len) spikes m = Ok m' ->
    nonneg_counts m -> nonneg_counts m'.
Proof.
  induction spikes as [|[index time] l IH]; intros m m' H Hm; cbn [foldM] in H.
  - inversion H; subst; assumption.
  - apply bind_Ok_inv in H as (m1 & Hstep & H). apply (IH _ _ H). clear H IH.
    rewrite spike_step_bins in Hstep.
    apply bind_Ok_inv in Hstep as (lw & _ & Hfold).
    revert m Hm Hfold. generalize (spike_bins elem_len lw).
    intros bins. induction bins as [|e bins IH]; intros m Hm H; simpl in H.
    + inversion H; subst; assumption.
    + apply bind_Ok_inv in H as (m2 & Hincr & H). apply (IH m2); [|assumption].
      eapply arr2_incr_nonneg; eassumption.
Qed.

Lemma fr_window_step_raster_counts (pop_dim_ids : PopDimIds)
  (sim_time window step start_time : Q) (raster : Raster) (ret : InstantFr) :
  fr_window_step_raster pop_dim_ids sim_time window step start_time raster = Ok ret ->
  exists firing,
    nonneg_counts firing /\
    instant_fr ret
    = arr2_map (fun c => fdiv (Fin (inject_Z c)) (Fin (window / 1000))) firing.
Proof.
  unfold fr_window_step_raster. intros H.
  apply bind_Ok_inv in H as ([first_id last_id] & _ & H). cbv zeta in H.
  apply bind_Ok_inv in H as (elem_len & _ & H).
  apply bind_Ok_inv in H as (firing0 & Hzeros & H).
  apply bind_Ok_inv in H as (firing & Hfold & H).
  apply bind_Ok_inv in H as (ts & _ & H).
  inversion H; subst; clear H. cbn [instant_fr].
  exists firing. split; [|reflexivity].
  eapply firing_nonneg; [eassumption|].
  apply np_zeros_shape in Hzeros as (_ & _ & _ & _ & _ & Hz).
  unfold nonneg_counts. eapply Forall_impl; [|exact Hz].
  intros row Hrow. eapply Forall_impl; [|exact Hrow]. intros v ->. lia.
Qed.

(** X11: for a window length that is not zero, every entry of a rate
    matrix returned by [fr_window_step] is a spike count, a natural number
    [k], times [1000/window]. *)
Theorem rate_entries_are_scaled_counts :
  forall (raster_list : list Raster) (pop_dim_ids : PopDimIds)
         (sim_time window step start_time : Q) (ret_list : list InstantFr),
    fr_window_step raster_list pop_dim_ids sim_time window step start_time
      = Ok ret_list ->
    ~ window == 0 ->
    forall ret row v,
      In ret ret_list -> In row (rows (instant_fr ret)) -> In v row ->
      exists k, (0 <= k)%Z /\ feq v (Fin (inject_Z k * (1000 / window))).
Proof.
  intros raster_list pop_dim_ids sim_time window step start_time ret_list H Hw
         ret row v Hret Hrow Hv.
  apply mapM_Forall2 in H.
  assert (Hone : exists raster,
             fr_window_step_raster pop_dim_ids sim_time window step start_time raster
             = Ok ret).
  { clear Hrow. induction H as [|raster ret' l l' Hx _ IH]; [destruct Hret|].
    destruct Hret as [->|Hret]; [eauto | now apply IH]. }
  destruct Hone as (raster & Hone).
  apply fr_window_step_raster_counts in Hone as (firing & Hnn & Erows).
  rewrite Erows in Hrow. cbn [arr2_map rows] in Hrow.
  apply in_map_iff in Hrow as (crow & <- & Hcrow).
  apply in_map_iff in Hv as (c & <- & Hc).
  exists c. split.
  - unfold nonneg_counts in Hnn. rewrite Forall_forall in Hnn.
    specialize (Hnn crow Hcrow). rewrite Forall_forall in Hnn. now apply Hnn.
  - assert (Hw' : ~ window / 1000 == 0).
    { intros E. apply Hw. setoid_replace window with (window / 1000 * 1000) by field.
      rewrite E. ring. }
    rewrite fdiv_Fin by exact Hw'. simpl. field. exact Hw.
Qed.

Lemma rate_entries_are_scaled_counts_witness :
  let pop_dim_ids := [("GR"%string, (1, 2)%Z)] in
  let raster_list := [mkRaster "GR" [10; 0; 3] [1; 2; 1]%Z] in
  exists ret_list,
    fr_window_step raster_list pop_dim_ids 20 10 5 0 = Ok ret_list /\
    forall ret row v,
      In ret ret_list -> In row (rows (instant_fr ret)) -> In v row ->
      exists k, (0 <= k)%Z /\ feq v (Fin (inject_Z k * (1000 / 10))).
Proof.
  intros pop_dim_ids raster_list.
  destruct (fr_window_step raster_list pop_dim_ids 20 10 5 0) as [ret_list|e] eqn:E;
    [|vm_compute in E; discriminate].
  exists ret_list. split; [reflexivity|].
  apply (rate_entries_are_scaled_counts raster_list pop_dim_ids 20 10 5 0 ret_list E).
  discriminate.
Defined.

(** ** [fr_window_step]: exceptions and return *)

(** X12: [fr_window_step] raises [KeyError] at the first raster whose
    population name is not a key of [pop_dim_ids], whatever the rasters
    after it. *)
Theorem fr_window_step_unknown_population :
  forall (pop_dim_ids : PopDimIds) (sim_time window step start_time : Q)
         (l1 l2 : list Raster) (raster : Raster) (ret1 : list InstantFr),
    fr_window_step l1 pop_dim_ids sim_time window step start_time = Ok ret1 ->
    dict_get pop_dim_ids (compartment_name raster) = Raise KeyError ->
    fr_window_step (l1 ++ raster :: l2) pop_dim_ids sim_time window step start_time
    = Raise KeyError.
Proof.
  intros pop_dim_ids sim_time window step start_time l1 l2 raster ret1 H1 Hd.
  unfold fr_window_step in *.
  apply (mapM_first_raise _ _ _ _ _ _ H1).
  unfold fr_window_step_raster. now rewrite Hd.
Qed.

Lemma fr_window_step_unknown_population_witness :
  let pop_dim_ids := [("GR"%string, (1, 2)%Z)] in
  fr_window_step ([mkRaster "GR" [3] [1%Z]] ++ mkRaster "PC" [4] [7%Z] :: [])
                 pop_dim_ids 20 10 5 0 = Raise KeyError.
Proof.
  intros pop_dim_ids.
  destruct (fr_window_step [mkRaster "GR" [3] [1%Z]] pop_dim_ids 20 10 5 0)
    as [ret1|e] eqn:E; [|vm_compute in E; discriminate].
  apply (fr_window_step_unknown_population pop_dim_ids 20 10 5 0
           [mkRaster "GR" [3] [1%Z]] [] (mkRaster "PC" [4] [7%Z]) ret1 E).
  reflexivity.
Defined.

(** X13: [fr_window_step] returns, with one entry per raster and the
    population names in the order of the rasters, when every raster is
    well formed, [step] is not zero and the simulation does not end more
    than one [step] before [start_time]. *)
Theorem fr_window_step_returns :
  forall (raster_list : list Raster) (pop_dim_ids : PopDimIds)
         (sim_time window step start_time : Q),
    (forall raster, In raster raster_list -> raster_well_formed pop_dim_ids raster) ->
    ~ step == 0 ->
    (0 <= py_int ((sim_time - start_time) / step) + 1)%Z ->
    exists ret_list,
      fr_window_step raster_list pop_dim_ids sim_time window step start_time
        = Ok ret_list /\
      length ret_list = length raster_list /\
      map name ret_list = map compartment_name raster_list.
Proof.
  intros raster_list pop_dim_ids sim_time window step start_time Hwf Hs Hlen.
  destruct (mapM_returns
              (fr_window_step_raster pop_dim_ids sim_time window step start_time)
              raster_list) as (ret_list & E).
  - intros raster Hr. destruct (Hwf raster Hr) as (a & b & Hd & Hab & Hids).
    apply (fr_window_step_raster_returns _ _ _ _ _ _ a b); auto. lia.
  - exists ret_list. split; [exact E|]. split; [eapply mapM_length; exact E|].
    apply mapM_Forall2 in E.
    induction E as [|raster ret l l' Hx _ IH]; [reflexivity|].
    simpl. f_equal.
    + now apply fr_window_step_raster_shape in Hx as (? & ? & _ & _ & _ & _ & _ & _ & Hn).
    + apply IH. intros r Hr. apply Hwf. now right.
Qed.

Lemma fr_window_step_returns_witness :
  let pop_dim_ids := [("GR"%string, (1, 4)%Z); ("PC"%string, (5, 6)%Z)] in
  let raster_list := [mkRaster "PC" [3; 12] [5; 6]%Z; mkRaster "GR" [7] [2]%Z] in
  exists ret_list,
    fr_window_step raster_list pop_dim_ids 20 10 5 0 = Ok ret_list /\
    length ret_list = length raster_list /\
    map name ret_list = map compartment_name raster_list.
Proof.
  intros pop_dim_ids raster_list.
  apply (fr_window_step_returns raster_list pop_dim_ids 20 10 5 0).
  - intros raster [<-|[<-|[]]].
    + exists 5%Z, 6%Z. split; [reflexivity|]. split; [lia|].
      intros id [<-|[<-|[]]]; lia.
    + exists 1%Z, 4%Z. split; [reflexivity|]. split; [lia|].
      intros id [<-|[]]; lia.
  - discriminate.
  - vm_compute. discriminate.
Defined.

(** ** [calculate_threshold]: the recorded values *)

Lemma trial_rt_range (times : list Q) (instf : list npfloat)
  (settling_time sim_time MF_time IO_time m1 q m2 : Q) (k : Z) (tr : Trial) :
  trial_of times instf settling_time sim_time MF_time IO_time m1 q m2 k = Ok tr ->
  let rt := trial_rt settling_time sim_time MF_time k tr in
  (trial_flag tr = false -> rt = - (1)) /\
  (trial_flag tr = true -> 100 < rt /\ rt <= IO_time - MF_time).
Proof.
  intros H rt. subst rt. unfold trial_rt. split; intros Hflag; rewrite Hflag;
    [reflexivity|].
  destruct (trial_CR_map2 _ _ _ _ _ _ _ _ _ _ _ H) as (_ & _ & Hlen).
  destruct (trial_of_inv _ _ _ _ _ _ _ _ _ _ _ H)
    as (_ & _ & _ & _ & Ht2 & _).
  destruct (first_crossing_found _ _ Hlen Hflag) as (t & Hfc). rewrite Hfc.
  apply first_crossing_spec in Hfc as (j & Hj & _).
  apply nth_error_In in Hj. rewrite Ht2 in Hj. apply filter_In in Hj as [_ Hj].
  unfold post_stimulus in Hj. apply andb_true_iff in Hj as [H1 H2].
  apply Qle_bool_iff in H1. apply Qltb_lt in H2.
  set (ks := inject_Z k * sim_time) in *. clearbody ks. split; lra.
Qed.

(** X14: in the result of [calculate_threshold], the reaction time of a
    trial recorded [False] is -1, and the reaction time of a trial
    recorded [True] lies in [(100, IO_time - MF_time]]: the first crossing
    is looked for from 100 ms after the stimulus onset up to [IO_time]. *)
Theorem reaction_time_range :
  forall (gaussian_filter : list npfloat -> Q -> list npfloat)
         (instant_fr_l : list InstantFr) (trials : Z)
         (settling_time sim_time MF_time IO_time m1 q m2 : Q)
         (thr : npfloat) (lr : list bool) (rts : list Q) (n : nat),
    calculate_threshold gaussian_filter instant_fr_l trials settling_time sim_time
                        MF_time IO_time m1 q m2 = Ok (thr, lr, rts) ->
    (n < Z.to_nat trials)%nat ->
    exists flag rt,
      nth_error lr n = Some flag /\ nth_error rts n = Some rt /\
      (flag = false -> rt = - (1)) /\
      (flag = true -> 100 < rt /\ rt <= IO_time - MF_time).
Proof.
  intros gf ifr trials settling_time sim_time MF_time IO_time m1 q m2
         thr lr rts n H Hn.
  destruct (calculate_threshold_trial gf ifr trials settling_time sim_time MF_time
              IO_time m1 q m2 thr lr rts (Z.of_nat n) H ltac:(lia))
    as (times & instf & tr & _ & Htr & Hlr & Hrt).
  rewrite Nat2Z.id in Hlr, Hrt.
  exists (trial_flag tr), (trial_rt settling_time sim_time MF_time (Z.of_nat n) tr).
  split; [assumption|]. split; [assumption|].
  exact (trial_rt_range _ _ _ _ _ _ _ _ _ _ _ Htr).
Qed.

Lemma reaction_time_range_witness :
  exists thr lr rts flag rt,
    calculate_threshold keep_filter example_instant_fr 2 0 300 0 300 1 (1 # 2) 1
    = Ok (thr, lr, rts) /\
    nth_error lr 0 = Some flag /\ nth_error rts 0 = Some rt /\
    (flag = false -> rt = - (1)) /\
    (flag = true -> 100 < rt /\ rt <= 300 - 0).
Proof.
  destruct (calculate_threshold keep_filter example_instant_fr 2 0 300 0 300 1 (1 # 2) 1)
    as [[[thr lr] rts]|e] eqn:E; [|vm_compute in E; discriminate].
  destruct (reaction_time_range keep_filter example_instant_fr 2 0 300 0 300 1 (1 # 2)
              1 thr lr rts 0%nat E ltac:(simpl; lia)) as (flag & rt & H).
  exists thr, lr, rts, flag, rt. split; [reflexivity | exact H].
Defined.

(** ** [calculate_threshold]: exceptions *)

(** X15: [calculate_threshold] raises [IndexError] when the list of rate
    records has fewer than three entries, and, with three or more,
    [UnboundLocalError] when [trials] is zero or negative: the threshold it
    returns is bound inside the loop over the trials only. *)
Theorem calculate_threshold_without_input :
  forall (gaussian_filter : list npfloat -> Q -> list npfloat)
         (instant_fr_l : list InstantFr) (trials : Z)
         (settling_time sim_time MF_time IO_time m1 q m2 : Q),
    ((length instant_fr_l < 3)%nat ->
     calculate_threshold gaussian_filter instant_fr_l trials settling_time sim_time
                         MF_time IO_time m1 q m2 = Raise IndexError) /\
    ((3 <= length instant_fr_l)%nat -> (trials <= 0)%Z ->
     calculate_threshold gaussian_filter instant_fr_l trials settling_time sim_time
                         MF_time IO_time m1 q m2 = Raise UnboundLocalError).
Proof.
  intros gf ifr trials settling_time sim_time MF_time IO_time m1 q m2. split.
  - intros Hlen. unfold calculate_threshold, smoothed_rate.
    replace (nth_error ifr 2) with (@None InstantFr); [reflexivity|].
    symmetry. apply nth_error_None. lia.
  - intros Hlen Htrials. unfold calculate_threshold, smoothed_rate.
    destruct (nth_error ifr 2) as [d|] eqn:E.
    + cbn [bind]. unfold py_range.
      replace (Z.to_nat trials) with 0%nat by lia. reflexivity.
    + apply nth_error_None in E. lia.
Qed.

Lemma calculate_threshold_without_input_witness :
  calculate_threshold keep_filter [empty_rates; example_rates] 2 0 300 0 300 1 (1 # 2) 1
  = Raise IndexError /\
  calculate_threshold keep_filter example_instant_fr 0 0 300 0 300 1 (1 # 2) 1
  = Raise UnboundLocalError.
Proof.
  split.
  - apply (proj1 (calculate_threshold_without_input keep_filter
                    [empty_rates; example_rates] 2 0 300 0 300 1 (1 # 2) 1)).
    simpl. lia.
  - apply (proj2 (calculate_threshold_without_input keep_filter
                    example_instant_fr 0 0 300 0 300 1 (1 # 2) 1)); simpl; lia.
Defined.

Lemma trial_of_empty_post_window (times : list Q) (instf : list npfloat)
  (settling_time sim_time MF_time IO_time m1 q m2 : Q) (k : Z) :
  length instf = length times ->
  filter (post_stimulus settling_time sim_time MF_time IO_time k) times = [] ->
  (2 <= length (filter (cumulative_window settling_time sim_time IO_time k) times))%nat ->
  trial_of times instf settling_time sim_time MF_time IO_time m1 q m2 k
  = Raise ValueError.
Proof.
  intros Hlen Hpost Hcum. unfold trial_of. rewrite !window_mask_map2. cbn [bind].
  fold (baseline_window settling_time sim_time MF_time k).
  fold (post_stimulus settling_time sim_time MF_time IO_time k).
  fold (cumulative_window settling_time sim_time IO_time k).
  destruct (np_select_returns
              (map (baseline_window settling_time sim_time MF_time k) times) instf)
    as (in_fr1 & E1); [now rewrite length_map|].
  destruct (np_select_returns
              (map (post_stimulus settling_time sim_time MF_time IO_time k) times) instf)
    as (in_fr2 & E2); [now rewrite length_map|].
  destruct (np_select_returns
              (map (cumulative_window settling_time sim_time IO_time k) times) instf)
    as (in_fr1c & E3); [now rewrite length_map|].
  rewrite E1. cbn [bind]. rewrite E2. cbn [bind]. rewrite E3. cbn [bind].
  rewrite broadcast2_same_length
    by (now rewrite !np_cumsum_length, repeat_length).
  cbn [bind].
  pose proof (np_select_empty _ _ _ _ E2 Hpost) as Hnil. subst in_fr2.
  assert (Hnc : length in_fr1c
                = length (filter (cumulative_window settling_time sim_time IO_time k)
                                 times))
    by (rewrite (np_select_length _ _ _ E3); apply filter_map_length).
  cbn [length slice_last].
  set (cum := map (fun x => fmul x (Fin m2))
                  (map2 fdiv (np_cumsum in_fr1c)
                        (np_cumsum (repeat (Fin 1) (length in_fr1c))))).
  assert (Hcl : length cum = length in_fr1c).
  { unfold cum. rewrite length_map, map2_length
      by (now rewrite !np_cumsum_length, repeat_length).
    apply np_cumsum_length. }
  clearbody cum. destruct cum as [|c1 [|c2 cum]]; simpl in Hcl; try lia.
  reflexivity.
Qed.

(** X16: when [IO_time <= MF_time + 100] no sample is a post-stimulus
    sample, [cum_mean[-0:]] is the whole cumulative mean, and
    [calculate_threshold] raises [ValueError] on its first trial as soon
    as two samples lie in the cumulative window of that trial. *)
Theorem calculate_threshold_no_post_stimulus_window :
  forall (gaussian_filter : list npfloat -> Q -> list npfloat)
         (instant_fr_l : list InstantFr) (trials : Z)
         (settling_time sim_time MF_time IO_time m1 q m2 : Q) (d : InstantFr),
    nth_error instant_fr_l 2 = Some d ->
    length (gaussian_filter (mean_axis0 (instant_fr d)) 4) = length (if_times d) ->
    (1 <= trials)%Z ->
    IO_time <= MF_time + 100 ->
    (2 <= length (filter (cumulative_window settling_time sim_time IO_time 0)
                         (if_times d)))%nat ->
    calculate_threshold gaussian_filter instant_fr_l trials settling_time sim_time
                        MF_time IO_time m1 q m2 = Raise ValueError.
Proof.
  intros gf ifr trials settling_time sim_time MF_time IO_time m1 q m2 d
         Hd Hlen Htrials HIO Hcum.
  unfold calculate_threshold, smoothed_rate. rewrite Hd. cbn [bind].
  unfold py_range. destruct (Z.to_nat trials) as [|n] eqn:En; [lia|].
  cbn [seq map foldM]. unfold threshold_step at 1.
  rewrite trial_of_empty_post_window; [reflexivity | assumption | | assumption].
  change (Z.of_nat 0) with 0%Z.
  assert (Hnone : forall l,
             filter (post_stimulus settling_time sim_time MF_time IO_time 0) l = []).
  { induction l as [|t l IH]; [reflexivity|]. cbn [filter].
    destruct (post_stimulus settling_time sim_time MF_time IO_time 0 t) eqn:E;
      [|exact IH].
    unfold post_stimulus in E. apply andb_true_iff in E as [E1 E2].
    apply Qle_bool_iff in E1. apply Qltb_lt in E2.
    change (inject_Z 0) with 0 in *. lra. }
  apply Hnone.
Qed.

Lemma calculate_threshold_no_post_stimulus_window_witness :
  calculate_threshold keep_filter example_instant_fr 1 0 300 0 100 1 (1 # 2) 1
  = Raise ValueError.
Proof.
  apply (calculate_threshold_no_post_stimulus_window keep_filter example_instant_fr
           1 0 300 0 100 1 (1 # 2) 1 example_rates);
    try reflexivity; try lia.
  vm_compute. discriminate.
Defined.

(** ** [calculate_threshold]: the trials are independent *)

Lemma threshold_fold_complete (times : list Q) (instf : list npfloat)
  (settling_time sim_time MF_time IO_time m1 q m2 : Q) (ks : list Z) (trs : list Trial) :
  Forall2 (fun k tr =>
             trial_of times instf settling_time sim_time MF_time IO_time m1 q m2 k
             = Ok tr) ks trs ->
  forall st,
    foldM (threshold_step times instf settling_time sim_time MF_time IO_time m1 q m2)
          ks st
    = Ok (mkThrState
            (fold_left (fun _ tr => Some (tr_threshold tr)) trs (threshold st))
            (logical_res st ++ map trial_flag trs)
            (reaction_times st
             ++ map (fun p => trial_rt settling_time sim_time MF_time (fst p) (snd p))
                    (combine ks trs))).
Proof.
  induction 1 as [|k tr ks trs Hk F IH]; intros st.
  - simpl. rewrite !app_nil_r. now destruct st.
  - cbn [foldM]. unfold threshold_step at 1. rewrite Hk. cbn [bind].
    rewrite (record_trial_append _ _ _ _ _ _ _ _ _ _ _ st Hk), IH. cbn.
    now rewrite <- !app_assoc.
Qed.

Lemma Forall2_firstn {A B : Type} (P : A -> B -> Prop) (n : nat) (xs : list A)
  (ys : list B) :
  Forall2 P xs ys -> Forall2 P (firstn n xs) (firstn n ys).
Proof.
  intros F. revert n. induction F as [|x y xs ys H F IH]; intros [|n]; simpl;
    constructor; auto.
Qed.

Lemma py_range_firstn (n n' : Z) :
  (n <= n')%Z -> py_range n = firstn (Z.to_nat n) (py_range n').
Proof.
  intros H. unfold py_range. rewrite firstn_map. f_equal.
  replace (Z.to_nat n') with (Z.to_nat n + (Z.to_nat n' - Z.to_nat n))%nat by lia.
  rewrite seq_app, firstn_app, length_seq, Nat.sub_diag, firstn_O, app_nil_r.
  symmetry. apply firstn_all2. rewrite length_seq. lia.
Qed.

(** X17: the trials of [calculate_threshold] do not depend on one another.
    When a run over [trials'] trials returns, a run over fewer trials (at
    least one) on the same data returns as well, and its flags and
    reaction times are the first [trials] of the longer run. *)
Theorem calculate_threshold_fewer_trials :
  forall (gaussian_filter : list npfloat -> Q -> list npfloat)
         (instant_fr_l : list InstantFr) (trials trials' : Z)
         (settling_time sim_time MF_time IO_time m1 q m2 : Q)
         (thr' : npfloat) (lr' : list bool) (rts' : list Q),
    calculate_threshold gaussian_filter instant_fr_l trials' settling_time sim_time
                        MF_time IO_time m1 q m2 = Ok (thr', lr', rts') ->
    (1 <= trials <= trials')%Z ->
    exists thr,
      calculate_threshold gaussian_filter instant_fr_l trials settling_time sim_time
                          MF_time IO_time m1 q m2
      = Ok (thr, firstn (Z.to_nat trials) lr', firstn (Z.to_nat trials) rts').
Proof.
  intros gf ifr trials trials' settling_time sim_time MF_time IO_time m1 q m2
         thr' lr' rts' H Hn.
  destruct (calculate_threshold_smoothed _ _ _ _ _ _ _ _ _ _ _ H)
    as (times & instf & Hs).
  destruct (calculate_threshold_inv _ _ _ _ _ _ _ _ _ _ _ _ _ _ _ Hs H)
    as (trs & F & Hlen & -> & -> & _).
  apply (Forall2_firstn _ (Z.to_nat trials)) in F.
  rewrite <- (py_range_firstn trials trials') in F by lia.
  unfold calculate_threshold. rewrite Hs. cbn [bind].
  rewrite (threshold_fold_complete _ _ _ _ _ _ _ _ _ _ _ F). cbn [bind].
  cbn [threshold logical_res reaction_times app].
  rewrite !firstn_map, combine_firstn, <- (py_range_firstn trials trials') by lia.
  rewrite fold_left_last_threshold.
  destruct (nth_error (firstn (Z.to_nat trials) trs)
                      (length (firstn (Z.to_nat trials) trs) - 1)) as [tr|] eqn:E.
  - eauto.
  - apply nth_error_None in E. rewrite length_firstn in E. lia.
Qed.

Lemma calculate_threshold_fewer_trials_witness :
  exists thr' lr' rts' thr,
    calculate_threshold keep_filter example_instant_fr 2 0 300 0 300 1 (1 # 2) 1
    = Ok (thr', lr', rts') /\
    calculate_threshold keep_filter example_instant_fr 1 0 300 0 300 1 (1 # 2) 1
    = Ok (thr, firstn 1 lr', firstn 1 rts').
Proof.
  destruct (calculate_threshold keep_filter example_instant_fr 2 0 300 0 300 1 (1 # 2) 1)
    as [[[thr' lr'] rts']|e] eqn:E; [|vm_compute in E; discriminate].
  destruct (calculate_threshold_fewer_trials keep_filter example_instant_fr 1 2
              0 300 0 300 1 (1 # 2) 1 thr' lr' rts' E ltac:(lia)) as (thr & H).
  exists thr', lr', rts', thr. split; [reflexivity | exact H].
Defined.

(** ** [fr_window_step] followed by [calculate_threshold] *)

Lemma post_stimulus_true (settling_time sim_time MF_time IO_time : Q) (k : Z) (t : Q) :
  post_stimulus settling_time sim_time MF_time IO_time k t = true <->
  settling_time + inject_Z k * sim_time + MF_time + 100 < t /\
  t <= settling_time + inject_Z k * sim_time + IO_time.
Proof.
  unfold post_stimulus. rewrite andb_true_iff, Qle_bool_iff, Qltb_lt. tauto.
Qed.

(** Samples taken every [step] from [start_time] up to [sim_time]: a
    window [(lo, hi]] at least one step long that lies in the sampled span
    holds a sample. *)
Lemma sample_in_window (sim_time step start_time lo hi : Q) (ts : list Q) :
  0 < step -> start_time <= lo -> lo + step <= hi -> hi <= sim_time ->
  Z.of_nat (length ts) = (py_int ((sim_time - start_time) / step) + 1)%Z ->
  (forall i, (i < length ts)%nat ->
             nth i ts 0 == start_time + inject_Z (Z.of_nat i) * step) ->
  exists t, In t ts /\ lo < t /\ t <= hi.
Proof.
  intros Hstep Hlo Hwin Hhi Hlen Hnth.
  assert (Hne : ~ step == 0) by lra.
  set (a := (lo - start_time) / step).
  set (b := (sim_time - start_time) / step) in *.
  assert (Ha : a * step == lo - start_time) by (unfold a; field; exact Hne).
  assert (Hb : b * step == sim_time - start_time) by (unfold b; field; exact Hne).
  assert (Ha0 : 0 <= a).
  { unfold a. apply Qle_shift_div_l; [exact Hstep | lra]. }
  assert (Hb0 : 0 <= b).
  { unfold b. apply Qle_shift_div_l; [exact Hstep | lra]. }
  rewrite (py_int_nonneg b Hb0) in Hlen.
  set (j := (Qfloor a + 1)%Z).
  assert (Hj0 : (0 <= Qfloor a)%Z) by (apply Qfloor_ge; exact Ha0).
  pose proof (Qfloor_le a) as Hfl. pose proof (Qlt_floor a) as Hfu.
  fold j in Hfu.
  assert (Hj : inject_Z j == inject_Z (Qfloor a) + 1).
  { unfold j. rewrite inject_Z_plus. reflexivity. }
  assert (H1 : a * step < inject_Z j * step)
    by (apply Qmult_lt_compat_r; assumption).
  assert (H2 : inject_Z (Qfloor a) * step <= a * step)
    by (apply Qmult_le_compat_r; [assumption | lra]).
  assert (H3 : inject_Z j * step == inject_Z (Qfloor a) * step + step)
    by (rewrite Hj; ring).
  assert (Hjb : inject_Z j <= b).
  { apply (Qmult_lt_0_le_reg_r _ _ step Hstep). lra. }
  apply Qfloor_ge in Hjb.
  assert (Hjn : (Z.to_nat j < length ts)%nat) by lia.
  exists (nth (Z.to_nat j) ts 0). split; [apply nth_In; exact Hjn|].
  rewrite (Hnth _ Hjn), Z2Nat.id by lia.
  clearbody a b j. split; lra.
Qed.

(** X18: the rate records of [fr_window_step] can be handed to
    [calculate_threshold].  With a smoothing filter that keeps the number
    of samples, at least three rasters, a positive [step], and trials whose
    post-stimulus windows [(MF_time + 100, IO_time]] are at least one
    [step] long and lie between [start_time] and the end [sim_time] of the
    sampled span, [calculate_threshold] returns on the list that
    [fr_window_step] returned. *)
Theorem fr_window_step_then_calculate_threshold :
  forall (gaussian_filter : list npfloat -> Q -> list npfloat)
         (raster_list : list Raster) (pop_dim_ids : PopDimIds)
         (sim_time window step start_time : Q) (instant_fr_l : list InstantFr)
         (trials : Z) (settling_time trial_time MF_time IO_time m1 q m2 : Q),
    (forall xs sigma, length (gaussian_filter xs sigma) = length xs) ->
    fr_window_step raster_list pop_dim_ids sim_time window step start_time
    = Ok instant_fr_l ->
    (3 <= length raster_list)%nat ->
    0 < step ->
    (1 <= trials)%Z ->
    0 <= trial_time ->
    0 <= MF_time + 100 ->
    MF_time + 100 + step <= IO_time ->
    start_time <= settling_time + MF_time + 100 ->
    settling_time + inject_Z (trials - 1) * trial_time + IO_time <= sim_time ->
    exists thr lr rts,
      calculate_threshold gaussian_filter instant_fr_l trials settling_time trial_time
                          MF_time IO_time m1 q m2 = Ok (thr, lr, rts).
Proof.
  intros gf raster_list pop_dim_ids sim_time window step start_time l trials
         settling_time trial_time MF_time IO_time m1 q m2
         Hgf Hl Hthree Hstep Htrials Htrial HMF Hwin Hstart Hend.
  pose proof (mapM_length _ _ _ Hl) as Hlen.
  destruct (nth_error raster_list 2) as [raster|] eqn:Er;
    [|apply nth_error_None in Er; lia].
  destruct (Forall2_nth_error _ _ _ (mapM_Forall2 _ _ _ Hl) _ _ Er)
    as (d & Hd & Hret).
  apply fr_window_step_raster_shape in Hret
    as (first_id & last_id & _ & _ & Hc & _ & Ht & Hnth & _).
  cbv zeta in Hc, Ht.
  apply (calculate_threshold_returns gf l trials settling_time trial_time MF_time
           IO_time m1 q m2 d Hd); try assumption.
  - rewrite Hgf. unfold mean_axis0. rewrite length_map, length_seq. lia.
  - intros k Hk Hnil.
    assert (Hk1 : 0 <= inject_Z k * trial_time).
    { apply Qmult_le_0_compat; [|assumption].
      change 0 with (inject_Z 0). rewrite <- Zle_Qle. lia. }
    assert (Hk2 : inject_Z k * trial_time <= inject_Z (trials - 1) * trial_time).
    { apply Qmult_le_compat_r; [|assumption]. rewrite <- Zle_Qle. lia. }
    destruct (sample_in_window sim_time step start_time
                (settling_time + inject_Z k * trial_time + MF_time + 100)
                (settling_time + inject_Z k * trial_time + IO_time)
                (if_times d) Hstep ltac:(lra) ltac:(lra) ltac:(lra) Ht Hnth)
      as (t & Hin & Hlo & Hhi).
    assert (Hf : In t (filter (post_stimulus settling_time trial_time MF_time IO_time k)
                              (if_times d))).
    { apply filter_In. split; [assumption|]. apply post_stimulus_true. now split. }
    rewrite Hnil in Hf. exact Hf.
Qed.

Lemma fr_window_step_then_calculate_threshold_witness :
  let pop_dim_ids :=
    [("GR"%string, (1, 4)%Z); ("PC"%string, (5, 6)%Z); ("DCN"%string, (7, 8)%Z)] in
  let raster_list :=
    [mkRaster "GR" [7] [2]%Z; mkRaster "PC" [3; 12] [5; 6]%Z;
     mkRaster "DCN" [120; 130; 131] [7; 7; 8]%Z] in
  exists instant_fr_l thr lr rts,
    fr_window_step raster_list pop_dim_ids 300 10 5 0 = Ok instant_fr_l /\
    calculate_threshold keep_filter instant_fr_l 1 0 300 0 300 1 (1 # 2) 1
    = Ok (thr, lr, rts).
Proof.
  intros pop_dim_ids raster_list.
  destruct (fr_window_step raster_list pop_dim_ids 300 10 5 0)
    as [instant_fr_l|e] eqn:E; [|vm_compute in E; discriminate].
  destruct (fr_window_step_then_calculate_threshold keep_filter raster_list
              pop_dim_ids 300 10 5 0 instant_fr_l 1 0 300 0 300 1 (1 # 2) 1)
    as (thr & lr & rts & H);
    try reflexivity; try exact E; try (simpl; lia); try (vm_compute; discriminate).
  exists instant_fr_l, thr, lr, rts. split; [reflexivity | exact H].
Defined.

(** ** [calculate_fr]: the inter-spike intervals of a neuron *)

Lemma intervals_snoc (ts : list Q) (a b : Q) :
  intervals ((ts ++ [a]) ++ [b]) = intervals (ts ++ [a]) ++ [b - a].
Proof.
  induction ts as [|x ts IH]; [reflexivity|].
  destruct ts as [|y ts]; [reflexivity|].
  change (intervals (((x :: y :: ts) ++ [a]) ++ [b]))
    with ((y - x) :: intervals (((y :: ts) ++ [a]) ++ [b])).
  rewrite IH. reflexivity.
Qed.

Lemma no_repeat_app_inv (ts : list Q) (a b : Q) (rest : list Q) :
  no_repeat ((ts ++ [a]) ++ b :: rest) -> ~ a == b.
Proof.
  induction ts as [|x ts IH]; [intros [H _]; exact H|].
  destruct ts as [|y ts]; intros [_ H]; exact (IH H).
Qed.

Lemma row_spike_times_cons (t_start : Q) (t_end : option Q) (n r : nat)
  (tt_ : Q) (idx : Z) (spikes : list (Q * Z)) :
  row_spike_times t_start t_end n r ((tt_, idx) :: spikes)
  = if after_start t_start tt_ && before_end t_end tt_ && lands_on n r idx
    then tt_ :: row_spike_times t_start t_end n r spikes
    else row_spike_times t_start t_end n r spikes.
Proof.
  unfold row_spike_times. cbn [filter fst snd].
  now destruct (after_start t_start tt_ && before_end t_end tt_ && lands_on n r idx).
Qed.

Section IsiRows.

Variables (t_start : Q) (t_end : option Q) (n r : nat).

Hypothesis start_after_sentinel : - (1) <= t_start.
Hypothesis r_in_range : (r < n)%nat.

Lemma isi_fold_row (spikes : list (Q * Z)) :
  forall (seen : list Q) (st st' : list Q * list (list Q)),
    length (fst st) = n -> length (snd st) = n ->
    row_state r seen st ->
    no_repeat (seen ++ row_spike_times t_start t_end n r spikes) ->
    foldM (isi_step t_start t_end) spikes st = Ok st' ->
    length (snd st') = n /\
    row_state r (seen ++ row_spike_times t_start t_end n r spikes) st'.
Proof.
  induction spikes as [|[tt_ idx] spikes IH]; intros seen st st' H1 H2 Hrow Hnr H.
  - cbn [foldM] in H. inversion H; subst st'. unfold row_spike_times. simpl.
    rewrite app_nil_r. auto.
  - cbn [foldM] in H. apply bind_Ok_inv in H as (st1 & Hstep & H).
    rewrite row_spike_times_cons in Hnr |- *.
    destruct st as [t_prev ISI_list]. cbn [fst snd] in H1, H2.
    unfold isi_step in Hstep.
    destruct (after_start t_start tt_) eqn:Ea;
      [|inversion Hstep; subst st1; cbn [andb] in Hnr |- *;
       exact (IH seen (t_prev, ISI_list) st' H1 H2 Hrow Hnr H)].
    destruct (before_end t_end tt_) eqn:Eb;
      [|inversion Hstep; subst st1; cbn [andb] in Hnr |- *;
       exact (IH seen (t_prev, ISI_list) st' H1 H2 Hrow Hnr H)].
    cbn [andb] in Hnr |- *.
    apply bind_Ok_inv in Hstep as (r0 & Hr0 & Hstep).
    rewrite H1 in Hr0.
    assert (Hland : lands_on n r idx = (r0 =? r)%nat)
      by (unfold lands_on; now rewrite Hr0).
    rewrite Hland in Hnr |- *.
    pose proof (proj1 (np_index_inv _ _ _ Hr0)) as Hr0n.
    destruct (Nat.eqb_spec r0 r) as [Heq|Hne]; [subst r0|].
    + (* the spike is one of entry [r] *)
      assert (Htt : ~ tt_ == - (1)).
      { unfold after_start in Ea. apply Qltb_lt in Ea. lra. }
      replace (seen ++ tt_ :: row_spike_times t_start t_end n r spikes)
        with ((seen ++ [tt_]) ++ row_spike_times t_start t_end n r spikes) in Hnr |- *
        by (now rewrite <- app_assoc).
      unfold row_state in Hrow. cbn [fst snd] in Hrow.
      destruct (rev seen) as [|last_t seen'] eqn:Erev.
      * destruct Hrow as [Hp Hi]. rewrite Hp in Hstep.
        change (Qeq_bool (- (1)) (-1)) with true in Hstep. cbv iota in Hstep.
        inversion Hstep; subst st1; clear Hstep.
        eapply (IH (seen ++ [tt_])); [| | | exact Hnr | exact H]; cbn [fst snd].
        -- now rewrite list_update_length.
        -- exact H2.
        -- unfold row_state. rewrite rev_app_distr. cbn [rev app fst snd].
           rewrite list_update_nth_same by lia. split; [reflexivity|].
           split; [exact Htt|]. rewrite Hi.
           apply (f_equal (@rev Q)) in Erev. rewrite rev_involutive in Erev.
           subst seen. reflexivity.
      * destruct Hrow as (Hp & Hl & Hi). rewrite Hp in Hstep.
        assert (Eseen : seen = rev seen' ++ [last_t]).
        { apply (f_equal (@rev Q)) in Erev. now rewrite rev_involutive in Erev. }
        assert (Hdiff : ~ last_t == tt_).
        { pose proof Hnr as Hnr'. rewrite <- app_assoc in Hnr'. rewrite Eseen in Hnr'.
          exact (no_repeat_app_inv _ _ _ _ Hnr'). }
        destruct (Qeq_bool last_t (-1)) eqn:E1;
          [apply Qeq_bool_eq in E1; contradiction|].
        destruct (Qeq_bool (tt_ - last_t) 0) eqn:E2;
          [apply Qeq_bool_eq in E2; exfalso; apply Hdiff; lra|].
        cbn [negb] in Hstep. apply bind_Ok_inv in Hstep as (r' & Hr' & Hstep).
        rewrite H2 in Hr'. assert (r' = r) by congruence. subst r'.
        inversion Hstep; subst st1; clear Hstep.
        eapply (IH (seen ++ [tt_])); [| | | exact Hnr | exact H]; cbn [fst snd].
        -- now rewrite list_update_length.
        -- now rewrite list_update_length.
        -- unfold row_state. rewrite rev_app_distr. cbn [rev app fst snd].
           rewrite !list_update_nth_same by lia. split; [reflexivity|].
           split; [exact Htt|]. rewrite Hi, Eseen. symmetry.
           apply intervals_snoc.
    + (* the spike is one of another entry *)
      assert (Hkeep : length (fst st1) = n /\ length (snd st1) = n /\
                      nth r (fst st1) 0 = nth r t_prev 0 /\
                      nth r (snd st1) [] = nth r ISI_list []).
      { destruct (Qeq_bool (nth r0 t_prev 0) (-1)).
        - inversion Hstep; subst st1. cbn [fst snd].
          rewrite list_update_length, list_update_nth_other by exact Hne. auto.
        - destruct (negb (Qeq_bool (tt_ - nth r0 t_prev 0) 0)).
          + apply bind_Ok_inv in Hstep as (r' & Hr' & Hstep).
            rewrite H2 in Hr'. assert (r' = r0) by congruence. subst r'.
            inversion Hstep; subst st1. cbn [fst snd].
            rewrite !list_update_length, !list_update_nth_other by exact Hne. auto.
          + inversion Hstep; subst st1. cbn [fst snd]. auto. }
      destruct Hkeep as (K1 & K2 & K3 & K4).
      apply (IH seen st1 st'); auto.
      unfold row_state in Hrow |- *. cbn [fst snd] in Hrow. rewrite K3, K4.
      exact Hrow.
Qed.

End IsiRows.

Lemma nth_repeat_in {A : Type} (a d : A) (n r : nat) :
  (r < n)%nat -> nth r (repeat a n) d = a.
Proof.
  intros H. apply (repeat_spec n a). apply nth_In. now rewrite repeat_length.
Qed.

(** The inter-spike intervals of entry [r] at the end of the loop. *)
Lemma ISI_of_raster_row (pop_dim_ids : PopDimIds) (t_start : Q) (t_end : option Q)
  (raster : Raster) (first_id last_id : Z) (ISI_list : list (list Q)) (r : nat) :
  dict_get pop_dim_ids (compartment_name raster) = Ok (first_id, last_id) ->
  ISI_of_raster pop_dim_ids t_start t_end raster = Ok ISI_list ->
  - (1) <= t_start ->
  (r < Z.to_nat (last_id - first_id + 1))%nat ->
  no_repeat (row_spike_times t_start t_end (Z.to_nat (last_id - first_id + 1)) r
                             (isi_spikes first_id raster)) ->
  nth_error ISI_list r
  = Some (intervals (row_spike_times t_start t_end (Z.to_nat (last_id - first_id + 1))
                                     r (isi_spikes first_id raster))).
Proof.
  intros Hd H Hstart Hr Hnr. unfold ISI_of_raster in H. rewrite Hd in H.
  cbn [bind] in H. cbv zeta in H.
  destruct (last_id - first_id + 1 <? 0)%Z; [discriminate|]. cbn [bind] in H.
  apply bind_Ok_inv in H as (st' & Hfold & H). inversion H; subst ISI_list; clear H.
  fold (isi_spikes first_id raster) in Hfold.
  set (n := Z.to_nat (last_id - first_id + 1)) in *.
  destruct (isi_fold_row t_start t_end n r Hstart Hr (isi_spikes first_id raster)
              [] (repeat (- (1)) n, repeat [] n) st') as [Hlen Hrow];
    cbn [fst snd app]; try apply repeat_length; try assumption.
  - unfold row_state. cbn [rev fst snd]. now rewrite !nth_repeat_in by exact Hr.
  - cbn [app] in Hrow. rewrite (nth_error_nth' _ [] ) by lia. f_equal.
    unfold row_state in Hrow.
    destruct (rev (row_spike_times t_start t_end n r (isi_spikes first_id raster)))
      as [|last_t l] eqn:E.
    + apply (f_equal (@rev Q)) in E. rewrite rev_involutive in E. cbn [rev] in E.
      rewrite E. apply Hrow.
    + apply Hrow.
Qed.

(** X19: in [calculate_fr], the inter-spike intervals kept for a neuron
    are the differences of consecutive spike times of that neuron inside
    the window, in the order of the raster, as long as [t_start >= -1] (the
    value -1 marks a neuron without a spike yet) and no two consecutive
    spikes of the neuron have the same time. *)
Theorem isi_list_of_neuron :
  forall (pop_dim_ids : PopDimIds) (t_start : Q) (t_end : option Q) (raster : Raster)
         (first_id last_id : Z) (ISI_list : list (list Q)) (r : nat),
    dict_get pop_dim_ids (compartment_name raster) = Ok (first_id, last_id) ->
    ISI_of_raster pop_dim_ids t_start t_end raster = Ok ISI_list ->
    - (1) <= t_start ->
    (r < Z.to_nat (last_id - first_id + 1))%nat ->
    no_repeat (row_spike_times t_start t_end (Z.to_nat (last_id - first_id + 1)) r
                               (isi_spikes first_id raster)) ->
    nth_error ISI_list r
    = Some (intervals (row_spike_times t_start t_end
                                       (Z.to_nat (last_id - first_id + 1))
                                       r (isi_spikes first_id raster))).
Proof.
  intros pop_dim_ids t_start t_end raster first_id last_id ISI_list r Hd H Hstart Hr Hnr.
  exact (ISI_of_raster_row _ _ _ _ _ _ _ _ Hd H Hstart Hr Hnr).
Qed.

Lemma isi_list_of_neuron_witness :
  let pop_dim_ids := [("GR"%string, (1, 4)%Z)] in
  let raster := mkRaster "GR" [3; 7; 12; 20] [2; 3; 2; 2]%Z in
  exists ISI_list,
    ISI_of_raster pop_dim_ids 0 None raster = Ok ISI_list /\
    row_spike_times 0 None 4 0 (isi_spikes 1 raster) = [3; 12; 20] /\
    nth_error ISI_list 0 = Some (intervals [3; 12; 20]).
Proof.
  intros pop_dim_ids raster.
  destruct (ISI_of_raster pop_dim_ids 0 None raster) as [ISI_list|e] eqn:E;
    [|vm_compute in E; discriminate].
  exists ISI_list. split; [reflexivity|]. split; [reflexivity|].
  apply (isi_list_of_neuron pop_dim_ids 0 None raster 1 4 ISI_list 0 eq_refl E).
  - vm_compute. discriminate.
  - simpl. lia.
  - repeat split; vm_compute; discriminate.
Defined.

Lemma increasing_no_repeat (ts : list Q) : increasing ts -> no_repeat ts.
Proof.
  induction ts as [|a ts IH]; [auto|].
  destruct ts as [|b ts]; [auto|]. intros [H1 H2]. split; [lra | exact (IH H2)].
Qed.

Lemma intervals_length (ts : list Q) : length (intervals ts) = (length ts - 1)%nat.
Proof.
  induction ts as [|a ts IH]; [reflexivity|].
  destruct ts as [|b ts]; [reflexivity|].
  change (intervals (a :: b :: ts)) with ((b - a) :: intervals (b :: ts)).
  cbn [length] in *. rewrite IH. lia.
Qed.

Lemma intervals_sum (a : Q) (ts : list Q) :
  Qsum (intervals (a :: ts)) == last (a :: ts) 0 - a.
Proof.
  revert a. induction ts as [|b ts IH]; intros a.
  - unfold Qsum. simpl. ring.
  - change (intervals (a :: b :: ts)) with ((b - a) :: intervals (b :: ts)).
    rewrite Qsum_cons, IH.
    change (last (a :: b :: ts) 0) with (last (b :: ts) 0). ring.
Qed.

Lemma increasing_first_last (a b : Q) (ts : list Q) :
  increasing (a :: b :: ts) -> a < last (a :: b :: ts) 0.
Proof.
  revert a b. induction ts as [|c ts IH]; intros a b [H1 H2].
  - exact H1.
  - change (last (a :: b :: c :: ts) 0) with (last (b :: c :: ts) 0).
    specialize (IH b c H2). lra.
Qed.

(** X20: the rate [calculate_fr] gives a neuron whose spike times inside
    the window increase along the raster depends on the first and the last
    of these spikes only: it is 0 with fewer than two spikes, and
    [1000 * (m - 1) / (t_last - t_first)] with [m >= 2] spikes. *)
Theorem neuron_rate_from_first_and_last_spike :
  forall (pop_dim_ids : PopDimIds) (t_start : Q) (t_end : option Q) (raster : Raster)
         (first_id last_id : Z) (ISI_list : list (list Q)) (r : nat) (ts : list Q),
    dict_get pop_dim_ids (compartment_name raster) = Ok (first_id, last_id) ->
    ISI_of_raster pop_dim_ids t_start t_end raster = Ok ISI_list ->
    - (1) <= t_start ->
    (r < Z.to_nat (last_id - first_id + 1))%nat ->
    ts = row_spike_times t_start t_end (Z.to_nat (last_id - first_id + 1)) r
                         (isi_spikes first_id raster) ->
    increasing ts ->
    exists elem,
      nth_error ISI_list r = Some elem /\
      ((length ts <= 1)%nat -> inv_mean_ISI_el elem = Fin 0) /\
      ((2 <= length ts)%nat ->
       feq (inv_mean_ISI_el elem)
           (Fin (1000 * inject_Z (Z.of_nat (length ts) - 1)
                 / (last ts 0 - hd 0 ts)))).
Proof.
  intros pop_dim_ids t_start t_end raster first_id last_id ISI_list r ts
         Hd H Hstart Hr Hts Hinc.
  exists (intervals ts). split.
  - rewrite Hts. apply (ISI_of_raster_row _ _ _ _ _ _ _ _ Hd H Hstart Hr).
    rewrite <- Hts. now apply increasing_no_repeat.
  - clear Hts. unfold inv_mean_ISI_el. rewrite intervals_length. split; intros Hlen.
    + replace (length ts - 1)%nat with 0%nat by lia. reflexivity.
    + destruct ts as [|a [|b ts]]; cbn [length] in Hlen; try lia.
      pose proof (increasing_first_last a b ts Hinc) as Hlast.
      pose proof (intervals_sum a (b :: ts)) as Hsum.
      set (m := length (a :: b :: ts)) in *.
      assert (Hm : (2 <= m)%nat) by (unfold m; cbn [length]; lia).
      replace (negb (m - 1 =? 0)%nat) with true
        by (symmetry; apply negb_true_iff, Nat.eqb_neq; lia).
      cbn [hd].
      set (s := Qsum (intervals (a :: b :: ts))) in *.
      set (l := last (a :: b :: ts) 0) in *.
      assert (Hc : inject_Z (Z.of_nat (m - 1)) == inject_Z (Z.of_nat m - 1))
        by (apply inject_Z_injective; lia).
      assert (Hc0 : 0 < inject_Z (Z.of_nat m - 1)).
      { change 0 with (inject_Z 0). rewrite <- Zlt_Qlt. lia. }
      clearbody s l m.
      rewrite (fdiv_Fin s) by (rewrite Hc; lra).
      assert (Hq : ~ s / inject_Z (Z.of_nat (m - 1)) == 0).
      { intros Hz. assert (Hs : s == 0).
        { rewrite <- (Qmult_div_r s (inject_Z (Z.of_nat (m - 1))))
            by (rewrite Hc; lra).
          rewrite Hz. ring. }
        lra. }
      rewrite fdiv_Fin by exact Hq. cbn [feq].
      rewrite Hc, Hsum. field. split; lra.
Qed.

Lemma neuron_rate_from_first_and_last_spike_witness :
  let pop_dim_ids := [("GR"%string, (1, 4)%Z)] in
  let raster := mkRaster "GR" [3; 7; 12; 20] [2; 3; 2; 2]%Z in
  exists ISI_list elem,
    ISI_of_raster pop_dim_ids 0 None raster = Ok ISI_list /\
    nth_error ISI_list 0 = Some elem /\
    feq (inv_mean_ISI_el elem) (Fin (1000 * inject_Z (3 - 1) / (20 - 3))).
Proof.
  intros pop_dim_ids raster.
  destruct (ISI_of_raster pop_dim_ids 0 None raster) as [ISI_list|e] eqn:E;
    [|vm_compute in E; discriminate].
  destruct (neuron_rate_from_first_and_last_spike pop_dim_ids 0 None raster 1 4
              ISI_list 0 [3; 12; 20] eq_refl E)
    as (elem & Hnth & _ & Hrate).
  - vm_compute. discriminate.
  - simpl. lia.
  - reflexivity.
  - repeat split.
  - exists ISI_list, elem. split; [reflexivity|]. split; [exact Hnth|].
    apply Hrate. simpl. lia.
Defined.

(** ** [fitness_function]: bound and exceptions *)

Lemma Qsum_squares_nonneg (ds : list Q) : 0 <= Qsum (map (fun d => d ^ 2) ds).
Proof.
  induction ds as [|d ds IH]; [unfold Qsum; simpl; lra|].
  cbn [map]. rewrite Qsum_cons.
  assert (H0 : 0 <= d * d) by nra.
  assert (Hd : d ^ 2 == d * d) by (simpl; ring).
  rewrite Hd. set (p := d * d) in *.
  set (s := Qsum (map (fun d0 => d0 ^ 2) ds)) in *. clearbody p s. lra.
Qed.

Lemma map2_Qminus_same (xs : list Q) :
  Qsum (map (fun d => d ^ 2) (map2 Qminus xs xs)) == 0.
Proof.
  induction xs as [|x xs IH]; [reflexivity|].
  cbn [map2 map]. rewrite Qsum_cons, IH. simpl. ring.
Qed.

Lemma broadcast2_mismatch {A B C : Type} (f : A -> B -> C) (xs : list A) (ys : list B) :
  length xs <> length ys -> length xs <> 1%nat -> length ys <> 1%nat ->
  broadcast2 f xs ys = Raise ValueError.
Proof.
  intros H Hx Hy. unfold broadcast2.
  destruct (Nat.eqb_spec (length xs) (length ys)) as [E|_]; [contradiction|].
  destruct xs as [|x [|x' xs]]; destruct ys as [|y [|y' ys]];
    simpl in *; try reflexivity; congruence.
Qed.

(** X21: the firing-rate term can only lower the fitness: whatever
    [fitness_function] returns is at most half the spectral term [conv],
    and it is exactly [conv / 2] when the measured rates are the targets
    and no weights are given. *)
Theorem fitness_function_upper_bound :
  forall (MassFr : Type) (wavelet_conv : MassFr -> Q -> Q * Q -> Q -> Q -> result Q)
         (fr fr_target : list Q) (mass_fr : MassFr) (T_sample : Q)
         (filter_range : Q * Q) (filter_sd t_start : Q)
         (fr_weights : option (list Q)) (conv : Q),
    wavelet_conv mass_fr T_sample filter_range filter_sd t_start = Ok conv ->
    (forall fitness,
        fitness_function MassFr wavelet_conv fr fr_target mass_fr T_sample
                         filter_range filter_sd t_start fr_weights = Ok fitness ->
        fitness <= conv / 2) /\
    (exists fitness,
        fitness_function MassFr wavelet_conv fr_target fr_target mass_fr T_sample
                         filter_range filter_sd t_start None = Ok fitness /\
        fitness == conv / 2).
Proof.
  intros MassFr wavelet_conv fr fr_target mass_fr T_sample filter_range filter_sd
         t_start fr_weights conv Hc. split.
  - intros fitness H. unfold fitness_function in H. rewrite Hc in H. cbn [bind] in H.
    apply bind_Ok_inv in H as (dist & _ & H).
    apply bind_Ok_inv in H as (dist' & _ & H).
    assert (Hf : fitness = - Qsum (map (fun d => d ^ 2) dist') + conv / 2)
      by congruence.
    rewrite Hf. clear H Hf.
    pose proof (Qsum_squares_nonneg dist') as Hs.
    set (s := Qsum (map (fun d => d ^ 2) dist')) in *.
    set (c := conv / 2). clearbody s c. lra.
  - unfold fitness_function. rewrite Hc. cbn [bind].
    rewrite broadcast2_same_length by reflexivity. cbn [bind].
    eexists. split; [reflexivity|]. rewrite map2_Qminus_same. ring.
Qed.

Lemma fitness_function_upper_bound_witness :
  (forall fitness,
      fitness_function unit (fun _ _ _ _ _ => Ok 3) [1; 2] [0; 4] tt 1 (30, 50) 3 0
                       (Some [2; 1]) = Ok fitness ->
      fitness <= 3 / 2) /\
  (exists fitness,
      fitness_function unit (fun _ _ _ _ _ => Ok 3) [0; 4] [0; 4] tt 1 (30, 50) 3 0
                       None = Ok fitness /\
      fitness == 3 / 2).
Proof.
  apply (fitness_function_upper_bound unit (fun _ _ _ _ _ => Ok 3) [1; 2] [0; 4] tt 1
           (30, 50) 3 0 (Some [2; 1]) 3).
  reflexivity.
Defined.

(** X22: with the spectral term computed, [fitness_function] raises
    [ValueError] when the measured rates and the targets have different
    lengths, neither of them 1; and, the two having the same length, when
    the weights have another length, and neither length is 1. *)
Theorem fitness_function_length_mismatch :
  forall (MassFr : Type) (wavelet_conv : MassFr -> Q -> Q * Q -> Q -> Q -> result Q)
         (fr fr_target : list Q) (mass_fr : MassFr) (T_sample : Q)
         (filter_range : Q * Q) (filter_sd t_start : Q) (conv : Q),
    wavelet_conv mass_fr T_sample filter_range filter_sd t_start = Ok conv ->
    (forall fr_weights,
        length fr <> length fr_target ->
        length fr <> 1%nat -> length fr_target <> 1%nat ->
        fitness_function MassFr wavelet_conv fr fr_target mass_fr T_sample
                         filter_range filter_sd t_start fr_weights
        = Raise ValueError) /\
    (forall w,
        length fr = length fr_target ->
        length w <> length fr -> length fr <> 1%nat -> length w <> 1%nat ->
        fitness_function MassFr wavelet_conv fr fr_target mass_fr T_sample
                         filter_range filter_sd t_start (Some w)
        = Raise ValueError).
Proof.
  intros MassFr wavelet_conv fr fr_target mass_fr T_sample filter_range filter_sd
         t_start conv Hc. split.
  - intros fr_weights H Hx Hy. unfold fitness_function. rewrite Hc. cbn [bind].
    now rewrite broadcast2_mismatch.
  - intros w Hlen Hw Hx Hy. unfold fitness_function. rewrite Hc. cbn [bind].
    rewrite broadcast2_same_length by assumption. cbn [bind].
    rewrite broadcast2_mismatch; [reflexivity | | |];
      try rewrite map2_length by assumption; congruence.
Qed.

Lemma fitness_function_length_mismatch_witness :
  fitness_function unit (fun _ _ _ _ _ => Ok 3) [1; 2; 3] [0; 4] tt 1 (30, 50) 3 0 None
  = Raise ValueError /\
  fitness_function unit (fun _ _ _ _ _ => Ok 3) [1; 2] [0; 4] tt 1 (30, 50) 3 0
                   (Some [1; 1; 1])
  = Raise ValueError.
Proof.
  destruct (fitness_function_length_mismatch unit (fun _ _ _ _ _ => Ok 3) [1; 2; 3]
              [0; 4] tt 1 (30, 50) 3 0 3 eq_refl) as [H1 _].
  destruct (fitness_function_length_mismatch unit (fun _ _ _ _ _ => Ok 3) [1; 2]
              [0; 4] tt 1 (30, 50) 3 0 3 eq_refl) as [_ H2].
  split.
  - apply H1; simpl; lia.
  - apply H2; simpl; lia.
Defined.

(** ** [calculate_fr_stats] *)

Section CalculateFrStatsFacts.

Variable np_sqrt : npfloat -> npfloat.
Variables (pop_dim_ids : PopDimIds) (t_start : Q) (t_end : option Q).

Lemma calculate_fr_lists (raster_list : list Raster) :
  forall acc res,
    foldM (calculate_fr_step np_sqrt pop_dim_ids t_start t_end true) raster_list acc
    = Ok res ->
    name_list res = name_list acc ++ map compartment_name raster_list /\
    length (fr_list res) = (length (fr_list acc) + length raster_list)%nat /\
    length (CV_list res) = (length (CV_list acc) + length raster_list)%nat /\
    Forall (fun raster =>
              exists p, dict_get pop_dim_ids (compartment_name raster) = Ok p)
           raster_list.
Proof.
  induction raster_list as [|raster l IH]; intros acc res H; cbn [foldM] in H.
  - inversion H; subst res. cbn [map length]. rewrite app_nil_r, !Nat.add_0_r. auto.
  - apply bind_Ok_inv in H as (acc1 & Hstep & H).
    unfold calculate_fr_step in Hstep.
    apply bind_Ok_inv in Hstep as (ISI_list & HISI & Hstep).
    inversion Hstep; subst acc1; clear Hstep.
    apply IH in H as (Hn & Hf & Hc & Hd). cbn [name_list fr_list CV_list] in *.
    rewrite Hn, Hf, Hc, !length_app, <- app_assoc. cbn [length map app].
    repeat split; try lia. constructor; [|exact Hd].
    unfold ISI_of_raster in HISI.
    destruct (dict_get pop_dim_ids (compartment_name raster)) as [p|e];
      [eauto | discriminate].
Qed.

Lemma calculate_fr_lists_of (raster_list : list Raster) (r : FrLists) :
  calculate_fr np_sqrt raster_list pop_dim_ids t_start t_end true = Ok r ->
  name_list r = map compartment_name raster_list /\
  length (fr_list r) = length raster_list /\
  length (CV_list r) = length raster_list /\
  exists pop_list_dim,
    get_pop_dim_from_ids (name_list r) pop_dim_ids = Ok pop_list_dim /\
    length pop_list_dim = length raster_list.
Proof.
  intros H. apply calculate_fr_lists in H as (Hn & Hf & Hc & Hd).
  cbn [name_list fr_list CV_list app length Nat.add] in *.
  repeat split; try assumption.
  rewrite Hn, get_pop_dim_from_ids_mapM.
  destruct (mapM_returns (pop_dim_of pop_dim_ids) (map compartment_name raster_list))
    as (dims & Hdims).
  - intros x Hx. apply in_map_iff in Hx as (raster & <- & Hin).
    rewrite Forall_forall in Hd. destruct (Hd raster Hin) as ([a b] & Hp).
    unfold pop_dim_of. rewrite Hp. cbn [bind]. eauto.
  - exists dims. split; [exact Hdims|].
    apply mapM_length in Hdims. now rewrite Hdims, length_map.
Qed.

End CalculateFrStatsFacts.

(** X23: on one trial without both ['MSND1'] and ['GPeTA'] among the
    populations, [calculate_fr_stats] returns the three lists of
    [calculate_fr] as they are, and no key ['fr_sd'] or ['CV_sd']: the
    look-up of the population sizes cannot fail where [calculate_fr]
    succeeded. *)
Theorem calculate_fr_stats_one_trial :
  forall (np_sqrt : npfloat -> npfloat) (raster_list : list Raster)
         (pop_dim_ids : PopDimIds) (t_start : Q) (t_end : option Q) (r : FrLists),
    calculate_fr np_sqrt raster_list pop_dim_ids t_start t_end true = Ok r ->
    py_in "MSND1" (map compartment_name raster_list)
    && py_in "GPeTA" (map compartment_name raster_list) = false ->
    calculate_fr_stats np_sqrt (inl raster_list) pop_dim_ids t_start t_end
    = Ok (mkFrStats (fr_list r) None (CV_list r) None
                    (map compartment_name raster_list)).
Proof.
  intros np_sqrt raster_list pop_dim_ids t_start t_end r H Hnames.
  destruct (calculate_fr_lists_of _ _ _ _ _ _ H)
    as (Hn & _ & _ & dims & Hdims & _).
  unfold calculate_fr_stats, trial_statistics. rewrite H. cbn [bind].
  rewrite Hdims. cbn [bind]. rewrite Hn, Hnames. cbn [bind]. reflexivity.
Qed.

Lemma calculate_fr_stats_one_trial_witness :
  let pop_dim_ids := [("GR"%string, (1, 4)%Z); ("PC"%string, (5, 6)%Z)] in
  let raster_list :=
    [mkRaster "PC" [3; 12] [5; 6]%Z; mkRaster "GR" [3; 7; 12; 20] [2; 3; 2; 2]%Z] in
  exists r,
    calculate_fr (fun x => x) raster_list pop_dim_ids 0 None true = Ok r /\
    calculate_fr_stats (fun x => x) (inl raster_list) pop_dim_ids 0 None
    = Ok (mkFrStats (fr_list r) None (CV_list r) None ["PC"%string; "GR"%string]).
Proof.
  intros pop_dim_ids raster_list.
  destruct (calculate_fr (fun x => x) raster_list pop_dim_ids 0 None true)
    as [r|e] eqn:E; [|vm_compute in E; discriminate].
  exists r. split; [reflexivity|].
  exact (calculate_fr_stats_one_trial (fun x => x) raster_list pop_dim_ids 0 None r
           E eq_refl).
Defined.

Lemma expand_with_averages_lists (pop_list_dim : list Z) (l : list npfloat) :
  length pop_list_dim = length l ->
  ((length l < 5)%nat ->
   expand_with_averages list_plus pop_list_dim l = Raise IndexError) /\
  ((5 <= length l)%nat ->
   exists l', expand_with_averages list_plus pop_list_dim l = Ok l' /\
              length l' = (Nat.min (length l) 7 + 2)%nat).
Proof.
  intros Hlen.
  destruct l as [|a [|b [|c [|d [|e rest]]]]];
    destruct pop_list_dim as [|da [|db [|dc [|dd [|de drest]]]]];
    try discriminate Hlen; cbn [length]; (split; intros H; try lia);
    try reflexivity.
  unfold expand_with_averages, weighted_average, list_plus, py_get, py_slice.
  cbn [nth_error bind Nat.sub firstn skipn app].
  eexists. split; [reflexivity|].
  destruct rest as [|f [|g rest]]; cbn [length]; lia.
Qed.

Lemma names_with_averages_length (name_list : list string) :
  (5 <= length name_list)%nat ->
  length (names_with_averages name_list) = (Nat.min (length name_list) 7 + 2)%nat.
Proof.
  intros H. destruct name_list as [|a [|b [|c [|d [|e rest]]]]];
    cbn [length] in H; try lia.
  unfold names_with_averages, py_slice. cbn [Nat.sub firstn skipn app].
  destruct rest as [|f [|g rest]]; cbn [length]; lia.
Qed.

(** X24: on one trial with both ['MSND1'] and ['GPeTA'] among the
    populations, [calculate_fr_stats] raises [IndexError] with fewer than
    five rasters; with five or more it returns, the names being
    [name[0:3] + ['MSN'] + name[3:5] + ['GPe'] + name[5:7]], and the three
    lists have [min(n, 7) + 2] entries each: populations after the
    seventh are left out. *)
Theorem calculate_fr_stats_with_averages :
  forall (np_sqrt : npfloat -> npfloat) (raster_list : list Raster)
         (pop_dim_ids : PopDimIds) (t_start : Q) (t_end : option Q) (r : FrLists),
    calculate_fr np_sqrt raster_list pop_dim_ids t_start t_end true = Ok r ->
    py_in "MSND1" (map compartment_name raster_list) = true ->
    py_in "GPeTA" (map compartment_name raster_list) = true ->
    ((length raster_list < 5)%nat ->
     calculate_fr_stats np_sqrt (inl raster_list) pop_dim_ids t_start t_end
     = Raise IndexError) /\
    ((5 <= length raster_list)%nat ->
     exists st,
       calculate_fr_stats np_sqrt (inl raster_list) pop_dim_ids t_start t_end = Ok st /\
       stats_name st = names_with_averages (map compartment_name raster_list) /\
       length (stats_fr st) = (Nat.min (length raster_list) 7 + 2)%nat /\
       length (stats_CV st) = (Nat.min (length raster_list) 7 + 2)%nat /\
       length (stats_name st) = (Nat.min (length raster_list) 7 + 2)%nat).
Proof.
  intros np_sqrt raster_list pop_dim_ids t_start t_end r H H1 H2.
  destruct (calculate_fr_lists_of _ _ _ _ _ _ H)
    as (Hn & Hf & Hc & dims & Hdims & Hdl).
  unfold calculate_fr_stats, trial_statistics. rewrite H. cbn [bind].
  rewrite Hdims. cbn [bind]. rewrite Hn, H1, H2. cbn [andb].
  destruct (expand_with_averages_lists dims (fr_list r) ltac:(congruence))
    as [Hfr_short Hfr_long].
  destruct (expand_with_averages_lists dims (CV_list r) ltac:(congruence))
    as [_ HCV_long].
  rewrite Hf in Hfr_short, Hfr_long. rewrite Hc in HCV_long.
  split; intros Hlen.
  - rewrite (Hfr_short Hlen). reflexivity.
  - destruct (Hfr_long Hlen) as (fr' & -> & Hfr').
    destruct (HCV_long Hlen) as (CV' & -> & HCV').
    cbn [bind]. eexists. split; [reflexivity|]. cbn [stats_name stats_fr stats_CV].
    repeat split; try assumption.
    rewrite names_with_averages_length; rewrite length_map; [reflexivity | exact Hlen].
Qed.

Lemma calculate_fr_stats_with_averages_witness :
  let pop_dim_ids :=
    [("FSN"%string, (1, 2)%Z); ("MSND1"%string, (3, 6)%Z); ("MSND2"%string, (7, 10)%Z);
     ("GPeTA"%string, (11, 12)%Z); ("GPeTI"%string, (13, 16)%Z)] in
  let raster_list :=
    [mkRaster "FSN" [3; 12] [1; 1]%Z; mkRaster "MSND1" [5; 25] [3; 3]%Z;
     mkRaster "MSND2" [] []; mkRaster "GPeTA" [4; 8; 16] [12; 12; 12]%Z;
     mkRaster "GPeTI" [9] [14]%Z] in
  calculate_fr_stats (fun x => x) (inl (firstn 4 raster_list)) pop_dim_ids 0 None
  = Raise IndexError /\
  exists st,
    calculate_fr_stats (fun x => x) (inl raster_list) pop_dim_ids 0 None = Ok st /\
    stats_name st
    = ["FSN"%string; "MSND1"%string; "MSND2"%string; "MSN"%string;
       "GPeTA"%string; "GPeTI"%string; "GPe"%string] /\
    length (stats_fr st) = 7%nat /\ length (stats_CV st) = 7%nat /\
    length (stats_name st) = 7%nat.
Proof.
  intros pop_dim_ids raster_list. split.
  - destruct (calculate_fr (fun x => x) (firstn 4 raster_list) pop_dim_ids 0 None true)
      as [r|e] eqn:E; [|vm_compute in E; discriminate].
    apply (proj1 (calculate_fr_stats_with_averages (fun x => x) (firstn 4 raster_list)
                    pop_dim_ids 0 None r E eq_refl eq_refl)).
    simpl. lia.
  - destruct (calculate_fr (fun x => x) raster_list pop_dim_ids 0 None true)
      as [r|e] eqn:E; [|vm_compute in E; discriminate].
    apply (proj2 (calculate_fr_stats_with_averages (fun x => x) raster_list
                    pop_dim_ids 0 None r E eq_refl eq_refl)).
    simpl. lia.
Defined.

Lemma expand_with_averages_arrays (pop_list_dim : list Z) (l : list npfloat) :
  length pop_list_dim = length l ->
  exists e, expand_with_averages array_plus pop_list_dim l = Raise e /\
            (e = IndexError \/ e = ValueError).
Proof.
  intros Hlen.
  destruct l as [|a [|b [|c [|d [|e rest]]]]];
    destruct pop_list_dim as [|da [|db [|dc [|dd [|de drest]]]]];
    try discriminate Hlen;
    unfold expand_with_averages, weighted_average, array_plus, py_get, py_slice,
      broadcast2;
    cbn [nth_error bind Nat.sub firstn skipn app length Nat.eqb map];
    eauto.
Qed.

Lemma np_array_rows_ncols (rows : list (list npfloat)) (arr : ndarray2 npfloat) :
  np_array_rows rows = Ok arr -> ncols arr = length (hd [] rows).
Proof.
  unfold np_array_rows.
  destruct (forallb _ rows); [|discriminate]. intros H. now inversion H.
Qed.

(** X25: with several trials of one length each, the last of which has
    both ['MSND1'] and ['GPeTA'] among its populations,
    [calculate_fr_stats] never returns: the rates are numpy arrays there,
    [+] adds them element by element instead of concatenating, and the
    call ends in [IndexError] or [ValueError] (or in the exception of
    [calculate_fr]). *)
Theorem calculate_fr_stats_trials_with_averages :
  forall (np_sqrt : npfloat -> npfloat) (earlier : list (list Raster))
         (last_trial : list Raster) (pop_dim_ids : PopDimIds)
         (t_start : Q) (t_end : option Q),
    Forall (fun trial => length trial = length last_trial) earlier ->
    py_in "MSND1" (map compartment_name last_trial) = true ->
    py_in "GPeTA" (map compartment_name last_trial) = true ->
    exists e,
      calculate_fr_stats np_sqrt (inr (earlier ++ [last_trial])) pop_dim_ids
                         t_start t_end = Raise e.
Proof.
  intros np_sqrt earlier last_trial pop_dim_ids t_start t_end Hsame H1 H2.
  unfold calculate_fr_stats, trial_statistics.
  destruct (mapM (fun raster =>
                    calculate_fr np_sqrt raster pop_dim_ids t_start t_end true)
                 (earlier ++ [last_trial])) as [rs|e] eqn:E; [|cbn [bind]; eauto].
  cbn [bind]. apply mapM_Forall2 in E.
  apply Forall2_app_inv_l in E as (rs0 & rs1 & F0 & F1 & ->).
  inversion F1 as [|? r_last ? ? Hlast Fnil]; subst. inversion Fnil; subst.
  rewrite rev_app_distr. cbn [rev app].
  destruct (calculate_fr_lists_of _ _ _ _ _ _ Hlast)
    as (Hn & Hf & _ & dims & Hdims & Hdl).
  destruct (np_array_rows (map fr_list (rs0 ++ [r_last]))) as [fr_arr|e] eqn:Efr;
    [|cbn [bind]; eauto].
  cbn [bind].
  destruct (np_array_rows (map CV_list (rs0 ++ [r_last]))) as [CV_arr|e] eqn:ECV;
    [|cbn [bind]; eauto].
  cbn [bind]. rewrite Hdims. cbn [bind]. rewrite Hn, H1, H2. cbn [andb].
  assert (Hcols : ncols fr_arr = length last_trial).
  { rewrite (np_array_rows_ncols _ _ Efr).
    destruct F0 as [|trial r0 earlier' rs0' H0 F0]; cbn [map app hd].
    - exact Hf.
    - inversion Hsame as [|? ? Hlen0 _]; subst.
      destruct (calculate_fr_lists_of _ _ _ _ _ _ H0) as (_ & Hf0 & _).
      congruence. }
  destruct (expand_with_averages_arrays dims (mean_axis0 fr_arr)) as (e & -> & _).
  - unfold mean_axis0. rewrite length_map, length_seq. congruence.
  - cbn [bind]. eauto.
Qed.

Lemma calculate_fr_stats_trials_with_averages_witness :
  let pop_dim_ids :=
    [("FSN"%string, (1, 2)%Z); ("MSND1"%string, (3, 6)%Z); ("MSND2"%string, (7, 10)%Z);
     ("GPeTA"%string, (11, 12)%Z); ("GPeTI"%string, (13, 16)%Z)] in
  let trial :=
    [mkRaster "FSN" [3; 12] [1; 1]%Z; mkRaster "MSND1" [5; 25] [3; 3]%Z;
     mkRaster "MSND2" [] []; mkRaster "GPeTA" [4; 8; 16] [12; 12; 12]%Z;
     mkRaster "GPeTI" [9] [14]%Z] in
  exists e,
    calculate_fr_stats (fun x => x) (inr ([trial] ++ [trial])) pop_dim_ids 0 None
    = Raise e.
Proof.
  intros pop_dim_ids trial.
  apply (calculate_fr_stats_trials_with_averages (fun x => x) [trial] trial
           pop_dim_ids 0 None).
  - repeat constructor.
  - reflexivity.
  - reflexivity.
Defined.

(** ** [get_pop_dim] and [get_pop_dim_from_ids] agree *)

Lemma id_range_length (first_id last_id : Z) :
  (first_id <= last_id + 1)%Z ->
  Z.of_nat (length (id_range first_id last_id)) = (last_id - first_id + 1)%Z.
Proof.
  intros H. unfold id_range. rewrite length_map, length_seq. lia.
Qed.

(** X27: for populations made of the ids [first_id, ..., last_id] that
    the dictionary records for their names (an empty population having
    [last_id = first_id - 1]), [get_pop_dim_from_ids] on the names gives
    the sizes [get_pop_dim] counts on the populations. *)
Theorem get_pop_dim_from_ids_counts_ids :
  forall (pop_ids : PopDimIds) (pop_names : list string) (pop_list : list (list Z)),
    Forall2 (fun pop_name pop =>
               exists first_id last_id,
                 dict_get pop_ids pop_name = Ok (first_id, last_id) /\
                 (first_id <= last_id + 1)%Z /\
                 pop = id_range first_id last_id)
            pop_names pop_list ->
    get_pop_dim_from_ids pop_names pop_ids = Ok (get_pop_dim pop_list).
Proof.
  intros pop_ids pop_names pop_list F. rewrite get_pop_dim_from_ids_mapM.
  induction F as [|pop_name pop names pops (first_id & last_id & Hd & Hle & ->) _ IH];
    [reflexivity|].
  cbn [mapM]. unfold pop_dim_of at 1. rewrite Hd. cbn [bind]. rewrite IH. cbn [bind].
  unfold get_pop_dim. cbn [map]. now rewrite id_range_length.
Qed.

Lemma get_pop_dim_from_ids_counts_ids_witness :
  get_pop_dim_from_ids ["PC"%string; "GR"%string]
                       [("GR"%string, (1, 4)%Z); ("PC"%string, (5, 6)%Z)]
  = Ok (get_pop_dim [[5; 6]; [1; 2; 3; 4]]%Z).
Proof.
  apply (get_pop_dim_from_ids_counts_ids
           [("GR"%string, (1, 4)%Z); ("PC"%string, (5, 6)%Z)]
           ["PC"%string; "GR"%string] [[5; 6]; [1; 2; 3; 4]]%Z).
  repeat constructor.
  - exists 5%Z, 6%Z. repeat split. lia.
  - exists 1%Z, 4%Z. repeat split. lia.
Defined.

(** ** [attach_spikedetector] with pre-set detectors *)

Lemma foldM_app {A S : Type} (body : S -> A -> result S) (xs ys : list A) (s : S) :
  foldM body (xs ++ ys) s = (s' <- foldM body xs s ;; foldM body ys s').
Proof.
  revert s. induction xs as [|x xs IH]; intros s; cbn [app foldM bind]; [reflexivity|].
  destruct (body s x) as [s1|e]; cbn [bind]; [apply IH | reflexivity].
Qed.

Lemma skipn_nth_error_cons {A : Type} (l : list A) (n : nat) (x : A) :
  nth_error l n = Some x -> skipn n l = x :: skipn (S n) l.
Proof.
  revert n. induction l as [|y l IH]; intros [|n] H; try discriminate.
  - now inversion H.
  - cbn [skipn]. now apply IH.
Qed.

Section AttachSpikedetectorFacts.

Variables (Kernel Detector : Type).
Variable nest_Create : Kernel -> Detector * Kernel.
Variable nest_Connect : list Z -> Detector -> Kernel -> Kernel.
Variables (pop_list_to_ode : list (list Z)) (sd_list_to_ode : list Detector).

Let step := attach_step Kernel Detector nest_Create nest_Connect
                        pop_list_to_ode sd_list_to_ode.

Lemma attach_step_cases (nest : Kernel) (sd_list : list Detector) (pointer : nat)
  (pop : list Z) :
  step (nest, sd_list, pointer) pop
  = match nth_error pop_list_to_ode pointer with
    | None => Raise IndexError
    | Some p =>
        if pop_eqb p pop then
          match nth_error sd_list_to_ode pointer with
          | None => Raise IndexError
          | Some sd => Ok (nest, sd_list ++ [sd], S pointer)
          end
        else
          Ok (nest_Connect pop (fst (nest_Create nest)) (snd (nest_Create nest)),
              sd_list ++ [fst (nest_Create nest)], pointer)
    end.
Proof.
  unfold step, attach_step, py_get.
  destruct (nth_error pop_list_to_ode pointer) as [p|] eqn:Ep; cbn [bind];
    [|reflexivity].
  destruct (pop_eqb p pop).
  - destruct (nth_error sd_list_to_ode pointer) as [sd|]; cbn [bind]; [|reflexivity].
    replace (pointer <? length pop_list_to_ode)%nat with true; [reflexivity|].
    symmetry. apply Nat.ltb_lt. apply nth_error_Some. congruence.
  - unfold attach_new. now destruct (nest_Create nest) as [sd nest1].
Qed.

(** The loop raises nothing but [IndexError], and its pointer follows
    [left_to_meet]. *)
Lemma attach_fold (pop_list : list (list Z)) :
  forall nest sd_list pointer,
    match foldM step pop_list (nest, sd_list, pointer) with
    | Ok (_, _, pointer') =>
        skipn pointer' pop_list_to_ode
        = left_to_meet (skipn pointer pop_list_to_ode) pop_list
    | Raise e => e = IndexError
    end.
Proof.
  induction pop_list as [|pop l IH]; intros nest sd_list pointer; cbn [foldM].
  - reflexivity.
  - rewrite attach_step_cases.
    destruct (nth_error pop_list_to_ode pointer) as [p|] eqn:Ep; cbn [bind];
      [|reflexivity].
    rewrite (skipn_nth_error_cons _ _ _ Ep). cbn [left_to_meet].
    destruct (pop_eqb p pop).
    + destruct (nth_error sd_list_to_ode pointer) as [sd|]; cbn [bind];
        [apply IH | reflexivity].
    + cbn [bind].
      specialize (IH (nest_Connect pop (fst (nest_Create nest)) (snd (nest_Create nest)))
                     (sd_list ++ [fst (nest_Create nest)]) pointer).
      now rewrite (skipn_nth_error_cons _ _ _ Ep) in IH.
Qed.

(** With a detector for every pre-set population, one turn of the loop
    returns when a pre-set population is left to meet. *)
Lemma attach_step_returns (nest : Kernel) (sd_list : list Detector) (pointer : nat)
  (pop : list Z) :
  (length pop_list_to_ode <= length sd_list_to_ode)%nat ->
  skipn pointer pop_list_to_ode <> [] ->
  exists nest' sd pointer',
    step (nest, sd_list, pointer) pop = Ok (nest', sd_list ++ [sd], pointer').
Proof.
  intros Hsd Hleft. rewrite attach_step_cases.
  destruct (nth_error pop_list_to_ode pointer) as [p|] eqn:Ep.
  - destruct (pop_eqb p pop); [|eauto].
    destruct (nth_error sd_list_to_ode pointer) as [sd|] eqn:Es; [eauto|].
    apply nth_error_None in Es.
    assert (pointer < length pop_list_to_ode)%nat
      by (apply nth_error_Some; congruence).
    lia.
  - apply nth_error_None in Ep. rewrite skipn_all2 in Hleft by exact Ep.
    contradiction.
Qed.

Lemma left_to_meet_nil (pop_list : list (list Z)) : left_to_meet [] pop_list = [].
Proof. now destruct pop_list. Qed.

Lemma attach_fold_returns (pop_list : list (list Z)) :
  (length pop_list_to_ode <= length sd_list_to_ode)%nat ->
  forall nest sd_list pointer,
    left_to_meet (skipn pointer pop_list_to_ode) pop_list <> [] ->
    exists nest' sd_list' pointer',
      foldM step pop_list (nest, sd_list, pointer) = Ok (nest', sd_list', pointer') /\
      length sd_list' = (length sd_list + length pop_list)%nat.
Proof.
  intros Hsd. induction pop_list as [|pop l IH]; intros nest sd_list pointer Hleft;
    cbn [foldM].
  - exists nest, sd_list, pointer. cbn [length]. split; [reflexivity | lia].
  - assert (Hne : skipn pointer pop_list_to_ode <> []).
    { intros E. rewrite E in Hleft. now rewrite left_to_meet_nil in Hleft. }
    pose proof (attach_fold [pop] nest sd_list pointer) as Hstep.
    cbn [foldM] in Hstep.
    destruct (attach_step_returns nest sd_list pointer pop Hsd Hne)
      as (nest1 & sd & pointer1 & E1).
    rewrite E1 in Hstep |- *. cbn [bind] in Hstep |- *.
    destruct (IH nest1 (sd_list ++ [sd]) pointer1) as (nest' & sd_list' & pointer' & E & Hlen).
    + rewrite Hstep.
      destruct (skipn pointer pop_list_to_ode) as [|p rest]; [contradiction|].
      cbn [left_to_meet] in Hleft |- *. now destruct (pop_eqb p pop).
    + exists nest', sd_list', pointer'. split; [exact E|].
      rewrite Hlen, length_app. cbn [length]. lia.
Qed.

End AttachSpikedetectorFacts.

(** X28: with pre-set detectors, [attach_spikedetector] reads
    [pop_list_to_ode] at its pointer for every population, also after the
    last pre-set population has been met.  So a population that comes
    after that raises [IndexError]; and the call returns one detector per
    population when a pre-set population is still to be met before the
    last population, there being a detector for every pre-set
    population. *)
Theorem attach_spikedetector_after_last_preset :
  forall (Kernel Detector : Type) (nest_Create : Kernel -> Detector * Kernel)
         (nest_Connect : list Z -> Detector -> Kernel -> Kernel)
         (nest : Kernel) (pop_list : list (list Z)) (last_pop : list Z)
         (pop_list_to_ode : list (list Z)) (sd_list_to_ode : list Detector),
    (left_to_meet pop_list_to_ode pop_list = [] ->
     attach_spikedetector Kernel Detector nest_Create nest_Connect nest
                          (pop_list ++ [last_pop]) (Some pop_list_to_ode)
                          sd_list_to_ode
     = Raise IndexError) /\
    (left_to_meet pop_list_to_ode pop_list <> [] ->
     (length pop_list_to_ode <= length sd_list_to_ode)%nat ->
     exists nest' sd_list,
       attach_spikedetector Kernel Detector nest_Create nest_Connect nest
                            (pop_list ++ [last_pop]) (Some pop_list_to_ode)
                            sd_list_to_ode
       = Ok (nest', sd_list) /\
       length sd_list = length (pop_list ++ [last_pop])).
Proof.
  intros Kernel Detector nest_Create nest_Connect nest pop_list last_pop
         pop_list_to_ode sd_list_to_ode.
  unfold attach_spikedetector. rewrite foldM_app.
  pose proof (attach_fold Kernel Detector nest_Create nest_Connect pop_list_to_ode
                sd_list_to_ode pop_list nest [] 0%nat) as H.
  cbn [skipn] in H. split.
  - intros Hleft.
    destruct (foldM _ pop_list (nest, [], 0%nat)) as [[[nest1 sd_list1] pointer1]|e];
      [|subst e; reflexivity].
    rewrite Hleft in H. cbn [bind foldM].
    rewrite attach_step_cases.
    replace (nth_error pop_list_to_ode pointer1) with (@None (list Z));
      [reflexivity|].
    symmetry. apply nth_error_None.
    apply (f_equal (@length (list Z))) in H. rewrite length_skipn in H.
    cbn [length] in H. lia.
  - intros Hleft Hsd.
    destruct (attach_fold_returns Kernel Detector nest_Create nest_Connect
                pop_list_to_ode sd_list_to_ode pop_list Hsd nest [] 0%nat Hleft)
      as (nest1 & sd_list1 & pointer1 & E1 & Hlen1).
    rewrite E1 in H |- *. cbn [bind foldM].
    destruct (attach_step_returns Kernel Detector nest_Create nest_Connect
                pop_list_to_ode sd_list_to_ode nest1 sd_list1 pointer1 last_pop Hsd)
      as (nest2 & sd & pointer2 & E2); [now rewrite H|].
    rewrite E2. cbn [bind]. exists nest2, (sd_list1 ++ [sd]). split; [reflexivity|].
    rewrite !length_app, Hlen1. reflexivity.
Qed.

Lemma attach_spikedetector_after_last_preset_witness :
  let nest_Create := fun n : nat => (n, S n) in
  let nest_Connect := fun (_ : list Z) (_ : nat) (n : nat) => n in
  attach_spikedetector nat nat nest_Create nest_Connect 0%nat
                       ([[1; 2]%Z] ++ [[3; 4]%Z]) (Some [[1; 2]%Z]) [7%nat]
  = Raise IndexError /\
  exists nest' sd_list,
    attach_spikedetector nat nat nest_Create nest_Connect 0%nat
                         ([[3; 4]%Z] ++ [[1; 2]%Z]) (Some [[1; 2]%Z]) [7%nat]
    = Ok (nest', sd_list) /\
    length sd_list = length ([[3; 4]%Z] ++ [[1; 2]%Z]).
Proof.
  intros nest_Create nest_Connect. split.
  - apply (proj1 (attach_spikedetector_after_last_preset nat nat nest_Create
                    nest_Connect 0%nat [[1; 2]%Z] [3; 4]%Z [[1; 2]%Z] [7%nat])).
    reflexivity.
  - apply (proj2 (attach_spikedetector_after_last_preset nat nat nest_Create
                    nest_Connect 0%nat [[3; 4]%Z] [1; 2]%Z [[1; 2]%Z] [7%nat])).
    + discriminate.
    + simpl. lia.
Defined.

(** ** [calculate_fr] on well-formed rasters *)

(** X29: [calculate_fr] returns on rasters whose population is in the
    dictionary with [first_id <= last_id] and whose neuron ids lie in
    [[first_id, last_id]]: the index [id - first_id - 1] is -1 for the
    first neuron, which numpy reads as the last entry, so no index is out
    of range.  The result has one rate per raster and, when asked for, one
    coefficient of variation and the name of every raster. *)
Theorem calculate_fr_returns_on_well_formed :
  forall (np_sqrt : npfloat -> npfloat) (raster_list : list Raster)
         (pop_dim_ids : PopDimIds) (t_start : Q) (t_end : option Q)
         (return_CV_name : bool),
    (forall raster, In raster raster_list -> raster_well_formed pop_dim_ids raster) ->
    exists res,
      calculate_fr np_sqrt raster_list pop_dim_ids t_start t_end return_CV_name
      = Ok res /\
      length (fr_list res) = length raster_list /\
      (return_CV_name = true ->
       length (CV_list res) = length raster_list /\
       name_list res = map compartment_name raster_list).
Proof.
  intros np_sqrt raster_list pop_dim_ids t_start t_end return_CV_name Hwf.
  destruct (calculate_fr_returns np_sqrt pop_dim_ids t_start t_end return_CV_name
              raster_list Hwf) as (res & H).
  exists res. split; [exact H|]. split.
  - pose proof H as H'. unfold calculate_fr in H'.
    apply calculate_fr_fold in H' as (frs & E & F & _). cbn [fr_list app] in E.
    rewrite E. symmetry. exact (Forall2_length F).
  - intros ->. destruct (calculate_fr_lists_of _ _ _ _ _ _ H) as (Hn & _ & Hc & _).
    auto.
Qed.

Lemma calculate_fr_returns_on_well_formed_witness :
  let pop_dim_ids := [("GR"%string, (1, 4)%Z); ("PC"%string, (5, 6)%Z)] in
  let raster_list :=
    [mkRaster "PC" [3; 12] [5; 6]%Z; mkRaster "GR" [3; 7; 12; 20] [1; 3; 1; 4]%Z] in
  exists res,
    calculate_fr (fun x => x) raster_list pop_dim_ids 0 None true = Ok res /\
    length (fr_list res) = length raster_list /\
    (true = true ->
     length (CV_list res) = length raster_list /\
     name_list res = map compartment_name raster_list).
Proof.
  intros pop_dim_ids raster_list.
  apply (calculate_fr_returns_on_well_formed (fun x => x) raster_list pop_dim_ids
           0 None true).
  intros raster [<-|[<-|[]]].
  - exists 5%Z, 6%Z. split; [reflexivity|]. split; [lia|].
    intros id [<-|[<-|[]]]; lia.
  - exists 1%Z, 4%Z. split; [reflexivity|]. split; [lia|].
    intros id [<-|[<-|[<-|[<-|[]]]]]; lia.
Defined.

(** ** [average_fr_per_trial] *)

Lemma dict_set_values {V : Type} (P : V -> Prop) (dic : list (string * V))
  (key : string) (value : V) :
  Forall (fun kv => P (snd kv)) dic -> P value ->
  Forall (fun kv => P (snd kv)) (dict_set dic key value).
Proof.
  intros Hd Hv. induction dic as [|[k v] dic IH]; cbn [dict_set].
  - constructor; [exact Hv | constructor].
  - inversion Hd as [|? ? Hk Hrest]; subst.
    destruct (String.eqb k key); constructor; auto.
Qed.

Lemma mapM_rows_length {A B : Type} (f : A -> result B) (xss : list (list A))
  (yss : list (list B)) (n : nat) :
  mapM (mapM f) xss = Ok yss ->
  Forall (fun xs => length xs = n) xss ->
  length yss = length xss /\ Forall (fun ys => length ys = n) yss.
Proof.
  intros H Hn. split; [exact (mapM_length _ _ _ H)|].
  apply mapM_Forall2 in H. induction H as [|xs ys xss yss Hx _ IH]; [constructor|].
  inversion Hn as [|? ? Hxs Hrest]; subst. constructor; [|exact (IH Hrest)].
  now rewrite (mapM_length _ _ _ Hx).
Qed.

Lemma mapM_nil_rows {A B : Type} (xs : list A) :
  mapM (fun _ : A => Ok ([] : list B)) xs = Ok (map (fun _ => []) xs) /\
  concat (map (fun _ : A => ([] : list B)) xs) = [].
Proof.
  induction xs as [|x xs [IH1 IH2]]; [split; reflexivity|].
  cbn [mapM map concat bind app]. rewrite IH1. cbn [bind]. split; [reflexivity | exact IH2].
Qed.

(** X30: [average_fr_per_trial] raises [UnboundLocalError] when there is
    no trial or no list of rasters, the result of [calculate_fr_stats] it
    reads the names from being unbound then.  When it returns, the entry
    of every name has one row per trial, and every row one rate per list
    of rasters. *)
Theorem average_fr_per_trial_shape :
  forall (np_sqrt : npfloat -> npfloat) (rasters_list_list : list (list Raster))
         (pop_ids : PopDimIds) (t_sim t_start t_end settling_time : Q) (trials : Z),
    ((trials <= 0)%Z \/ rasters_list_list = [] ->
     average_fr_per_trial np_sqrt rasters_list_list pop_ids t_sim t_start t_end
                          settling_time trials = Raise UnboundLocalError) /\
    (forall av_fr_dic name value,
        average_fr_per_trial np_sqrt rasters_list_list pop_ids t_sim t_start t_end
                             settling_time trials = Ok av_fr_dic ->
        In (name, value) av_fr_dic ->
        length value = Z.to_nat trials /\
        Forall (fun row => length row = length rasters_list_list) value).
Proof.
  intros np_sqrt rasters_list_list pop_ids t_sim t_start t_end settling_time trials.
  unfold average_fr_per_trial. split.
  - intros [Htrials | ->].
    + unfold py_range. replace (Z.to_nat trials) with 0%nat by lia. reflexivity.
    + unfold trial_rates. cbn [mapM].
      destruct (@mapM_nil_rows Z FrStats (py_range trials)) as [E1 E2].
      rewrite E1. cbn [bind]. rewrite E2. reflexivity.
  - intros av_fr_dic name value H Hin.
    apply bind_Ok_inv in H as (av_fr_list_list & Hrates & H).
    assert (Hshape : length av_fr_list_list = Z.to_nat trials /\
                     Forall (fun l => length l = length rasters_list_list)
                            av_fr_list_list).
    { split.
      - now rewrite (mapM_length _ _ _ Hrates), py_range_length.
      - apply mapM_Forall2 in Hrates. clear H.
        induction Hrates as [|k l ks ls Hk _ IH]; constructor; [|exact IH].
        unfold trial_rates in Hk. exact (mapM_length _ _ _ Hk). }
    destruct Hshape as [Hn Hm].
    destruct (rev (concat av_fr_list_list)) as [|av_fr rest]; [discriminate|].
    set (P := fun v : list (list npfloat) =>
                length v = Z.to_nat trials /\
                Forall (fun row => length row = length rasters_list_list) v).
    assert (Hfold : forall items acc dic,
               foldM (fun av_fr_dic (it : nat * string) =>
                        let '(i, name) := it in
                        value <- mapM (fun av_fr_list =>
                                         mapM (fun st => py_get (stats_fr st) i)
                                              av_fr_list)
                                      av_fr_list_list ;;
                        Ok (dict_set av_fr_dic name value)) items acc = Ok dic ->
               Forall (fun kv => P (snd kv)) acc ->
               Forall (fun kv => P (snd kv)) dic).
    { induction items as [|[i nm] items IH]; intros acc dic Hf Hacc; cbn [foldM] in Hf.
      - now inversion Hf; subst.
      - apply bind_Ok_inv in Hf as (acc1 & Hstep & Hf).
        apply bind_Ok_inv in Hstep as (v & Hv & Hstep).
        inversion Hstep; subst acc1; clear Hstep.
        apply (IH _ _ Hf). apply dict_set_values; [exact Hacc|].
        destruct (mapM_rows_length _ _ _ _ Hv Hm) as [Hl Hrows].
        split; [congruence | exact Hrows]. }
    specialize (Hfold _ _ _ H (Forall_nil _)).
    rewrite Forall_forall in Hfold. exact (Hfold (name, value) Hin).
Qed.

Lemma average_fr_per_trial_shape_witness :
  let pop_ids := [("GR"%string, (1, 4)%Z); ("PC"%string, (5, 6)%Z)] in
  let rasters :=
    [mkRaster "PC" [3; 12; 103; 112] [5; 6; 5; 6]%Z;
     mkRaster "GR" [3; 7; 12; 20; 107; 120] [2; 3; 2; 2; 2; 2]%Z] in
  average_fr_per_trial (fun x => x) [rasters; rasters] pop_ids 100 0 50 0 0
  = Raise UnboundLocalError /\
  exists av_fr_dic,
    average_fr_per_trial (fun x => x) [rasters; rasters] pop_ids 100 0 50 0 2
    = Ok av_fr_dic /\
    map fst av_fr_dic = ["PC"%string; "GR"%string] /\
    forall name value,
      In (name, value) av_fr_dic ->
      length value = 2%nat /\ Forall (fun row => length row = 2%nat) value.
Proof.
  intros pop_ids rasters. split.
  - apply (proj1 (average_fr_per_trial_shape (fun x => x) [rasters; rasters] pop_ids
                    100 0 50 0 0)).
    left. lia.
  - destruct (average_fr_per_trial (fun x => x) [rasters; rasters] pop_ids 100 0 50 0 2)
      as [av_fr_dic|e] eqn:E; [|vm_compute in E; discriminate].
    exists av_fr_dic. split; [reflexivity|]. split.
    + vm_compute in E. inversion E. reflexivity.
    + intros name value.
      exact (proj2 (average_fr_per_trial_shape (fun x => x) [rasters; rasters] pop_ids
                      100 0 50 0 2) av_fr_dic name value E).
Defined.
